(** * netorcai: connection lifecycle and turn sequencing

    A shallow embedding of [control.go] (the LOGIN dispatcher [handleClient],
    [Kick], [sendLoginACK]) and of [control_gl.go] (the Game Logic
    coordinator [handleGameLogic] with [sendDoInit], [sendDoTurn] and
    [waitGameLogicFinition]).

    Go values are modelled as follows.
    - [int] is [Z]; [float64] delays are rationals ([Q]), they are only
      copied into messages and truncated into sleep durations.
    - [*Client] is an address in a heap of [Client] cells, so that a [Kick]
      through one pointer is seen through every alias.
    - A channel is an identifier; the nil channel is [None].
    - Socket writes, channel sends to the other handlers, sleeps, the
      mutex and the [Kick] log line are recorded in a trace of [Effect]s,
      in program order.
    - A [select] is resolved by the environment: the coordinator is a step
      function over the [Event] that the select receives. *)

From Stdlib Require Import ZArith QArith Lia.
From stdpp Require Import sorting strings functions relations.
From stdpp Require Import base list.

Open Scope Z_scope.

(** ** Constants of [control.go] *)

(** Game state ([const ( ... = iota )]). *)
Definition GAME_NOT_RUNNING : Z := 0.
Definition GAME_RUNNING : Z := 1.
Definition GAME_FINISHED : Z := 2.

(** Client state. *)
Definition CLIENT_UNLOGGED : Z := 0.
Definition CLIENT_LOGGED : Z := 1.
Definition CLIENT_READY : Z := 2.
Definition CLIENT_THINKING : Z := 3.
Definition CLIENT_KICKED : Z := 4.

(** [time.Duration] counts nanoseconds. *)
Definition Nanosecond : Z := 1.
Definition Millisecond : Z := 1000000 * Nanosecond.
Definition Second : Z := 1000 * Millisecond.

(** [time.Duration(f)] for a [float64]: truncation toward zero. *)
Definition time_Duration (f : Q) : Z := Z.quot (Qnum f) (Z.pos (Qden f)).

(** ** Data model *)

Abbreviation ClientPtr := nat (only parsing).
Abbreviation Chan := nat (only parsing).

(** Modelled from the spec: the [Client] struct (its declaration is not in
    the sources). [connOk] stands for the socket: a write on a broken
    connection fails. *)
Record Client := mkClient {
  remoteAddr : string;
  connOk : bool;
  nickname : string;
  state : Z
}.

Definition set_state (s : Z) (c : Client) : Client :=
  mkClient (remoteAddr c) (connOk c) (nickname c) s.

Definition set_nickname (n : string) (c : Client) : Client :=
  mkClient (remoteAddr c) (connOk c) n (state c).

(** JSON values as the engine sees them: scalars are read, arrays and
    objects (game states, action lists) are opaque and forwarded verbatim. *)
Inductive Json :=
| JNull
| JBool (b : bool)
| JInt (z : Z)
| JFrac (q : Q)
| JString (s : string)
| JArray (raw : string)
| JObject (raw : string).

(** An inbound payload: a JSON object with its top-level fields, or bytes
    that do not decode to one. *)
Inductive Content :=
| NotAnObject (raw : string)
| Object (fields : list (string * Json)).

Fixpoint json_field (k : string) (fields : list (string * Json)) : option Json :=
  match fields with
  | [] => None
  | (k', v) :: rest => if decide (k = k') then Some v else json_field k rest
  end.

(** [ClientMessage]: what the reader goroutine queues. *)
Record ClientMessage := mkClientMessage {
  content : Content;
  err : option string
}.

Record PlayerInformation := mkPlayerInformation {
  PlayerID : Z;
  Nickname : string;
  RemoteAddress : string;
  IsConnected : bool
}.

Record MessageDoTurnPlayerAction := mkPlayerAction {
  ActionPlayerID : Z;
  ActionTurnNumber : Z;
  Actions : Json
}.

Record MessageGameStarts := mkMessageGameStarts {
  gsMessageType : string;
  gsPlayerID : Z;
  gsPlayersInfo : list PlayerInformation;
  gsNbPlayers : Z;
  gsNbTurnsMax : Z;
  gsDelayFirstTurn : Q;
  gsDelayTurns : Q;
  gsInitialGameState : Json
}.

Record MessageTurn := mkMessageTurn {
  tMessageType : string;
  tTurnNumber : Z;
  tGameState : Json;
  tPlayersInfo : list PlayerInformation
}.

Record MessageGameEnds := mkMessageGameEnds {
  geMessageType : string;
  geWinnerPlayerID : Z;
  geGameState : Json
}.

(** The structs written on a socket by the code embedded here. *)
Inductive Message :=
| MessageLoginAck (MessageType : string)
| MessageKick (MessageType : string) (KickReason : string)
| MessageDoInit (MessageType : string) (NbPlayers NbTurnsMax : Z)
| MessageDoTurn (MessageType : string)
    (PlayerActions : list MessageDoTurnPlayerAction).

(** [json.Marshal] of these structs (strings, ints, slices of structs)
    has no failing case; the encoded frame is identified with the struct. *)
Definition json_Marshal (msg : Message) : Message * option string :=
  (msg, None).

Record PlayerOrVisuClient := mkPlayerOrVisuClient {
  pv_client : ClientPtr;
  playerID : Z;
  isPlayer : bool;
  gameStarts : option Chan;
  newTurn : option Chan;
  gameEnds : option Chan;
  playerInfo : option PlayerInformation
}.

Record GameLogicClient := mkGameLogicClient {
  gl_client : ClientPtr;
  playerAction : option Chan;
  start : option Chan;
  playerDisconnected : option Chan
}.

(** [GlobalState]. The mutex and the listener carry no data; [Fast] is
    read by [control_gl.go] (the struct of [control.go] predates it). *)
Record GlobalState := mkGlobalState {
  GameState : Z;
  GameLogic : list GameLogicClient;
  Players : list PlayerOrVisuClient;
  Visus : list PlayerOrVisuClient;
  NbPlayersMax : Z;
  NbVisusMax : Z;
  NbTurnsMax : Z;
  MillisecondsBeforeFirstTurn : Q;
  MillisecondsBetweenTurns : Q;
  Fast : bool
}.

Definition set_GameLogic (l : list GameLogicClient) (g : GlobalState) :=
  mkGlobalState (GameState g) l (Players g) (Visus g) (NbPlayersMax g)
    (NbVisusMax g) (NbTurnsMax g) (MillisecondsBeforeFirstTurn g)
    (MillisecondsBetweenTurns g) (Fast g).

Definition set_Players (l : list PlayerOrVisuClient) (g : GlobalState) :=
  mkGlobalState (GameState g) (GameLogic g) l (Visus g) (NbPlayersMax g)
    (NbVisusMax g) (NbTurnsMax g) (MillisecondsBeforeFirstTurn g)
    (MillisecondsBetweenTurns g) (Fast g).

Definition set_Visus (l : list PlayerOrVisuClient) (g : GlobalState) :=
  mkGlobalState (GameState g) (GameLogic g) (Players g) l (NbPlayersMax g)
    (NbVisusMax g) (NbTurnsMax g) (MillisecondsBeforeFirstTurn g)
    (MillisecondsBetweenTurns g) (Fast g).

Definition set_GameState (s : Z) (g : GlobalState) :=
  mkGlobalState s (GameLogic g) (Players g) (Visus g) (NbPlayersMax g)
    (NbVisusMax g) (NbTurnsMax g) (MillisecondsBeforeFirstTurn g)
    (MillisecondsBetweenTurns g) (Fast g).

(** ** Effects and the world *)

Inductive Effect :=
| MutexLock
| MutexUnlock
| Sent (client : ClientPtr) (frame : Message)
| LogKicking (client : ClientPtr) (nick : string) (reason : string)
| Sleep (d : Z)
| SendGameStarts (ch : Chan) (m : MessageGameStarts)
| SendNewTurn (ch : Chan) (m : MessageTurn)
| SendGameEnds (ch : Chan) (m : MessageGameEnds)
| OnExit (code : Z).

Record World := mkWorld {
  globalState : GlobalState;
  heap : ClientPtr → Client;
  nextChan : Chan;
  trace : list Effect
}.

(** A computation either returns, blocks for ever (a send on a nil channel
    or on a full channel nobody drains) or panics (index out of range). *)
Inductive Result (A : Type) :=
| Ok (a : A)
| Blocked
| Panicked.
Arguments Ok {A} a.
Arguments Blocked {A}.
Arguments Panicked {A}.

Definition M (A : Type) : Type := World → Result A * World.

#[global] Instance M_ret : MRet M := λ A (a : A) w, (Ok a, w).

#[global] Instance M_bind : MBind M := λ A B (f : A → M B) (m : M A) w,
  match m w with
  | (Ok a, w1) => f a w1
  | (Blocked, w1) => (Blocked, w1)
  | (Panicked, w1) => (Panicked, w1)
  end.

Definition block {A} : M A := λ w, (Blocked, w).
Definition panic {A} : M A := λ w, (Panicked, w).

Definition emit (e : Effect) : M unit := λ w,
  (Ok tt, mkWorld (globalState w) (heap w) (nextChan w) (trace w ++ [e])).

Definition getGlobalState : M GlobalState := λ w, (Ok (globalState w), w).

Definition modifyGlobalState (f : GlobalState → GlobalState) : M unit := λ w,
  (Ok tt, mkWorld (f (globalState w)) (heap w) (nextChan w) (trace w)).

Definition getClient (p : ClientPtr) : M Client := λ w, (Ok (heap w p), w).

Definition modifyClient (p : ClientPtr) (f : Client → Client) : M unit := λ w,
  (Ok tt, mkWorld (globalState w) (<[p := f (heap w p)]> (heap w))
            (nextChan w) (trace w)).

(** [make(chan T)]: a fresh channel. *)
Definition make_chan : M (option Chan) := λ w,
  (Ok (Some (nextChan w)),
   mkWorld (globalState w) (heap w) (S (nextChan w)) (trace w)).

Definition time_Sleep (d : Z) : M unit := emit (Sleep d).

(** Modelled from the spec: [sendMessage] (not in the sources) writes one
    frame on the client's socket; it fails when the connection is broken. *)
Definition sendMessage (client : ClientPtr) (frame : Message)
  : M (option string) :=
  c ← getClient client;
  if connOk c then emit (Sent client frame) ;; mret None
  else mret (Some "write failed").

(** ** [Kick] and [sendLoginACK] *)

Definition Kick (client : ClientPtr) (reason : string) : M unit :=
  c ← getClient client;
  if decide (state c = CLIENT_KICKED) then mret tt
  else
    modifyClient client (set_state CLIENT_KICKED) ;;
    emit (LogKicking client (nickname c) reason) ;;
    let msg := MessageKick "KICK" reason in
    let '(frame, e) := json_Marshal msg in
    match e with
    | None =>
        _ ← sendMessage client frame;
        time_Sleep (500 * Millisecond)
    | Some _ => mret tt
    end.

(** [Kick] point by point. The call is followed through the points of
    lines 183-203 that read or write shared memory, write on the socket or
    pause, so that the world between two of them can be looked at. At
    [AtReport] the call has returned; the last two points are those of a
    goroutine of [Cleanup], which then reports on [kickChan]. *)
Inductive KickPoint :=
| AtCheck    (* if client.state == CLIENT_KICKED *)
| AtMark     (* client.state = CLIENT_KICKED *)
| AtLog      (* log ... Warn("Kicking client") *)
| AtSend     (* json.Marshal, sendMessage *)
| AtSleep    (* time.Sleep *)
| AtReport   (* kickChan <- 0 *)
| Reported.  (* the value was received *)

(** One step of [Kick(c, reason)], from the point [pt] to the next. *)
Definition kickStep (c : ClientPtr) (reason : string) (pt : KickPoint)
  : M KickPoint :=
  match pt with
  | AtCheck =>
      cl ← getClient c;
      if decide (state cl = CLIENT_KICKED) then mret AtReport else mret AtMark
  | AtMark => modifyClient c (set_state CLIENT_KICKED) ;; mret AtLog
  | AtLog =>
      cl ← getClient c;
      emit (LogKicking c (nickname cl) reason) ;; mret AtSend
  | AtSend =>
      let '(frame, e) := json_Marshal (MessageKick "KICK" reason) in
      match e with
      | None => _ ← sendMessage c frame; mret AtSleep
      | Some _ => mret AtReport
      end
  | AtSleep => time_Sleep (500 * Millisecond) ;; mret AtReport
  | AtReport => mret Reported
  | Reported => mret Reported
  end.

(** The first [n] steps of the call, from the point [pt]. *)
Fixpoint kickSteps (c : ClientPtr) (reason : string) (n : nat)
    (pt : KickPoint) : M KickPoint :=
  match n with
  | O => mret pt
  | S n' => pt' ← kickStep c reason pt; kickSteps c reason n' pt'
  end.

(** The points after the write of line 187. *)
Definition marked (pt : KickPoint) : bool :=
  match pt with
  | AtCheck | AtMark => false
  | _ => true
  end.

Definition sendLoginACK (client : ClientPtr) : M (option string) :=
  let msg := MessageLoginAck "LOGIN_ACK" in
  let '(frame, e) := json_Marshal msg in
  match e with
  | None => sendMessage client frame
  | Some _ => mret e
  end.

(** ** The LOGIN dispatcher: [handleClient] *)

Record MessageLogin := mkMessageLogin {
  login_nickname : string;
  role : string
}.

Definition as_string (j : option Json) : option string :=
  match j with
  | Some (JString s) => Some s
  | _ => None
  end.

Definition as_int (j : option Json) : option Z :=
  match j with
  | Some (JInt z) => Some z
  | _ => None
  end.

Definition as_object (j : option Json) : option Json :=
  match j with
  | Some (JObject raw) => Some (JObject raw)
  | _ => None
  end.

Definition as_array (j : option Json) : option Json :=
  match j with
  | Some (JArray raw) => Some (JArray raw)
  | _ => None
  end.

(** One character of [a-zA-Z0-9_-]. *)
Definition nickname_char (a : Ascii.ascii) : bool :=
  let n := Ascii.nat_of_ascii a in
  ((97 <=? n) && (n <=? 122) || (65 <=? n) && (n <=? 90)
   || (48 <=? n) && (n <=? 57) || (n =? 95) || (n =? 45))%nat.

Definition nickname_valid (s : string) : bool :=
  ((1 <=? String.length s) && (String.length s <=? 10))%nat
  && forallb nickname_char (String.list_ascii_of_string s).

Definition role_valid (r : string) : bool :=
  bool_decide (r = "player") || bool_decide (r = "visualization")
  || bool_decide (r = "game logic").

(** Modelled from the spec: [readLoginMessage] (not in the sources). A
    LOGIN is an object with exactly the fields [message_type], [nickname]
    (1 to 10 characters of [a-zA-Z0-9_-]) and [role]. *)
Definition readLoginMessage (c : Content) : MessageLogin * option string :=
  let invalid := (mkMessageLogin "" "", Some "invalid LOGIN message") in
  match c with
  | NotAnObject _ => invalid
  | Object fields =>
      match as_string (json_field "message_type" fields),
            as_string (json_field "nickname" fields),
            as_string (json_field "role" fields) with
      | Some t, Some n, Some r =>
          if bool_decide (t = "LOGIN") && (length fields =? 3)%nat
             && nickname_valid n && role_valid r
          then (mkMessageLogin n r, None)
          else invalid
      | _, _, _ => invalid
      end
  end.

(** Where [handleClient] goes after the handshake. *)
Inductive Handler :=
| Return
| HandlePlayerOrVisu (pvClient : PlayerOrVisuClient)
| HandleGameLogic (glClient : GameLogicClient).

(** Lines 79-114: [case "player"]. *)
Definition loginPlayer (client : ClientPtr) : M Handler :=
  g ← getGlobalState;
  if decide (GameState g ≠ GAME_NOT_RUNNING) then
    emit MutexUnlock ;;
    Kick client "LOGIN denied: Game has been started" ;;
    mret Return
  else if decide (Z.of_nat (length (Players g)) >= NbPlayersMax g) then
    emit MutexUnlock ;;
    Kick client "LOGIN denied: Maximum number of players reached" ;;
    mret Return
  else
    e ← sendLoginACK client;
    match e with
    | Some _ =>
        emit MutexUnlock ;;
        Kick client "LOGIN denied: Could not send LOGIN_ACK" ;;
        mret Return
    | None =>
        c1 ← make_chan; c2 ← make_chan; c3 ← make_chan;
        let pvClient := mkPlayerOrVisuClient client (-1) true c1 c2 c3 None in
        modifyGlobalState (λ g, set_Players (Players g ++ [pvClient]) g) ;;
        emit MutexUnlock ;;
        mret (HandlePlayerOrVisu pvClient)
    end.

(** Lines 115-147: [case "visualization"]. *)
Definition loginVisualization (client : ClientPtr) : M Handler :=
  g ← getGlobalState;
  if decide (Z.of_nat (length (Visus g)) >= NbVisusMax g) then
    emit MutexUnlock ;;
    Kick client "LOGIN denied: Maximum number of visus reached" ;;
    mret Return
  else
    e ← sendLoginACK client;
    match e with
    | Some _ =>
        emit MutexUnlock ;;
        Kick client "LOGIN denied: Could not send LOGIN_ACK" ;;
        mret Return
    | None =>
        c1 ← make_chan; c2 ← make_chan; c3 ← make_chan;
        let pvClient := mkPlayerOrVisuClient client (-1) false c1 c2 c3 None in
        modifyGlobalState (λ g, set_Visus (Visus g ++ [pvClient]) g) ;;
        emit MutexUnlock ;;
        mret (HandlePlayerOrVisu pvClient)
    end.

(** Lines 148-178: [case "game logic"]. The struct literal sets
    [playerAction] and [start]; [playerDisconnected] keeps its zero value,
    the nil channel. *)
Definition loginGameLogic (client : ClientPtr) : M Handler :=
  g ← getGlobalState;
  if decide (GameState g ≠ GAME_NOT_RUNNING) then
    emit MutexUnlock ;;
    Kick client "LOGIN denied: Game has been started" ;;
    mret Return
  else if decide (Z.of_nat (length (GameLogic g)) >= 1) then
    emit MutexUnlock ;;
    Kick client "LOGIN denied: A game logic is already logged in" ;;
    mret Return
  else
    e ← sendLoginACK client;
    match e with
    | Some _ =>
        emit MutexUnlock ;;
        Kick client "LOGIN denied: Could not send LOGIN_ACK" ;;
        mret Return
    | None =>
        c1 ← make_chan; c2 ← make_chan;
        let glClient := mkGameLogicClient client c1 c2 None in
        modifyGlobalState (λ g, set_GameLogic (GameLogic g ++ [glClient]) g) ;;
        emit MutexUnlock ;;
        mret (HandleGameLogic glClient)
    end.

(** [handleClient], from the first message on. The handlers it ends in
    ([handlePlayerOrVisu], [handleGameLogic]) are returned, not run. *)
Definition handleClient (client : ClientPtr) (msg : ClientMessage) : M Handler :=
  match err msg with
  | Some e =>
      Kick client ("Invalid first message: " +:+ e) ;;
      mret Return
  | None =>
      let '(loginMessage, e) := readLoginMessage (content msg) in
      match e with
      | Some e =>
          Kick client ("Invalid first message: " +:+ e) ;;
          mret Return
      | None =>
          modifyClient client (set_nickname (login_nickname loginMessage)) ;;
          emit MutexLock ;;
          if decide (role loginMessage = "player") then loginPlayer client
          else if decide (role loginMessage = "visualization")
          then loginVisualization client
          else if decide (role loginMessage = "game logic")
          then loginGameLogic client
          else mret Return (* no case matches *)
      end
  end.

(** ** The Game Logic coordinator: [control_gl.go] *)

Record MessageDoInitAck := mkMessageDoInitAck {
  InitialGameState : Json
}.

Record MessageDoTurnAck := mkMessageDoTurnAck {
  WinnerPlayerID : Z;
  AckGameState : Json
}.

(** Modelled from the spec: [readDoInitAckMessage] (not in the sources).
    A DO_INIT_ACK is an object with exactly the fields [message_type] and
    [initial_game_state], the latter an object. *)
Definition readDoInitAckMessage (c : Content) : MessageDoInitAck * option string :=
  let invalid := (mkMessageDoInitAck JNull, Some "invalid DO_INIT_ACK message") in
  match c with
  | NotAnObject _ => invalid
  | Object fields =>
      match as_string (json_field "message_type" fields),
            as_object (json_field "initial_game_state" fields) with
      | Some t, Some s =>
          if bool_decide (t = "DO_INIT_ACK") && (length fields =? 2)%nat
          then (mkMessageDoInitAck s, None)
          else invalid
      | _, _ => invalid
      end
  end.

(** Modelled from the spec: [readDoTurnAckMessage] (not in the sources).
    A DO_TURN_ACK is an object with exactly the fields [message_type],
    [winner_player_id] (an integer, at least -1 and below the initial number
    of players) and [game_state] (an object). *)
Definition readDoTurnAckMessage (c : Content) (initialNbPlayers : Z)
  : MessageDoTurnAck * option string :=
  let invalid := (mkMessageDoTurnAck 0 JNull, Some "invalid DO_TURN_ACK message") in
  match c with
  | NotAnObject _ => invalid
  | Object fields =>
      match as_string (json_field "message_type" fields),
            as_int (json_field "winner_player_id" fields),
            as_object (json_field "game_state" fields) with
      | Some t, Some winner, Some s =>
          if bool_decide (t = "DO_TURN_ACK") && (length fields =? 3)%nat
             && (-1 <=? winner) && (winner <? initialNbPlayers)
          then (mkMessageDoTurnAck winner s, None)
          else invalid
      | _, _, _ => invalid
      end
  end.

Definition sendDoInit (client : GameLogicClient) (nbPlayers nbTurnsMax : Z)
  : M (option string) :=
  let msg := MessageDoInit "DO_INIT" nbPlayers nbTurnsMax in
  let '(frame, e) := json_Marshal msg in
  match e with
  | None => sendMessage (gl_client client) frame
  | Some _ => mret e
  end.

Definition sendDoTurn (client : GameLogicClient)
    (playerActions : list MessageDoTurnPlayerAction) : M (option string) :=
  let msg := MessageDoTurn "DO_TURN" playerActions in
  let '(frame, e) := json_Marshal msg in
  match e with
  | None => sendMessage (gl_client client) frame
  | Some _ => mret e
  end.

(** [for _, x := range l { body }]. *)
Fixpoint forEach {A} (l : list A) (body : A → M unit) : M unit :=
  match l with
  | [] => mret tt
  | x :: rest => body x ;; forEach rest body
  end.

(** [ch <- v] on an unbuffered channel whose receiver is waiting; a send on
    the nil channel blocks for ever. *)
Definition chanSend (ch : option Chan) (e : Chan → Effect) : M unit :=
  match ch with
  | Some c => emit (e c)
  | None => block
  end.

Definition set_playerID (id : Z) (p : PlayerOrVisuClient) : PlayerOrVisuClient :=
  mkPlayerOrVisuClient (pv_client p) id (isPlayer p) (gameStarts p)
    (newTurn p) (gameEnds p) (playerInfo p).

Definition set_playerInfo (info : PlayerInformation) (p : PlayerOrVisuClient)
  : PlayerOrVisuClient :=
  mkPlayerOrVisuClient (pv_client p) (playerID p) (isPlayer p) (gameStarts p)
    (newTurn p) (gameEnds p) (Some info).

(** Lines 64-66: [player.playerID = playerIDs[playerIndex]] for each player;
    [None] is the index-out-of-range panic. *)
Fixpoint assignPlayerIDs (playerIDs : list Z) (playerIndex : nat)
    (players : list PlayerOrVisuClient) : option (list PlayerOrVisuClient) :=
  match players with
  | [] => Some []
  | player :: rest =>
      id ← playerIDs !! playerIndex;
      rest' ← assignPlayerIDs playerIDs (S playerIndex) rest;
      Some (set_playerID id player :: rest')
  end.

(** Lines 69-79: one [PlayerInformation] per player, also stored in the
    player. *)
Definition makePlayerInformation (h : ClientPtr → Client)
    (player : PlayerOrVisuClient) : PlayerInformation :=
  mkPlayerInformation (playerID player) (nickname (h (pv_client player)))
    (remoteAddr (h (pv_client player))) true.

Definition generatePlayersInfo (h : ClientPtr → Client)
    (players : list PlayerOrVisuClient)
  : list PlayerOrVisuClient * list PlayerInformation :=
  ((λ player, set_playerInfo (makePlayerInformation h player) player) <$> players,
   makePlayerInformation h <$> players).

(** [sort.Slice] belongs to the Go library. It is modelled by insertion
    sort, which is what it runs on slices of at most 12 elements; on longer
    slices it returns the same result whenever [less] orders the elements
    strictly, as it does on player ids. *)
Fixpoint sort_insert {A} (less : A → A → bool) (x : A) (l : list A) : list A :=
  match l with
  | [] => [x]
  | y :: rest => if less x y then x :: y :: rest else y :: sort_insert less x rest
  end.

Definition sort_Slice {A} (l : list A) (less : A → A → bool) : list A :=
  fold_left (λ sorted x, sort_insert less x sorted) l [].

Definition lessPlayerID (a b : PlayerInformation) : bool :=
  PlayerID a <? PlayerID b.

(** *** Collecting a player action (lines 187-200) *)

(** Lines 190-191, at the index where the range loop found the player.
    In the tuple assignment both right-hand sides are read first, then
    [playerActions[len-1]] and [playerActions[actionIndex]] are written in
    that order; at last the final slot receives the new action. *)
Definition swapAndOverwrite (playerActions : list MessageDoTurnPlayerAction)
    (actionIndex : nat) (action : MessageDoTurnPlayerAction)
  : list MessageDoTurnPlayerAction :=
  let last := (length playerActions - 1)%nat in
  match playerActions !! actionIndex, playerActions !! last with
  | Some atIndex, Some atLast =>
      <[last := action]>
        (<[actionIndex := atLast]> (<[last := atIndex]> playerActions))
  | _, _ => playerActions
  end.

(** The range loop of lines 188-195 from [actionIndex] on; [None] when it
    ends with [actionFound] still false. *)
Fixpoint replaceAction (action : MessageDoTurnPlayerAction)
    (playerActions : list MessageDoTurnPlayerAction) (actionIndex : nat)
    (rest : list MessageDoTurnPlayerAction)
  : option (list MessageDoTurnPlayerAction) :=
  match rest with
  | [] => None
  | act :: rest' =>
      if decide (ActionPlayerID act = ActionPlayerID action)
      then Some (swapAndOverwrite playerActions actionIndex action)
      else replaceAction action playerActions (S actionIndex) rest'
  end.

Definition collectAction (action : MessageDoTurnPlayerAction)
    (playerActions : list MessageDoTurnPlayerAction)
  : list MessageDoTurnPlayerAction :=
  match replaceAction action playerActions 0 playerActions with
  | Some replaced => replaced
  | None => playerActions ++ [action]
  end.

(** *** The coordinator as a state machine *)

(** The locals of the turn loop. [sendDoTurnToGL] is the number of values
    held by the channel of that name (capacity 1); [timers] counts the
    goroutines of line 271 that have not delivered their value yet. *)
Record TurnLoop := mkTurnLoop {
  initialNbPlayers : Z;
  playersInfo : list PlayerInformation;
  turnNumber : Z;
  playerActions : list MessageDoTurnPlayerAction;
  sendDoTurnToGL : nat;
  timers : nat
}.

(** Where the coordinator is waiting. *)
Inductive Phase :=
| WaitStart
| WaitDoInitAck (initialNbPlayers : Z) (playersInfo : list PlayerInformation)
| InTurnLoop (l : TurnLoop)
| WaitFinition
| Returned.

(** What the environment delivers to a [select]. [RecvStart] carries the
    slice that [rand.Perm] returns in the start step; [TimerPost] is a
    between-turns goroutine completing its send. *)
Inductive Event :=
| RecvStart (playerIDs : list Z)
| RecvCanTerminate
| RecvIncoming (msg : ClientMessage)
| RecvTimeAfter (d : Z)
| RecvSendDoTurn
| RecvPlayerAction (action : MessageDoTurnPlayerAction)
| RecvPlayerDisconnected
| TimerPost.

(** [Kick], [onexit <- 1], [waitGameLogicFinition]. *)
Definition abortGame (glClient : GameLogicClient) (reason : string) : M Phase :=
  Kick (gl_client glClient) reason ;;
  emit (OnExit 1) ;;
  mret WaitFinition.

(** Lines 45-57: a message from the Game Logic before the start. *)
Definition firstMessage (glClient : GameLogicClient) (msg : ClientMessage)
  : M Phase :=
  emit MutexLock ;;
  match err msg with
  | None =>
      Kick (gl_client glClient)
        ("Received a game logic message but " +:+ "the game has not started")
  | Some e =>
      Kick (gl_client glClient) ("Game logic error. " +:+ e)
  end ;;
  modifyGlobalState (λ g, set_GameLogic (take 0 (GameLogic g)) g) ;;
  emit MutexUnlock ;;
  emit (OnExit 1) ;;
  mret WaitFinition.

(** Lines 60-97: player identifiers, player information, DO_INIT. *)
Definition startGame (glClient : GameLogicClient) (playerIDs : list Z)
  : M Phase :=
  emit MutexLock ;;
  g ← getGlobalState;
  let initialNbPlayers := Z.of_nat (length (Players g)) in
  match assignPlayerIDs playerIDs 0 (Players g) with
  | None => panic
  | Some players =>
      h ← (λ w, (Ok (heap w), w));
      let '(players, playersInfo) := generatePlayersInfo h players in
      modifyGlobalState (set_Players players) ;;
      let playersInfo := sort_Slice playersInfo lessPlayerID in
      g ← getGlobalState;
      e ← sendDoInit glClient (Z.of_nat (length (Players g))) (NbTurnsMax g);
      emit MutexUnlock ;;
      match e with
      | Some e => abortGame glClient ("Cannot send DO_INIT. " +:+ e)
      | None => mret (WaitDoInitAck initialNbPlayers playersInfo)
      end
  end.

(** Lines 129-155. *)
Definition fanOutGameStarts (initialNbPlayers : Z)
    (playersInfo : list PlayerInformation) (ack : MessageDoInitAck) : M unit :=
  emit MutexLock ;;
  g ← getGlobalState;
  forEach (Players g) (λ player,
    chanSend (gameStarts player) (λ ch, SendGameStarts ch
      (mkMessageGameStarts "GAME_STARTS" (playerID player) []
         initialNbPlayers (NbTurnsMax g) (MillisecondsBeforeFirstTurn g)
         (MillisecondsBetweenTurns g) (InitialGameState ack)))) ;;
  forEach (Visus g) (λ visu,
    chanSend (gameStarts visu) (λ ch, SendGameStarts ch
      (mkMessageGameStarts "GAME_STARTS" (playerID visu) playersInfo
         initialNbPlayers (NbTurnsMax g) (MillisecondsBeforeFirstTurn g)
         (MillisecondsBetweenTurns g) (InitialGameState ack)))) ;;
  emit MutexUnlock.

(** Lines 119-170: a DO_INIT_ACK was read without error. *)
Definition gotDoInitAck (glClient : GameLogicClient) (initialNbPlayers : Z)
    (playersInfo : list PlayerInformation) (msg : ClientMessage) : M Phase :=
  let '(doTurnAckMsg, e) := readDoInitAckMessage (content msg) in
  match e with
  | Some e => abortGame glClient ("Invalid DO_INIT_ACK message. " +:+ e)
  | None =>
      fanOutGameStarts initialNbPlayers playersInfo doTurnAckMsg ;;
      g ← getGlobalState;
      (if negb (Fast g)
       then time_Sleep (time_Duration (MillisecondsBeforeFirstTurn g) * Millisecond)
       else mret tt) ;;
      let turnNumber := 0 in
      let playerActions := [] in
      _ ← sendDoTurn glClient playerActions;
      mret (InTurnLoop
              (mkTurnLoop initialNbPlayers playersInfo turnNumber playerActions 0 0))
  end.

(** [sendDoTurnToGL <- 1] from the coordinator itself: the channel holds
    one value; when it is full the only receiver is the sender, which then
    blocks for ever. *)
Definition postSendDoTurn (l : TurnLoop) : M TurnLoop :=
  if decide (sendDoTurnToGL l = 0%nat)
  then mret (mkTurnLoop (initialNbPlayers l) (playersInfo l) (turnNumber l)
               (playerActions l) 1 (timers l))
  else block.

(** Lines 202-209 and 211-218. *)
Definition checkPlayerCount (l : TurnLoop) : M TurnLoop :=
  g ← getGlobalState;
  if Fast g then
    emit MutexLock ;;
    l ← (if decide (length (playerActions l) = length (Players g))
         then postSendDoTurn l else mret l);
    emit MutexUnlock ;;
    mret l
  else mret l.

(** Lines 244-267: the TURN fan-out. *)
Definition fanOutTurn (l : TurnLoop) (ack : MessageDoTurnAck) : M TurnLoop :=
  emit MutexLock ;;
  g ← getGlobalState;
  forEach (Players g) (λ player,
    chanSend (newTurn player) (λ ch, SendNewTurn ch
      (mkMessageTurn "TURN" (turnNumber l - 1) (AckGameState ack) []))) ;;
  forEach (Visus g) (λ visu,
    chanSend (newTurn visu) (λ ch, SendNewTurn ch
      (mkMessageTurn "TURN" (turnNumber l - 1) (AckGameState ack)
         (playersInfo l)))) ;;
  l ← (if Fast g && bool_decide (length (playerActions l) = 0%nat)
       then postSendDoTurn l else mret l);
  emit MutexUnlock ;;
  mret l.

(** Lines 294-309: the GAME_ENDS fan-out. *)
Definition fanOutGameEnds (ack : MessageDoTurnAck) : M unit :=
  emit MutexLock ;;
  g ← getGlobalState;
  forEach (Players g) (λ player,
    chanSend (gameEnds player) (λ ch, SendGameEnds ch
      (mkMessageGameEnds "GAME_ENDS" (WinnerPlayerID ack) (AckGameState ack)))) ;;
  forEach (Visus g) (λ visu,
    chanSend (gameEnds visu) (λ ch, SendGameEnds ch
      (mkMessageGameEnds "GAME_ENDS" (WinnerPlayerID ack) (AckGameState ack)))) ;;
  emit MutexUnlock.

(** Lines 219-317: a message of the Game Logic inside the turn loop. *)
Definition gotDoTurnAck (glClient : GameLogicClient) (l : TurnLoop)
    (msg : ClientMessage) : M Phase :=
  match err msg with
  | Some e => abortGame glClient ("Cannot read DO_TURN_ACK. " +:+ e)
  | None =>
      let '(doTurnAckMsg, e) :=
        readDoTurnAckMessage (content msg) (initialNbPlayers l) in
      match e with
      | Some e => abortGame glClient ("Invalid DO_TURN_ACK message. " +:+ e)
      | None =>
          let l := mkTurnLoop (initialNbPlayers l) (playersInfo l)
                     (turnNumber l + 1) (playerActions l)
                     (sendDoTurnToGL l) (timers l) in
          g ← getGlobalState;
          if decide (turnNumber l < NbTurnsMax g) then
            l ← fanOutTurn l doTurnAckMsg;
            if negb (Fast g) then
              (* go func() { time.Sleep(...); sendDoTurnToGL <- 1 }() *)
              mret (InTurnLoop
                      (mkTurnLoop (initialNbPlayers l) (playersInfo l)
                         (turnNumber l) (playerActions l)
                         (sendDoTurnToGL l) (S (timers l))))
            else mret (InTurnLoop l)
          else
            (* the log line indexes playersInfo with the winner *)
            (if decide (WinnerPlayerID doTurnAckMsg ≠ -1) then
               if decide (0 <= WinnerPlayerID doTurnAckMsg) then
                 match playersInfo l !! Z.to_nat (WinnerPlayerID doTurnAckMsg) with
                 | Some _ => mret tt
                 | None => panic
                 end
               else panic
             else mret tt) ;;
            fanOutGameEnds doTurnAckMsg ;;
            Kick (gl_client glClient) "Game is finished" ;;
            emit (OnExit 0) ;;
            mret WaitFinition
      end
  end.

(** A receive from the nil channel is never ready. *)
Definition ready (ch : option Chan) : bool :=
  match ch with
  | Some _ => true
  | None => false
  end.

(** One iteration of the [select] the coordinator is waiting in. [None]:
    the select has no such case, or its channel cannot deliver. *)
Definition step (glClient : GameLogicClient) (ph : Phase) (ev : Event)
  : option (M Phase) :=
  match ph, ev with
  (* lines 39-58 *)
  | WaitStart, RecvStart playerIDs =>
      if ready (start glClient) then Some (startGame glClient playerIDs) else None
  | WaitStart, RecvCanTerminate => Some (mret Returned)
  | WaitStart, RecvIncoming msg => Some (firstMessage glClient msg)
  (* lines 101-117 *)
  | WaitDoInitAck _ _, RecvCanTerminate => Some (mret Returned)
  | WaitDoInitAck n info, RecvIncoming msg =>
      Some (match err msg with
            | Some e => abortGame glClient ("Cannot read DO_INIT_ACK. " +:+ e)
            | None => gotDoInitAck glClient n info msg
            end)
  | WaitDoInitAck _ _, RecvTimeAfter d =>
      if decide (d = 3 * Second)
      then Some (abortGame glClient "Did not receive DO_INIT_ACK after 3 seconds.")
      else None
  (* lines 172-318 *)
  | InTurnLoop _, RecvCanTerminate => Some (mret Returned)
  | InTurnLoop l, RecvSendDoTurn =>
      if decide (sendDoTurnToGL l = 0%nat) then None
      else Some (_ ← sendDoTurn glClient (playerActions l);
                 mret (InTurnLoop
                         (mkTurnLoop (initialNbPlayers l) (playersInfo l)
                            (turnNumber l) (take 0 (playerActions l))
                            (sendDoTurnToGL l - 1) (timers l))))
  | InTurnLoop l, RecvPlayerAction action =>
      if ready (playerAction glClient) then
        Some (let l := mkTurnLoop (initialNbPlayers l) (playersInfo l)
                         (turnNumber l) (collectAction action (playerActions l))
                         (sendDoTurnToGL l) (timers l) in
              l ← checkPlayerCount l;
              mret (InTurnLoop l))
      else None
  | InTurnLoop l, RecvPlayerDisconnected =>
      if ready (playerDisconnected glClient) then
        Some (l ← checkPlayerCount l; mret (InTurnLoop l))
      else None
  | InTurnLoop l, RecvIncoming msg => Some (gotDoTurnAck glClient l msg)
  | InTurnLoop l, TimerPost =>
      if decide (timers l ≠ 0%nat ∧ sendDoTurnToGL l = 0%nat)
      then Some (mret (InTurnLoop
                         (mkTurnLoop (initialNbPlayers l) (playersInfo l)
                            (turnNumber l) (playerActions l) 1
                            (timers l - 1))))
      else None
  (* waitGameLogicFinition *)
  | WaitFinition, RecvCanTerminate => Some (mret Returned)
  | WaitFinition, RecvPlayerAction _ =>
      if ready (playerAction glClient) then Some (mret WaitFinition) else None
  | WaitFinition, RecvPlayerDisconnected =>
      if ready (playerDisconnected glClient) then Some (mret WaitFinition) else None
  | WaitFinition, RecvIncoming _ => Some (mret WaitFinition)
  | _, _ => None
  end.

(** A schedule: the events delivered to the coordinator, in order. The
    run stops with [None] at an event that cannot be delivered. *)
Fixpoint run (glClient : GameLogicClient) (ph : Phase) (evs : list Event)
    (w : World) : option (Result Phase * World) :=
  match evs with
  | [] => Some (Ok ph, w)
  | ev :: evs' =>
      match step glClient ph ev with
      | None => None
      | Some m =>
          match m w with
          | (Ok ph', w') => run glClient ph' evs' w'
          | (r, w') => Some (r, w')
          end
      end
  end.

(** ** Specification-side vocabulary *)

(** What a [Kick] that goes through leaves in the trace: the log line, the
    KICK frame when the socket still accepts it, the 500 ms pause. *)
Definition kickTrace (client : ClientPtr) (nick reason : string) (ok : bool)
  : list Effect :=
  LogKicking client nick reason
  :: (if ok then [Sent client (MessageKick "KICK" reason)] else [])
  ++ [Sleep (500 * Millisecond)].

Definition kickedWorld (client : ClientPtr) (reason : string) (w : World) : World :=
  mkWorld (globalState w)
    (<[client := set_state CLIENT_KICKED (heap w client)]> (heap w))
    (nextChan w)
    (trace w ++ kickTrace client (nickname (heap w client)) reason
                  (connOk (heap w client))).

(** The world in which the [switch] of [handleClient] runs: the nickname
    is stored and the mutex is taken. *)
Definition loginWorld (client : ClientPtr) (n : string) (w : World) : World :=
  mkWorld (globalState w)
    (<[client := set_nickname n (heap w client)]> (heap w))
    (nextChan w) (trace w ++ [MutexLock]).

(** The reasons of the [Kick]s logged in a trace, in order. *)
Fixpoint kickReasons (t : list Effect) : list string :=
  match t with
  | [] => []
  | LogKicking _ _ reason :: t' => reason :: kickReasons t'
  | _ :: t' => kickReasons t'
  end.

(** [needle] occurs in [s]. *)
Definition contains (needle s : string) : bool :=
  match String.index 0 needle s with
  | Some _ => true
  | None => false
  end.

(** ** The system around the handlers *)

(** One atomic move of the whole process: a LOGIN handled by
    [handleClient], an iteration of a coordinator, or a move of the code
    outside these sources. Modelled from the spec: that code (the control
    collaborator that starts the game, the Player and Visu handlers,
    cleanup) may change the phase, the Player and Visu registries, clients
    and trace, but never registers a Game Logic. *)
Inductive sys_step : World → World → Prop :=
| sys_login client msg r w w' :
    handleClient client msg w = (r, w') → sys_step w w'
| sys_coordinator glClient ph ev m r w w' :
    step glClient ph ev = Some m → m w = (r, w') → sys_step w w'
| sys_other w w' :
    GameLogic (globalState w') = GameLogic (globalState w) → sys_step w w'.

(** The process starts with empty registries, in phase NOT_RUNNING. *)
Definition initial (w : World) : Prop :=
  GameState (globalState w) = GAME_NOT_RUNNING
  ∧ GameLogic (globalState w) = []
  ∧ Players (globalState w) = []
  ∧ Visus (globalState w) = [].

Inductive reachable : World → Prop :=
| reachable_initial w : initial w → reachable w
| reachable_step w w' : reachable w → sys_step w w' → reachable w'.

(** ** Sample worlds *)

Definition sampleConfig (phase : Z) (fast : bool) (nbTurnsMax : Z) : GlobalState :=
  mkGlobalState phase [] [] [] 2 1 nbTurnsMax (100 # 1) (100 # 1) fast.

Definition sampleWorld (phase : Z) (fast : bool) (nbTurnsMax : Z) : World :=
  mkWorld (sampleConfig phase fast nbTurnsMax)
    (λ p, mkClient "127.0.0.1" true "" CLIENT_UNLOGGED) 0 [].

Definition loginOf (n r : string) : ClientMessage :=
  mkClientMessage
    (Object [("message_type", JString "LOGIN"); ("nickname", JString n);
             ("role", JString r)]) None.

(** ** Further vocabulary of the statements *)

(** A rejected LOGIN: the mutex is released, then the client is kicked. *)
Definition rejected (client : ClientPtr) (reason : string) (w r : World) : Prop :=
  globalState r = globalState w
  ∧ state (heap r client) = CLIENT_KICKED
  ∧ trace r = trace w ++ [MutexUnlock]
               ++ kickTrace client (nickname (heap w client)) reason
                    (connOk (heap w client)).

(** What a LOGIN does to the Game Logic registry, by the handler it ends
    in: only the Game Logic case touches it, going from empty to the one
    client it built. *)
Definition outcome (client : ClientPtr) (w : World) (h : Handler) (r : World)
  : Prop :=
  match h with
  | HandleGameLogic glClient =>
      GameLogic (globalState w) = []
      ∧ GameLogic (globalState r) = [glClient]
      ∧ ∃ c1 c2, glClient = mkGameLogicClient client (Some c1) (Some c2) None
  | _ => GameLogic (globalState r) = GameLogic (globalState w)
  end.

(** What the coordinator may do to the global state: it rewrites the
    players (identifiers, information) and may empty the Game Logic
    registry; phase, Visus and configuration stay. *)
Definition coordinated (g g' : GlobalState) : Prop :=
  GameState g' = GameState g
  ∧ (GameLogic g' = GameLogic g ∨ GameLogic g' = [])
  ∧ Visus g' = Visus g
  ∧ NbPlayersMax g' = NbPlayersMax g
  ∧ NbVisusMax g' = NbVisusMax g
  ∧ NbTurnsMax g' = NbTurnsMax g
  ∧ Fast g' = Fast g.

(** A LOGIN that is turned down: the registries and the phase are as
    before, the client is KICKED, and the trace shows the mutex taken and
    released, then the kick with its reason. *)
Definition loginDenied (client : ClientPtr) (n reason : string) (w r : World)
  : Prop :=
  globalState r = globalState w
  ∧ state (heap r client) = CLIENT_KICKED
  ∧ trace r = trace w ++ [MutexLock; MutexUnlock]
               ++ kickTrace client n reason (connOk (heap w client)).

(** A world in which one Game Logic has logged in. *)
Definition gameLogicWorld (fast : bool) (nbTurnsMax : Z) : World :=
  (handleClient 7 (loginOf "gl" "game logic")
     (sampleWorld GAME_NOT_RUNNING fast nbTurnsMax)).2.

(** The same after the control collaborator has started the game. *)
Definition startedWorld : World :=
  let w := gameLogicWorld false 3 in
  mkWorld (set_GameState GAME_RUNNING (globalState w)) (heap w) (nextChan w)
    (trace w).

(** The Game Logic client of the sample worlds, as [handleClient] built it. *)
Definition sampleGameLogic : GameLogicClient :=
  mkGameLogicClient 7 (Some 0%nat) (Some 1%nat) None.

(** The world after the coordinator's start step, from the world in which
    the Game Logic has just logged in. *)
Definition coordinatorStartedWorld : World :=
  match run sampleGameLogic WaitStart [RecvStart []] (gameLogicWorld false 3) with
  | Some (_, w) => w
  | None => gameLogicWorld false 3
  end.

(** The world after the same step when the phase had been set to RUNNING. *)
Definition runningWorld : World :=
  match run sampleGameLogic WaitStart [RecvStart []] startedWorld with
  | Some (_, w) => w
  | None => startedWorld
  end.

(** The world after [Kick], [onexit <- 1] on the Game Logic client. *)
Definition abortedWorld (glClient : GameLogicClient) (reason : string)
    (w : World) : World :=
  mkWorld (globalState w)
    (<[gl_client glClient :=
         set_state CLIENT_KICKED (heap w (gl_client glClient))]> (heap w))
    (nextChan w)
    (trace w
     ++ kickTrace (gl_client glClient) (nickname (heap w (gl_client glClient)))
          reason (connOk (heap w (gl_client glClient)))
     ++ [OnExit 1]).

(** Ascending player identifiers. *)
Definition ascending (a b : PlayerInformation) : Prop :=
  PlayerID a ≤ PlayerID b.

Definition actionOf (player : Z) (turn : Z) : MessageDoTurnPlayerAction :=
  mkPlayerAction player turn (JArray "[]").

(** A lobby: players "p1" and "p2", the visualization "v1" and the Game
    Logic "gl" have logged in, in this order. *)
Definition lobbyWorld (fast : bool) (nbTurnsMax : Z) : World :=
  let w := sampleWorld GAME_NOT_RUNNING fast nbTurnsMax in
  let w := (handleClient 5 (loginOf "p1" "player") w).2 in
  let w := (handleClient 6 (loginOf "p2" "player") w).2 in
  let w := (handleClient 8 (loginOf "v1" "visualization") w).2 in
  (handleClient 7 (loginOf "gl" "game logic") w).2.

Definition lobbyGameLogic : GameLogicClient :=
  mkGameLogicClient 7 (Some 9%nat) (Some 10%nat) None.

Definition frameType (m : Message) : string :=
  match m with
  | MessageLoginAck t => t
  | MessageKick t _ => t
  | MessageDoInit t _ _ => t
  | MessageDoTurn t _ => t
  end.

(** The frames written on the socket of [c], in order. *)
Fixpoint sentTo (c : ClientPtr) (t : list Effect) : list Message :=
  match t with
  | [] => []
  | Sent c' m :: t' => if decide (c' = c) then m :: sentTo c t' else sentTo c t'
  | _ :: t' => sentTo c t'
  end.

Definition isDoTurn (m : Message) : bool :=
  match m with
  | MessageDoTurn _ _ => true
  | _ => false
  end.

(** How many DO_TURN frames [c] was sent. *)
Definition doTurnCount (c : ClientPtr) (t : list Effect) : nat :=
  length (filter (λ m, isDoTurn m = true) (sentTo c t)).

(** The values sent on [onexit]. *)
Fixpoint exitCodes (t : list Effect) : list Z :=
  match t with
  | [] => []
  | OnExit code :: t' => code :: exitCodes t'
  | _ :: t' => exitCodes t'
  end.

(** What the Player and Visu handlers are handed, and on which channel. *)
Inductive Note :=
| GameStartsOn (ch : Chan)
| TurnOn (ch : Chan) (turn_number : Z)
| GameEndsOn (ch : Chan).

Fixpoint notes (t : list Effect) : list Note :=
  match t with
  | [] => []
  | SendGameStarts ch _ :: t' => GameStartsOn ch :: notes t'
  | SendNewTurn ch m :: t' => TurnOn ch (tTurnNumber m) :: notes t'
  | SendGameEnds ch _ :: t' => GameEndsOn ch :: notes t'
  | _ :: t' => notes t'
  end.

(** The channels of one kind of every Player, then of every Visu. *)
Definition channels (f : PlayerOrVisuClient → option Chan) (g : GlobalState)
  : list Chan :=
  omap f (Players g ++ Visus g).

(** A whole game seen from the handlers: GAME_STARTS to everyone, then for
    each turn number 0 .. nbTurnsMax - 2 a TURN to everyone, then GAME_ENDS
    to everyone. *)
Definition gameNotes (g : GlobalState) : list Note :=
  (GameStartsOn <$> channels gameStarts g)
  ++ mjoin ((λ k, (λ ch, TurnOn ch k) <$> channels newTurn g)
            <$> seqZ 0 (NbTurnsMax g - 1))
  ++ (GameEndsOn <$> channels gameEnds g).

(** The schedules of a Game Logic that only answers: it sends nothing
    before DO_INIT, answers DO_INIT in time with a valid DO_INIT_ACK, and
    sends a valid DO_TURN_ACK only for a DO_TURN it has received and not
    answered yet; the process is not shut down meanwhile. [base] is the
    length of the trace when the coordinator starts. *)
Definition answers (glClient : GameLogicClient) (base : nat) (ph : Phase)
    (ev : Event) (w : World) : Prop :=
  match ev, ph with
  | RecvCanTerminate, _ => False
  | RecvTimeAfter _, _ => False
  | RecvIncoming _, WaitStart => False
  | RecvIncoming msg, WaitDoInitAck _ _ =>
      err msg = None ∧ (readDoInitAckMessage (content msg)).2 = None
  | RecvIncoming msg, InTurnLoop l =>
      err msg = None
      ∧ (readDoTurnAckMessage (content msg) (initialNbPlayers l)).2 = None
      ∧ turnNumber l
        < Z.of_nat (doTurnCount (gl_client glClient) (drop base (trace w)))
  | _, _ => True
  end.

Fixpoint answersOnly (glClient : GameLogicClient) (base : nat) (ph : Phase)
    (evs : list Event) (w : World) : Prop :=
  match evs with
  | [] => True
  | ev :: evs' =>
      answers glClient base ph ev w
      ∧ match step glClient ph ev with
        | Some m =>
            match m w with
            | (Ok ph', w') => answersOnly glClient base ph' evs' w'
            | _ => True
            end
        | None => True
        end
  end.

Definition addTrace (t : list Effect) (w : World) : World :=
  mkWorld (globalState w) (heap w) (nextChan w) (trace w ++ t).

(** Effects that neither write on a socket nor exit nor kick. *)
Definition internal (e : Effect) : Prop :=
  match e with
  | Sent _ _ | LogKicking _ _ _ | OnExit _ => False
  | _ => True
  end.

(** The coordinator has started on global state [g] with trace [t0]; since
    then it has emitted [t] and its Game Logic client is still connected
    and not kicked. *)
Definition started (glClient : GameLogicClient) (g : GlobalState)
    (t0 : list Effect) (w : World) (t : list Effect) : Prop :=
  globalState w = g
  ∧ trace w = t0 ++ t
  ∧ state (heap w (gl_client glClient)) ≠ CLIENT_KICKED
  ∧ connOk (heap w (gl_client glClient)) = true.

(** Invariant of the turn loop in normal mode: DO_INIT then only DO_TURNs
    were sent; every DO_TURN_ACK but the last paid for one more DO_TURN,
    already sent, waiting in the channel or held by a timer; the handlers
    received GAME_STARTS and one TURN round per acknowledged turn. *)
Definition loopInv (c : ClientPtr) (g : GlobalState) (l : TurnLoop)
    (t : list Effect) : Prop :=
  frameType <$> sentTo c t = "DO_INIT" :: replicate (doTurnCount c t) "DO_TURN"
  ∧ Z.of_nat (doTurnCount c t) + Z.of_nat (timers l)
    + Z.of_nat (sendDoTurnToGL l) = 1 + turnNumber l
  ∧ 0 ≤ turnNumber l < NbTurnsMax g
  ∧ kickReasons t = []
  ∧ exitCodes t = []
  ∧ notes t = (GameStartsOn <$> channels gameStarts g)
              ++ mjoin ((λ k, (λ ch, TurnOn ch k) <$> channels newTurn g)
                        <$> seqZ 0 (turnNumber l)).

(** The game was played to its end. *)
Definition gameOver (c : ClientPtr) (g : GlobalState) (t : list Effect) : Prop :=
  frameType <$> sentTo c t
  = "DO_INIT" :: replicate (Z.to_nat (NbTurnsMax g)) "DO_TURN" ++ ["KICK"]
  ∧ kickReasons t = ["Game is finished"]
  ∧ exitCodes t = [0]
  ∧ notes t = gameNotes g.

Definition doInitAck : ClientMessage :=
  mkClientMessage
    (Object [("message_type", JString "DO_INIT_ACK");
             ("initial_game_state", JObject "{}")]) None.

Definition doTurnAck : ClientMessage :=
  mkClientMessage
    (Object [("message_type", JString "DO_TURN_ACK");
             ("winner_player_id", JInt (-1));
             ("game_state", JObject "{}")]) None.

(** Normal mode, two turns, in the lobby of two players and one visu: the
    Game Logic answers each message; between the turns the timer delivers
    the send signal. *)
Definition normalSchedule : list Event :=
  [RecvStart [1; 0]; RecvIncoming doInitAck;
   RecvPlayerAction (actionOf 1 0);
   RecvIncoming doTurnAck; TimerPost; RecvSendDoTurn;
   RecvIncoming doTurnAck].

Definition normalGameWorld : World :=
  match run lobbyGameLogic WaitStart normalSchedule (lobbyWorld false 2) with
  | Some (_, w) => w
  | None => lobbyWorld false 2
  end.

(** Fast mode, two turns, one player. *)
Definition soloWorld (fast : bool) (nbTurnsMax : Z) : World :=
  let w := sampleWorld GAME_NOT_RUNNING fast nbTurnsMax in
  let w := (handleClient 5 (loginOf "p1" "player") w).2 in
  (handleClient 7 (loginOf "gl" "game logic") w).2.

Definition soloGameLogic : GameLogicClient :=
  mkGameLogicClient 7 (Some 3%nat) (Some 4%nat) None.

(** The player answers TURN 0 while the Game Logic is computing the second
    turn: its action completes the set and triggers a third DO_TURN. *)
Definition fastSchedule : list Event :=
  [RecvStart [0]; RecvIncoming doInitAck;
   RecvIncoming doTurnAck; RecvSendDoTurn;
   RecvPlayerAction (actionOf 0 0); RecvSendDoTurn;
   RecvIncoming doTurnAck].

Definition fastGameWorld : World :=
  match run soloGameLogic WaitStart fastSchedule (soloWorld true 2) with
  | Some (_, w) => w
  | None => soloWorld true 2
  end.

(** Every channel of the client was made. *)
Definition channelsMade (p : PlayerOrVisuClient) : Prop :=
  is_Some (gameStarts p) ∧ is_Some (newTurn p) ∧ is_Some (gameEnds p).

(** The schedule of a normal-mode game that the Game Logic answers
    message by message, [r] further turns after the first: between two
    turns the timer delivers and the send signal is received. *)
Fixpoint turns (r : nat) : list Event :=
  match r with
  | O => [RecvIncoming doTurnAck]
  | S r' => RecvIncoming doTurnAck :: TimerPost :: RecvSendDoTurn :: turns r'
  end.

Definition game (playerIDs : list Z) (r : nat) : list Event :=
  RecvStart playerIDs :: RecvIncoming doInitAck :: turns r.

(** ** Vocabulary of the further properties *)

(** The mutex along a trace, from [held]: [None] when the trace locks the
    held mutex or unlocks the free one. *)
Fixpoint mutexAfter (held : bool) (t : list Effect) : option bool :=
  match t with
  | [] => Some held
  | MutexLock :: t' => if held then None else mutexAfter true t'
  | MutexUnlock :: t' => if held then mutexAfter false t' else None
  | _ :: t' => mutexAfter held t'
  end.

(** The computation [m] takes the mutex from [b] to [b'] when it returns;
    when it blocks, it blocks holding the mutex. *)
Definition locks (b b' : bool) {A} (m : M A) : Prop :=
  ∀ w, ∃ t, trace (m w).2 = trace w ++ t
            ∧ match (m w).1 with
              | Ok _ => mutexAfter b t = Some b'
              | Blocked => mutexAfter b t = Some true
              | Panicked => True
              end.

(** The computation [m] only appends effects that satisfy [P]. *)
Definition emitsOnly (P : Effect → Prop) {A} (m : M A) : Prop :=
  ∀ w, ∃ t, trace (m w).2 = trace w ++ t ∧ Forall P t.

(** Effects other than taking and releasing the mutex. *)
Definition noMutex (e : Effect) : Prop :=
  match e with
  | MutexLock | MutexUnlock => False
  | _ => True
  end.

(** The computation [m] returns: it neither blocks nor panics. *)
Definition returns {A} (m : M A) : Prop := ∀ w, ∃ a, (m w).1 = Ok a.

(** What [waitGameLogicFinition] swallows: anything the Game Logic still
    sends, and the actions that the Player handlers still forward. *)
Definition drained (glClient : GameLogicClient) (ev : Event) : Prop :=
  match ev with
  | RecvIncoming _ => True
  | RecvPlayerAction _ => ready (playerAction glClient) = true
  | RecvPlayerDisconnected => ready (playerDisconnected glClient) = true
  | _ => False
  end.

(** Effects other than a value sent on [onexit]. *)
Definition noExit (e : Effect) : Prop :=
  match e with
  | OnExit _ => False
  | _ => True
  end.

(** What an iteration of the coordinator tells [onexit], by its result: one
    code, with the Game Logic client KICKED, exactly when it goes to
    [waitGameLogicFinition]. *)
Definition exitsBy (c : ClientPtr) (r : Result Phase) (t : list Effect)
    (w' : World) : Prop :=
  match r with
  | Ok WaitFinition =>
      ∃ code, exitCodes t = [code] ∧ (code = 0 ∨ code = 1)
              ∧ state (heap w' c) = CLIENT_KICKED
  | _ => exitCodes t = []
  end.

Definition exits (c : ClientPtr) (m : M Phase) : Prop :=
  ∀ w, ∃ t, trace (m w).2 = trace w ++ t ∧ exitsBy c (m w).1 t (m w).2.

(** Every value that [m] returns satisfies [Q]. *)
Definition yields {A} (Q : A → Prop) (m : M A) : Prop :=
  ∀ w a, (m w).1 = Ok a → Q a.

(** The world after [m] is related to the world before. *)
Definition keeps (R : relation World) {A} (m : M A) : Prop :=
  ∀ w, R w (m w).2.

(** What may happen to the clients' records and to the channel supply
    when only the client [c] may be kicked. *)
Definition footprint (c : ClientPtr) (w w' : World) : Prop :=
  nextChan w' = nextChan w
  ∧ (∀ p, p ≠ c → heap w' p = heap w p)
  ∧ remoteAddr (heap w' c) = remoteAddr (heap w c)
  ∧ connOk (heap w' c) = connOk (heap w c)
  ∧ nickname (heap w' c) = nickname (heap w c)
  ∧ (state (heap w' c) = state (heap w c)
     ∨ state (heap w' c) = CLIENT_KICKED).

(** The same for the clients' records alone: no record but that of [c]
    changes, and of [c] the state only, to KICKED. *)
Definition kicksOnly (c : ClientPtr) (w w' : World) : Prop :=
  (∀ p, p ≠ c → heap w' p = heap w p)
  ∧ remoteAddr (heap w' c) = remoteAddr (heap w c)
  ∧ connOk (heap w' c) = connOk (heap w c)
  ∧ nickname (heap w' c) = nickname (heap w c)
  ∧ (state (heap w' c) = state (heap w c)
     ∨ state (heap w' c) = CLIENT_KICKED).

(** What the start step does to a registered player: a new identifier and
    its information record; the client, the role and the channels stay. *)
Definition identified (h : ClientPtr → Client) (p p' : PlayerOrVisuClient)
  : Prop :=
  pv_client p' = pv_client p
  ∧ isPlayer p' = isPlayer p
  ∧ gameStarts p' = gameStarts p
  ∧ newTurn p' = newTurn p
  ∧ gameEnds p' = gameEnds p
  ∧ playerInfo p' = Some (makePlayerInformation h p').

(** A DO_TURN frame carries at most one action for each player. *)
Definition oneActionPerPlayer (e : Effect) : Prop :=
  match e with
  | Sent _ (MessageDoTurn _ actions) => NoDup (ActionPlayerID <$> actions)
  | _ => True
  end.

(** The actions collected so far. *)
Definition actionsOf (ph : Phase) : list MessageDoTurnPlayerAction :=
  match ph with
  | InTurnLoop l => playerActions l
  | _ => []
  end.

(** The computation [m] does not panic. *)
Definition neverPanics {A} (m : M A) : Prop := ∀ w, (m w).1 ≠ Panicked.

(** The information array has one record per player counted at start. *)
Definition sized (ph : Phase) : Prop :=
  match ph with
  | WaitDoInitAck n info => Z.of_nat (length info) = n
  | InTurnLoop l => Z.of_nat (length (playersInfo l)) = initialNbPlayers l
  | _ => True
  end.

(** A DO_TURN_ACK that names a winner. *)
Definition doTurnAckWon (winner : Z) : ClientMessage :=
  mkClientMessage
    (Object [("message_type", JString "DO_TURN_ACK");
             ("winner_player_id", JInt winner);
             ("game_state", JObject "{}")]) None.

(** A game of one turn in the lobby of two players, won by player 1. *)
Definition wonSchedule : list Event :=
  [RecvStart [1; 0]; RecvIncoming doInitAck; RecvIncoming (doTurnAckWon 1)].

Definition wonGameWorld : World :=
  match run lobbyGameLogic WaitStart wonSchedule (lobbyWorld false 1) with
  | Some (_, w) => w
  | None => lobbyWorld false 1
  end.

(** The reason given to a Game Logic that speaks before the start. *)
Definition prematureReason (msg : ClientMessage) : string :=
  match err msg with
  | None => "Received a game logic message but " +:+ "the game has not started"
  | Some e => "Game logic error. " +:+ e
  end.

(** Fast mode, one player, three turns: the Game Logic has acknowledged
    the first DO_TURN; no action was collected yet, so the send signal is
    pending when the player's answer to TURN 0 arrives. *)
Definition pendingSchedule : list Event :=
  [RecvStart [0]; RecvIncoming doInitAck; RecvIncoming doTurnAck].

Definition pendingWorld : World :=
  match run soloGameLogic WaitStart pendingSchedule (soloWorld true 3) with
  | Some (_, w) => w
  | None => soloWorld true 3
  end.

Definition pendingLoop : TurnLoop :=
  mkTurnLoop 1 [mkPlayerInformation 0 "p1" "127.0.0.1" true] 1 [] 1 0.

(** A lobby whose Game Logic has lost its connection. *)
Definition brokenWorld : World :=
  let w := lobbyWorld false 2 in
  mkWorld (globalState w)
    (<[7%nat := mkClient "127.0.0.1" false "gl" CLIENT_UNLOGGED]> (heap w))
    (nextChan w) (trace w).

(** What a LOGIN does to the global state, by the handler it ends in: a
    rejected LOGIN changes nothing; an accepted one appends the client it
    built, with channels just made, to the registry of its role, which had
    room for it. *)
Definition registered (client : ClientPtr) (w : World) (h : Handler)
    (r : World) : Prop :=
  match h with
  | Return => globalState r = globalState w
  | HandlePlayerOrVisu pv =>
      pv = mkPlayerOrVisuClient client (-1) (isPlayer pv)
             (Some (nextChan w)) (Some (S (nextChan w)))
             (Some (S (S (nextChan w)))) None
      ∧ if isPlayer pv
        then GameState (globalState w) = GAME_NOT_RUNNING
             ∧ Z.of_nat (length (Players (globalState w)))
               < NbPlayersMax (globalState w)
             ∧ globalState r
               = set_Players (Players (globalState w) ++ [pv]) (globalState w)
        else Z.of_nat (length (Visus (globalState w)))
             < NbVisusMax (globalState w)
             ∧ globalState r
               = set_Visus (Visus (globalState w) ++ [pv]) (globalState w)
  | HandleGameLogic glClient =>
      glClient = mkGameLogicClient client (Some (nextChan w))
                   (Some (S (nextChan w))) None
      ∧ GameState (globalState w) = GAME_NOT_RUNNING
      ∧ GameLogic (globalState w) = []
      ∧ globalState r = set_GameLogic [glClient] (globalState w)
  end.

(** The moves of the code embedded here: a LOGIN handled by
    [handleClient], or an iteration of a coordinator. *)
Inductive served : World → World → Prop :=
| served_login client msg r w w' :
    handleClient client msg w = (r, w') → served w w'
| served_coordinator glClient ph ev m r w w' :
    step glClient ph ev = Some m → m w = (r, w') → served w w'.

(** The registries are within their caps. *)
Definition withinCaps (g : GlobalState) : Prop :=
  Z.of_nat (length (Players g)) ≤ NbPlayersMax g
  ∧ Z.of_nat (length (Visus g)) ≤ NbVisusMax g
  ∧ (length (GameLogic g) ≤ 1)%nat.

(** What makes a registered Player the same Player: its client, its role
    and its channels. (The start step gives it an identifier and an
    information record.) *)
Definition seat (p : PlayerOrVisuClient)
  : ClientPtr * bool * option Chan * option Chan * option Chan :=
  (pv_client p, isPlayer p, gameStarts p, newTurn p, gameEnds p).

(** From [g] to [g'] the phase and the configuration stayed, no Player
    and no Visu left its registry or changed place in it, and the caps
    were respected if they were before. *)
Definition grown (g g' : GlobalState) : Prop :=
  GameState g' = GameState g
  ∧ NbPlayersMax g' = NbPlayersMax g
  ∧ NbVisusMax g' = NbVisusMax g
  ∧ NbTurnsMax g' = NbTurnsMax g
  ∧ Fast g' = Fast g
  ∧ (seat <$> Players g) `prefix_of` (seat <$> Players g')
  ∧ Visus g `prefix_of` Visus g'
  ∧ (withinCaps g → withinCaps g').

(** Effects that concern no client but [c]: the frames and the kick log
    lines are those of [c]. *)
Definition onlyTo (c : ClientPtr) (e : Effect) : Prop :=
  match e with
  | Sent p _ | LogKicking p _ _ => p = c
  | _ => True
  end.

(** The records of the clients other than [c] are the same. *)
Definition others (c : ClientPtr) (w w' : World) : Prop :=
  ∀ p, p ≠ c → heap w' p = heap w p.


(** Invariant of the turn loop of a game of at most one turn, in normal
    mode: the first DO_TURN is out, nothing is pending, and the handlers
    received GAME_STARTS only. *)
Definition firstTurn (c : ClientPtr) (g : GlobalState) (l : TurnLoop)
    (t : list Effect) : Prop :=
  turnNumber l = 0
  ∧ sendDoTurnToGL l = 0%nat
  ∧ timers l = 0%nat
  ∧ frameType <$> sentTo c t = ["DO_INIT"; "DO_TURN"]
  ∧ kickReasons t = []
  ∧ exitCodes t = []
  ∧ notes t = GameStartsOn <$> channels gameStarts g.

(** A lobby configured with no turn at all. *)
Definition noTurnGameWorld : World :=
  match run lobbyGameLogic WaitStart
          [RecvStart [1; 0]; RecvIncoming doInitAck; RecvIncoming doTurnAck]
          (lobbyWorld false 0) with
  | Some (_, w) => w
  | None => lobbyWorld false 0
  end.

(** A fan-out over the clients [l]: each one that has the channel [f] is
    sent, on it, the message [e] made for it. *)
Definition fan {A} (f : A → option Chan) (e : A → Chan → Effect) (l : list A)
  : list Effect :=
  omap (λ x, e x <$> f x) l.

(** The sends to the Player and Visu handlers in a trace. *)
Definition isHanded (e : Effect) : bool :=
  match e with
  | SendGameStarts _ _ | SendNewTurn _ _ | SendGameEnds _ _ => true
  | _ => false
  end.

Definition handed (t : list Effect) : list Effect :=
  filter (λ e, isHanded e = true) t.

Definition notHanded (e : Effect) : Prop := isHanded e = false.

(** The messages of the three fan-outs. *)
Definition gameStartsFor (g : GlobalState) (n : Z)
    (info : list PlayerInformation) (ack : MessageDoInitAck)
    (p : PlayerOrVisuClient) : MessageGameStarts :=
  mkMessageGameStarts "GAME_STARTS" (playerID p) info n (NbTurnsMax g)
    (MillisecondsBeforeFirstTurn g) (MillisecondsBetweenTurns g)
    (InitialGameState ack).

Definition turnFor (k : Z) (info : list PlayerInformation)
    (ack : MessageDoTurnAck) : MessageTurn :=
  mkMessageTurn "TURN" k (AckGameState ack) info.

Definition gameEndsFor (ack : MessageDoTurnAck) : MessageGameEnds :=
  mkMessageGameEnds "GAME_ENDS" (WinnerPlayerID ack) (AckGameState ack).

(** ** [Cleanup] *)

(** [Conn.Close()]: the socket takes no frame any more. *)
Definition set_connOk (b : bool) (c : Client) : Client :=
  mkClient (remoteAddr c) b (nickname c) (state c).

(** [globalGS], the global state of the process that [Cleanup] works on
    (its declaration is not in the sources): the world, and whether the
    [Listener] of the global state is still open. *)
Record Server := mkServer {
  listening : bool;
  world : World
}.

(** A goroutine of [Cleanup] runs [Kick(c, "netorcai abort")] and then
    [kickChan <- 0]. The goroutines run concurrently: each is followed
    through the points of [Kick], one [kickStep] at a time. *)
Abbreviation Pool := (list (nat * KickPoint)) (only parsing).

(** The goroutine of index [i] takes its next step; a goroutine whose value
    was received has ended. *)
Definition poolStep (reason : string) (pool : Pool) (i : nat)
  : option (M (list (nat * KickPoint))) :=
  match pool !! i with
  | Some (c, pt) =>
      match pt with
      | Reported => None
      | _ => Some (pt' ← kickStep c reason pt; mret (<[i := (c, pt')]> pool))
      end
  | None => None
  end.

(** An interleaving of the goroutines: the indices of those that step, in
    order. *)
Fixpoint poolRun (reason : string) (pool : Pool) (schedule : list nat)
    (w : World) : option (list (nat * KickPoint) * World) :=
  match schedule with
  | [] => Some (pool, w)
  | i :: rest =>
      match poolStep reason pool i with
      | None => None
      | Some m =>
          match m w with
          | (Ok pool', w') => poolRun reason pool' rest w'
          | _ => None
          end
      end
  end.

(** The clients in the order of the two loops of lines 228-239:
    [append(Players, Visus...)], then [GameLogic]. *)
Definition clientsOf (g : GlobalState) : list nat :=
  (pv_client <$> (Players g ++ Visus g)) ++ (gl_client <$> GameLogic g).

Definition allReported (pool : Pool) : bool :=
  forallb (λ x, match x.2 with Reported => true | _ => false end) pool.

(** [Cleanup], for one interleaving of its goroutines. [None]: the
    schedule is not one of this run, or stops before the loop of line 241
    has received its [nbClients] values. *)
Definition Cleanup (schedule : list nat) (s : Server) : option Server :=
  let w := (emit MutexLock (world s)).2 in
  let g := globalState w in
  let nbClients :=
    (length (Players g) + length (Visus g) + length (GameLogic g))%nat in
  if decide (0 < nbClients)%nat then
    let pool := (λ c, (c, AtCheck)) <$> clientsOf g in
    match poolRun "netorcai abort" pool schedule w with
    | Some (pool', w') =>
        if allReported pool' then
          let closed :=
            (forEach (clientsOf g) (λ c, modifyClient c (set_connOk false)) w').2 in
          Some (mkServer false (emit MutexUnlock closed).2)
        else None
    | None => None
    end
  else
    match schedule with
    | [] => Some (mkServer false (emit MutexUnlock w).2)
    | _ => None
    end.

(** How far a goroutine is. *)
Definition rank (pt : KickPoint) : nat :=
  match pt with
  | AtCheck => 0 | AtMark => 1 | AtLog => 2 | AtSend => 3
  | AtSleep => 4 | AtReport => 5 | Reported => 6
  end.

Definition sent (pt : KickPoint) : bool :=
  match pt with
  | AtSleep | AtReport | Reported => true
  | _ => false
  end.

(** The record and the frames of a client whose goroutine is at [pt],
    [c0] being its record when [Cleanup] started. *)
Definition cellAt (c0 : Client) (pt : KickPoint) : Client :=
  if decide (state c0 = CLIENT_KICKED) then c0
  else if marked pt then set_state CLIENT_KICKED c0 else c0.

Definition framesAt (c0 : Client) (reason : string) (pt : KickPoint)
  : list Message :=
  if decide (state c0 = CLIENT_KICKED) then []
  else if sent pt && connOk c0 then [MessageKick "KICK" reason] else [].

Definition onPath (c0 : Client) (pt : KickPoint) : Prop :=
  state c0 = CLIENT_KICKED → pt = AtCheck ∨ pt = AtReport ∨ pt = Reported.

(** What the goroutines emit: log lines, frames and pauses for the
    clients [cs]. *)
Definition kickEffect (cs : list nat) (e : Effect) : Prop :=
  match e with
  | Sent p _ | LogKicking p _ _ => p ∈ cs
  | Sleep _ => True
  | _ => False
  end.

(** Invariant of the goroutines of [Cleanup] started in world [w0]. *)
Definition poolInv (reason : string) (w0 : World) (pool : Pool) (w : World)
    (t : list Effect) : Prop :=
  globalState w = globalState w0
  ∧ nextChan w = nextChan w0
  ∧ trace w = trace w0 ++ t
  ∧ Forall (kickEffect pool.*1) t
  ∧ (∀ p, p ∉ pool.*1 → heap w p = heap w0 p)
  ∧ ∀ i c pt, pool !! i = Some (c, pt) →
      heap w c = cellAt (heap w0 c) pt
      ∧ sentTo c t = framesAt (heap w0 c) reason pt
      ∧ onPath (heap w0 c) pt.

(** The lobby, about to be cleaned up. *)
Definition lobbyServer : Server := mkServer true (lobbyWorld false 2).

(** Its four goroutines, interleaved. *)
Definition lobbySchedule : list nat :=
  [0; 1; 2; 3; 3; 2; 1; 0; 0; 1; 2; 3; 0; 0; 0; 1; 1; 1; 2; 2; 2; 3; 3; 3]%nat.

Definition cleanedServer : Server :=
  match Cleanup lobbySchedule lobbyServer with
  | Some s => s
  | None => lobbyServer
  end.

(** What is left for the goroutines to do. *)
Definition remaining (pool : Pool) : nat :=
  sum_list ((λ x, 6 - rank x.2)%nat <$> pool).

(** ** The effects produced with the mutex held *)

(** Whether the mutex is held after the effects [t]. *)
Fixpoint heldAfter (held : bool) (t : list Effect) : bool :=
  match t with
  | [] => held
  | MutexLock :: t' => heldAfter true t'
  | MutexUnlock :: t' => heldAfter false t'
  | _ :: t' => heldAfter held t'
  end.

(** The effects of [t] that happen while the mutex is held. *)
Fixpoint underLock (held : bool) (t : list Effect) : list Effect :=
  match t with
  | [] => []
  | MutexLock :: t' => underLock true t'
  | MutexUnlock :: t' => underLock false t'
  | e :: t' => if held then e :: underLock held t' else underLock held t'
  end.

(** Started with the mutex in state [b], the computation [m] produces
    under the mutex only effects that [P] allows, and returns with the
    mutex in state [b']. *)
Definition guarded (P : Effect → Prop) (b b' : bool) {A} (m : M A) : Prop :=
  ∀ w, ∃ t, trace (m w).2 = trace w ++ t
            ∧ Forall P (underLock b t)
            ∧ ∀ a, (m w).1 = Ok a → heldAfter b t = b'.

(** The one effect [handleClient] produces under the mutex: the LOGIN_ACK
    frame. *)
Definition heldByHandleClient (client : ClientPtr) (e : Effect) : Prop :=
  e = Sent client (MessageLoginAck "LOGIN_ACK").

Definition atStart (ph : Phase) : bool :=
  match ph with
  | WaitStart => true
  | _ => false
  end.

(** The effects the coordinator produces under the mutex: the messages
    handed to the handlers and the DO_INIT frame; for a coordinator at its
    first [select] ([premature]) also those of the kick of its Game Logic,
    pause included. *)
Definition heldByCoordinator (gl : ClientPtr) (premature : bool) (e : Effect)
  : Prop :=
  match e with
  | SendGameStarts _ _ | SendNewTurn _ _ | SendGameEnds _ _ => True
  | Sent p (MessageDoInit _ _ _) => p = gl
  | Sent p (MessageKick _ _) | LogKicking p _ _ => premature = true ∧ p = gl
  | Sleep _ => premature = true
  | _ => False
  end.

(** * Proofs *)

(** ** [Kick] *)

Ltac unfold_monad :=
  unfold time_Sleep;
  unfold mbind, M_bind, mret, M_ret, emit, getClient, modifyClient,
    getGlobalState, modifyGlobalState, make_chan, block, panic.

Lemma Kick_already_kicked client reason w :
  state (heap w client) = CLIENT_KICKED → Kick client reason w = (Ok tt, w).
Proof.
  intros Hk. unfold Kick. unfold_monad.
  destruct (decide (state (heap w client) = CLIENT_KICKED)); [done | contradiction].
Qed.

Lemma Kick_not_kicked client reason w :
  state (heap w client) ≠ CLIENT_KICKED →
  Kick client reason w = (Ok tt, kickedWorld client reason w).
Proof.
  intros Hk. unfold Kick, kickedWorld, kickTrace, sendMessage, json_Marshal.
  unfold_monad.
  destruct (decide (state (heap w client) = CLIENT_KICKED)); [contradiction |].
  simpl. rewrite fn_lookup_insert. simpl.
  destruct (connOk (heap w client)); simpl;
    rewrite <- ?app_assoc; reflexivity.
Qed.

Lemma kickedWorld_state client reason w :
  state (heap (kickedWorld client reason w) client) = CLIENT_KICKED.
Proof. unfold kickedWorld. simpl. by rewrite fn_lookup_insert. Qed.

(** The call point by point, for a client that is not KICKED: the check,
    the write of the state, the log line, the frame, the pause, the
    return. *)
Lemma kickSteps_path client reason w :
  state (heap w client) ≠ CLIENT_KICKED →
  let wk := (modifyClient client (set_state CLIENT_KICKED) w).2 in
  let wl := (emit (LogKicking client (nickname (heap w client)) reason) wk).2 in
  let ws := (sendMessage client (MessageKick "KICK" reason) wl).2 in
  kickSteps client reason 0 AtCheck w = (Ok AtCheck, w)
  ∧ kickSteps client reason 1 AtCheck w = (Ok AtMark, w)
  ∧ kickSteps client reason 2 AtCheck w = (Ok AtLog, wk)
  ∧ kickSteps client reason 3 AtCheck w = (Ok AtSend, wl)
  ∧ kickSteps client reason 4 AtCheck w = (Ok AtSleep, ws)
  ∧ kickSteps client reason 5 AtCheck w
    = (Ok AtReport, (Kick client reason w).2)
  ∧ ∀ n, kickSteps client reason (6 + n) AtCheck w
         = (Ok Reported, (Kick client reason w).2).
Proof.
  intros Hk wk wl ws.
  assert (E1 : kickStep client reason AtCheck w = (Ok AtMark, w)).
  { unfold kickStep. unfold_monad. by rewrite decide_False. }
  assert (E2 : kickStep client reason AtMark w = (Ok AtLog, wk)) by reflexivity.
  assert (E3 : kickStep client reason AtLog wk = (Ok AtSend, wl)).
  { unfold kickStep, wl, wk. unfold_monad. simpl.
    rewrite fn_lookup_insert. reflexivity. }
  assert (E4 : kickStep client reason AtSend wl = (Ok AtSleep, ws)).
  { unfold kickStep, json_Marshal, ws. unfold_monad.
    by destruct (sendMessage _ _ wl) as [[? | |] ?] eqn:E;
      unfold sendMessage in E; revert E; unfold_monad;
      destruct (connOk _); intros; simplify_eq. }
  assert (E5 : kickStep client reason AtSleep ws
               = (Ok AtReport, (Kick client reason w).2)).
  { rewrite Kick_not_kicked by done.
    unfold kickStep, ws, wl, wk, kickedWorld, kickTrace, sendMessage.
    unfold_monad. simpl. rewrite fn_lookup_insert. simpl.
    destruct (connOk (heap w client)); simpl; by rewrite <- ?app_assoc. }
  assert (E6 : ∀ n w1, kickSteps client reason n Reported w1 = (Ok Reported, w1)).
  { induction n as [| n IH]; intros w1; [done |]. simpl.
    unfold mbind, M_bind. simpl. apply IH. }
  assert (S1 : ∀ pt w1 pt' w2 n,
            kickStep client reason pt w1 = (Ok pt', w2) →
            kickSteps client reason (S n) pt w1 = kickSteps client reason n pt' w2).
  { intros pt w1 pt' w2 n E. simpl. unfold mbind, M_bind. by rewrite E. }
  split; [reflexivity |].
  split; [by rewrite (S1 _ _ _ _ _ E1) |].
  split; [by rewrite (S1 _ _ _ _ _ E1), (S1 _ _ _ _ _ E2) |].
  split; [by rewrite (S1 _ _ _ _ _ E1), (S1 _ _ _ _ _ E2), (S1 _ _ _ _ _ E3) |].
  split; [by rewrite (S1 _ _ _ _ _ E1), (S1 _ _ _ _ _ E2), (S1 _ _ _ _ _ E3),
            (S1 _ _ _ _ _ E4) |].
  split; [by rewrite (S1 _ _ _ _ _ E1), (S1 _ _ _ _ _ E2), (S1 _ _ _ _ _ E3),
            (S1 _ _ _ _ _ E4), (S1 _ _ _ _ _ E5) |].
  intros n. change (6 + n)%nat with (S (S (S (S (S (S n)))))).
  rewrite (S1 _ _ _ _ _ E1), (S1 _ _ _ _ _ E2), (S1 _ _ _ _ _ E3),
    (S1 _ _ _ _ _ E4), (S1 _ _ _ _ _ E5).
  rewrite (S1 AtReport _ Reported (Kick client reason w).2) by reflexivity.
  apply E6.
Qed.

(** C9. [Kick] is idempotent, and it writes the state first. On a client
    already in state KICKED it returns at once: the world (client states,
    registry, trace) is unchanged, so nothing is emitted. On any other
    client the call, followed point by point ([kickSteps]; its five steps
    are the call): as long as the state is not written the world is the
    one the call started in, so nothing was emitted; from the write on
    the client is KICKED at every point. In particular the step that
    writes the KICK frame starts in a world where the client is KICKED
    and no frame was written. Hence a second [Kick], whatever its reason,
    changes nothing. *)
Theorem Kick_idempotent (client : ClientPtr) (reason reason' : string) (w : World) :
  (state (heap w client) = CLIENT_KICKED →
     Kick client reason w = (Ok tt, w))
  ∧ (state (heap w client) ≠ CLIENT_KICKED →
     kickSteps client reason 5 AtCheck w
     = (Ok AtReport, (Kick client reason w).2)
     ∧ (∀ n pt w', kickSteps client reason n AtCheck w = (Ok pt, w') →
          (w' = w ∧ (pt = AtCheck ∨ pt = AtMark))
          ∨ (state (heap w' client) = CLIENT_KICKED ∧ marked pt = true))
     ∧ (∀ n w1, kickSteps client reason n AtCheck w = (Ok AtSend, w1) →
          state (heap w1 client) = CLIENT_KICKED
          ∧ sentTo client (drop (length (trace w)) (trace w1)) = []
          ∧ ∃ w2, kickStep client reason AtSend w1 = (Ok AtSleep, w2)
                  ∧ trace w2
                    = trace w1
                      ++ (if connOk (heap w client)
                          then [Sent client (MessageKick "KICK" reason)]
                          else []))
     ∧ ∃ wk, modifyClient client (set_state CLIENT_KICKED) w = (Ok tt, wk)
             ∧ state (heap wk client) = CLIENT_KICKED
             ∧ trace wk = trace w
             ∧ Kick client reason w =
                 (emit (LogKicking client (nickname (heap w client)) reason) ;;
                  _ ← sendMessage client (MessageKick "KICK" reason);
                  time_Sleep (500 * Millisecond)) wk)
  ∧ Kick client reason' (Kick client reason w).2
    = (Ok tt, (Kick client reason w).2).
Proof.
  split; [apply Kick_already_kicked |].
  split.
  - intros Hk.
    destruct (kickSteps_path client reason w Hk)
      as (P0 & P1 & P2 & P3 & P4 & P5 & P6).
    assert (Hkicked : state (heap (Kick client reason w).2 client) = CLIENT_KICKED)
      by (rewrite Kick_not_kicked by done; apply kickedWorld_state).
    assert (Hwk : state (heap (modifyClient client (set_state CLIENT_KICKED) w).2
                           client) = CLIENT_KICKED)
      by (simpl; by rewrite fn_lookup_insert).
    split; [exact P5 |]. split; [| split].
    + intros n pt w' Hrun.
      do 6 (destruct n as [| n];
            [rewrite ?P0, ?P1, ?P2, ?P3, ?P4, ?P5 in Hrun; simplify_eq;
             first [left; split; [done | auto] | right; split; [| done]];
             first [exact Hwk | exact Hkicked
                   | unfold sendMessage; unfold_monad; simpl;
                     rewrite ?fn_lookup_insert; simpl;
                     by destruct (connOk (heap w client))] |]).
      change (S (S (S (S (S (S n)))))) with (6 + n)%nat in Hrun.
      rewrite P6 in Hrun. simplify_eq. right. split; [exact Hkicked | done].
    + intros n w1 Hrun.
      assert (n = 3%nat) as ->.
      { do 6 (destruct n as [| n];
              [rewrite ?P0, ?P1, ?P2, ?P3, ?P4, ?P5 in Hrun; by simplify_eq |]).
        change (S (S (S (S (S (S n)))))) with (6 + n)%nat in Hrun.
        rewrite P6 in Hrun. by simplify_eq. }
      rewrite P3 in Hrun. simplify_eq. simpl.
      rewrite fn_lookup_insert, drop_app_length. simpl.
      split; [done |]. split; [done |].
      unfold kickStep, json_Marshal, sendMessage. unfold_monad. simpl.
      rewrite fn_lookup_insert. simpl.
      destruct (connOk (heap w client)); eexists; split; try reflexivity.
      simpl. by rewrite app_nil_r.
    + eexists. split; [reflexivity |].
      split; [exact Hwk |].
      split; [reflexivity |].
      unfold Kick, json_Marshal. unfold_monad.
      destruct (decide (state (heap w client) = CLIENT_KICKED)); [contradiction |].
      reflexivity.
  - destruct (decide (state (heap w client) = CLIENT_KICKED)) as [Hk | Hk].
    + rewrite (Kick_already_kicked _ reason _ Hk). simpl.
      by apply Kick_already_kicked.
    + rewrite (Kick_not_kicked _ reason _ Hk). simpl.
      apply Kick_already_kicked, kickedWorld_state.
Qed.

(** ** [handleClient] *)

Lemma handleClient_valid client msg n r w :
  err msg = None →
  readLoginMessage (content msg) = (mkMessageLogin n r, None) →
  handleClient client msg w =
    (if decide (r = "player") then loginPlayer client
     else if decide (r = "visualization") then loginVisualization client
     else if decide (r = "game logic") then loginGameLogic client
     else mret Return) (loginWorld client n w).
Proof.
  intros He Hp. unfold handleClient. rewrite He, Hp. reflexivity.
Qed.

Lemma loginWorld_state client n w :
  state (heap (loginWorld client n w) client) = state (heap w client).
Proof. unfold loginWorld. simpl. by rewrite fn_lookup_insert. Qed.

Lemma loginWorld_connOk client n w :
  connOk (heap (loginWorld client n w) client) = connOk (heap w client).
Proof. unfold loginWorld. simpl. by rewrite fn_lookup_insert. Qed.

Lemma loginWorld_nickname client n w :
  nickname (heap (loginWorld client n w) client) = n.
Proof. unfold loginWorld. simpl. by rewrite fn_lookup_insert. Qed.

Lemma unlock_then_Kick client reason w :
  state (heap w client) ≠ CLIENT_KICKED →
  ∃ r, (emit MutexUnlock ;; Kick client reason ;; mret Return) w = (Ok Return, r)
       ∧ rejected client reason w r.
Proof.
  intros Hk. unfold_monad. simpl.
  rewrite Kick_not_kicked by done.
  eexists. split; [reflexivity |].
  unfold rejected, kickedWorld. simpl.
  rewrite fn_lookup_insert. rewrite <- app_assoc. done.
Qed.

Lemma sendLoginACK_ok client w :
  connOk (heap w client) = true →
  sendLoginACK client w =
    (Ok None, mkWorld (globalState w) (heap w) (nextChan w)
                (trace w ++ [Sent client (MessageLoginAck "LOGIN_ACK")])).
Proof.
  intros Hc. unfold sendLoginACK, json_Marshal, sendMessage. unfold_monad.
  by rewrite Hc.
Qed.

Lemma sendLoginACK_broken client w :
  connOk (heap w client) = false →
  sendLoginACK client w = (Ok (Some "write failed"), w).
Proof.
  intros Hc. unfold sendLoginACK, json_Marshal, sendMessage. unfold_monad.
  by rewrite Hc.
Qed.

Ltac reject_with Hk :=
  match goal with
  | |- ∃ r, _ = _ ∧ rejected ?c ?reason ?w r =>
      exact (unlock_then_Kick c reason w Hk)
  end.

Lemma loginPlayer_spec client w :
  state (heap w client) ≠ CLIENT_KICKED →
  (GameState (globalState w) ≠ GAME_NOT_RUNNING →
     ∃ r, loginPlayer client w = (Ok Return, r)
          ∧ rejected client "LOGIN denied: Game has been started" w r)
  ∧ (GameState (globalState w) = GAME_NOT_RUNNING →
     Z.of_nat (length (Players (globalState w))) >= NbPlayersMax (globalState w) →
     ∃ r, loginPlayer client w = (Ok Return, r)
          ∧ rejected client "LOGIN denied: Maximum number of players reached" w r)
  ∧ (GameState (globalState w) = GAME_NOT_RUNNING →
     Z.of_nat (length (Players (globalState w))) < NbPlayersMax (globalState w) →
     connOk (heap w client) = false →
     ∃ r, loginPlayer client w = (Ok Return, r)
          ∧ rejected client "LOGIN denied: Could not send LOGIN_ACK" w r)
  ∧ (GameState (globalState w) = GAME_NOT_RUNNING →
     Z.of_nat (length (Players (globalState w))) < NbPlayersMax (globalState w) →
     connOk (heap w client) = true →
     ∃ pv r, loginPlayer client w = (Ok (HandlePlayerOrVisu pv), r)
          ∧ pv_client pv = client ∧ playerID pv = -1 ∧ isPlayer pv = true
          ∧ globalState r
            = set_Players (Players (globalState w) ++ [pv]) (globalState w)
          ∧ heap r = heap w
          ∧ trace r = trace w ++ [Sent client (MessageLoginAck "LOGIN_ACK");
                                  MutexUnlock]).
Proof.
  intros Hk. unfold loginPlayer.
  repeat split.
  - intros Hph. unfold mbind at 1, M_bind at 1, getGlobalState.
    destruct (decide _); [| contradiction]. reject_with Hk.
  - intros Hph Hfull. unfold mbind at 1, M_bind at 1, getGlobalState.
    destruct (decide (GameState _ ≠ _)); [contradiction |].
    destruct (decide _); [| contradiction]. reject_with Hk.
  - intros Hph Hroom Hc. unfold mbind at 1, M_bind at 1, getGlobalState.
    destruct (decide (GameState _ ≠ _)); [contradiction |].
    destruct (decide _); [lia |].
    unfold mbind at 1, M_bind at 1. rewrite sendLoginACK_broken by done.
    reject_with Hk.
  - intros Hph Hroom Hc. unfold mbind at 1, M_bind at 1, getGlobalState.
    destruct (decide (GameState _ ≠ _)); [contradiction |].
    destruct (decide _); [lia |].
    unfold mbind at 1, M_bind at 1. rewrite sendLoginACK_ok by done.
    unfold_monad. simpl.
    eexists _, _. split; [reflexivity |].
    simpl. repeat split. by rewrite <- app_assoc.
Qed.

Lemma loginVisualization_spec client w :
  state (heap w client) ≠ CLIENT_KICKED →
  (Z.of_nat (length (Visus (globalState w))) >= NbVisusMax (globalState w) →
     ∃ r, loginVisualization client w = (Ok Return, r)
          ∧ rejected client "LOGIN denied: Maximum number of visus reached" w r)
  ∧ (Z.of_nat (length (Visus (globalState w))) < NbVisusMax (globalState w) →
     connOk (heap w client) = false →
     ∃ r, loginVisualization client w = (Ok Return, r)
          ∧ rejected client "LOGIN denied: Could not send LOGIN_ACK" w r)
  ∧ (Z.of_nat (length (Visus (globalState w))) < NbVisusMax (globalState w) →
     connOk (heap w client) = true →
     ∃ pv r, loginVisualization client w = (Ok (HandlePlayerOrVisu pv), r)
          ∧ pv_client pv = client ∧ playerID pv = -1 ∧ isPlayer pv = false
          ∧ globalState r
            = set_Visus (Visus (globalState w) ++ [pv]) (globalState w)
          ∧ heap r = heap w
          ∧ trace r = trace w ++ [Sent client (MessageLoginAck "LOGIN_ACK");
                                  MutexUnlock]).
Proof.
  intros Hk. unfold loginVisualization.
  repeat split.
  - intros Hfull. unfold mbind at 1, M_bind at 1, getGlobalState.
    destruct (decide _); [| contradiction]. reject_with Hk.
  - intros Hroom Hc. unfold mbind at 1, M_bind at 1, getGlobalState.
    destruct (decide _); [lia |].
    unfold mbind at 1, M_bind at 1. rewrite sendLoginACK_broken by done.
    reject_with Hk.
  - intros Hroom Hc. unfold mbind at 1, M_bind at 1, getGlobalState.
    destruct (decide _); [lia |].
    unfold mbind at 1, M_bind at 1. rewrite sendLoginACK_ok by done.
    unfold_monad. simpl.
    eexists _, _. split; [reflexivity |].
    simpl. repeat split. by rewrite <- app_assoc.
Qed.

Lemma loginGameLogic_spec client w :
  state (heap w client) ≠ CLIENT_KICKED →
  (GameState (globalState w) ≠ GAME_NOT_RUNNING →
     ∃ r, loginGameLogic client w = (Ok Return, r)
          ∧ rejected client "LOGIN denied: Game has been started" w r)
  ∧ (GameState (globalState w) = GAME_NOT_RUNNING →
     Z.of_nat (length (GameLogic (globalState w))) >= 1 →
     ∃ r, loginGameLogic client w = (Ok Return, r)
          ∧ rejected client "LOGIN denied: A game logic is already logged in" w r)
  ∧ (GameState (globalState w) = GAME_NOT_RUNNING →
     Z.of_nat (length (GameLogic (globalState w))) < 1 →
     connOk (heap w client) = false →
     ∃ r, loginGameLogic client w = (Ok Return, r)
          ∧ rejected client "LOGIN denied: Could not send LOGIN_ACK" w r)
  ∧ (GameState (globalState w) = GAME_NOT_RUNNING →
     Z.of_nat (length (GameLogic (globalState w))) < 1 →
     connOk (heap w client) = true →
     ∃ c1 c2 r,
       loginGameLogic client w
       = (Ok (HandleGameLogic (mkGameLogicClient client (Some c1) (Some c2) None)), r)
       ∧ globalState r
         = set_GameLogic (GameLogic (globalState w)
                          ++ [mkGameLogicClient client (Some c1) (Some c2) None])
             (globalState w)
       ∧ heap r = heap w
       ∧ trace r = trace w ++ [Sent client (MessageLoginAck "LOGIN_ACK");
                               MutexUnlock]).
Proof.
  intros Hk. unfold loginGameLogic.
  repeat split.
  - intros Hph. unfold mbind at 1, M_bind at 1, getGlobalState.
    destruct (decide _); [| contradiction]. reject_with Hk.
  - intros Hph Hfull. unfold mbind at 1, M_bind at 1, getGlobalState.
    destruct (decide (GameState _ ≠ _)); [contradiction |].
    destruct (decide _); [| contradiction]. reject_with Hk.
  - intros Hph Hroom Hc. unfold mbind at 1, M_bind at 1, getGlobalState.
    destruct (decide (GameState _ ≠ _)); [contradiction |].
    destruct (decide _); [lia |].
    unfold mbind at 1, M_bind at 1. rewrite sendLoginACK_broken by done.
    reject_with Hk.
  - intros Hph Hroom Hc. unfold mbind at 1, M_bind at 1, getGlobalState.
    destruct (decide (GameState _ ≠ _)); [contradiction |].
    destruct (decide _); [lia |].
    unfold mbind at 1, M_bind at 1. rewrite sendLoginACK_ok by done.
    unfold_monad. simpl.
    eexists _, _, _. split; [reflexivity |].
    simpl. repeat split. by rewrite <- app_assoc.
Qed.

Lemma Kick_globalState c reason w :
  ∃ r, Kick c reason w = (Ok tt, r) ∧ globalState r = globalState w.
Proof.
  destruct (decide (state (heap w c) = CLIENT_KICKED)) as [Hk | Hk].
  - rewrite Kick_already_kicked by done. eauto.
  - rewrite Kick_not_kicked by done. eauto.
Qed.

Lemma reject_globalState c reason w :
  ∃ r, (emit MutexUnlock ;; Kick c reason ;; mret Return) w = (Ok Return, r)
       ∧ globalState r = globalState w.
Proof.
  unfold_monad. simpl.
  edestruct Kick_globalState as (r & -> & Hr). eauto.
Qed.

Lemma sendLoginACK_globalState c w :
  ∃ e r, sendLoginACK c w = (Ok e, r) ∧ globalState r = globalState w.
Proof.
  destruct (connOk (heap w c)) eqn:Hc.
  - rewrite sendLoginACK_ok by done. eauto.
  - rewrite sendLoginACK_broken by done. eauto.
Qed.

Ltac reject_frame :=
  match goal with
  | |- ∃ h r, (emit MutexUnlock ;; Kick ?c ?reason ;; mret Return) ?w = _ ∧ _ =>
      let r := fresh "r" in let E := fresh "E" in let Hr := fresh "Hr" in
      destruct (reject_globalState c reason w) as (r & E & Hr);
      exists Return, r; split; [exact E | simpl; rewrite Hr; try done]
  end.

Lemma loginPlayer_outcome client w :
  ∃ h r, loginPlayer client w = (Ok h, r) ∧ outcome client w h r.
Proof.
  unfold loginPlayer. unfold mbind at 1, M_bind at 1, getGlobalState.
  destruct (decide _); [reject_frame |].
  destruct (decide _); [reject_frame |].
  unfold mbind at 1, M_bind at 1.
  destruct (sendLoginACK_globalState client w) as (e & r & -> & Hr).
  destruct e; [reject_frame; by rewrite Hr |].
  unfold_monad. simpl. eexists _, _. split; [reflexivity |].
  simpl. by rewrite Hr.
Qed.

Lemma loginVisualization_outcome client w :
  ∃ h r, loginVisualization client w = (Ok h, r) ∧ outcome client w h r.
Proof.
  unfold loginVisualization. unfold mbind at 1, M_bind at 1, getGlobalState.
  destruct (decide _); [reject_frame |].
  unfold mbind at 1, M_bind at 1.
  destruct (sendLoginACK_globalState client w) as (e & r & -> & Hr).
  destruct e; [reject_frame; by rewrite Hr |].
  unfold_monad. simpl. eexists _, _. split; [reflexivity |].
  simpl. by rewrite Hr.
Qed.

Lemma loginGameLogic_outcome client w :
  ∃ h r, loginGameLogic client w = (Ok h, r) ∧ outcome client w h r.
Proof.
  unfold loginGameLogic. unfold mbind at 1, M_bind at 1, getGlobalState.
  destruct (decide _); [reject_frame |].
  destruct (decide _) as [| Hroom]; [reject_frame |].
  unfold mbind at 1, M_bind at 1.
  destruct (sendLoginACK_globalState client w) as (e & r & -> & Hr).
  destruct e; [reject_frame; by rewrite Hr |].
  unfold_monad. simpl. rewrite Hr. eexists _, _. split; [reflexivity |].
  simpl. destruct (GameLogic (globalState w)); simpl in *; [eauto 10 | lia].
Qed.

Lemma handleClient_outcome client msg w :
  ∃ h r, handleClient client msg w = (Ok h, r) ∧ outcome client w h r.
Proof.
  unfold handleClient.
  destruct (err msg) as [e |].
  { unfold mbind, M_bind.
    destruct (Kick_globalState client ("Invalid first message: " +:+ e) w)
      as (r & -> & Hr).
    exists Return, r. split; [done | simpl; by rewrite Hr]. }
  destruct (readLoginMessage (content msg)) as [lm [e |]].
  { unfold mbind, M_bind.
    destruct (Kick_globalState client ("Invalid first message: " +:+ e) w)
      as (r & -> & Hr).
    exists Return, r. split; [done | simpl; by rewrite Hr]. }
  unfold mbind at 1, M_bind at 1, modifyClient.
  unfold mbind at 1, M_bind at 1, emit.
  set (v := mkWorld _ _ _ _).
  assert (Hv : ∀ h r, outcome client v h r → outcome client w h r)
    by (intros [] r; done).
  destruct (decide _).
  { destruct (loginPlayer_outcome client v) as (h & r & -> & Hr). eauto. }
  destruct (decide _).
  { destruct (loginVisualization_outcome client v) as (h & r & -> & Hr). eauto. }
  destruct (decide _).
  { destruct (loginGameLogic_outcome client v) as (h & r & -> & Hr). eauto. }
  exists Return, v. split; done.
Qed.

(** ** What a computation does to the global state *)

Section respects.
Context (R : relation GlobalState) `{!Reflexive R, !Transitive R}.

(** [m] moves the global state along [R], however it ends. *)
Definition respects {A} (m : M A) : Prop :=
  ∀ w, R (globalState w) (globalState (m w).2).

Lemma respects_ret {A} (a : A) : respects (mret a).
Proof. intros w. simpl. reflexivity. Qed.

Lemma respects_bind {A B} (m : M A) (f : A → M B) :
  respects m → (∀ a, respects (f a)) → respects (m ≫= f).
Proof.
  intros Hm Hf w. unfold mbind, M_bind.
  specialize (Hm w). destruct (m w) as [[a | |] w1]; simpl in *; try done.
  etrans; [exact Hm | apply Hf].
Qed.

Lemma respects_emit e : respects (emit e).
Proof. intros w. simpl. reflexivity. Qed.

Lemma respects_block {A} : respects (@block A).
Proof. intros w. simpl. reflexivity. Qed.

Lemma respects_panic {A} : respects (@panic A).
Proof. intros w. simpl. reflexivity. Qed.

Lemma respects_getGlobalState : respects getGlobalState.
Proof. intros w. simpl. reflexivity. Qed.

Lemma respects_getHeap : respects (λ w, (Ok (heap w), w)).
Proof. intros w. simpl. reflexivity. Qed.

Lemma respects_getClient p : respects (getClient p).
Proof. intros w. simpl. reflexivity. Qed.

Lemma respects_modifyClient p f : respects (modifyClient p f).
Proof. intros w. simpl. reflexivity. Qed.

Lemma respects_sendMessage c frame : respects (sendMessage c frame).
Proof.
  unfold sendMessage. apply respects_bind; [apply respects_getClient |].
  intros a. destruct (connOk a).
  - apply respects_bind; [apply respects_emit | intros; apply respects_ret].
  - apply respects_ret.
Qed.

Lemma respects_Kick c reason : respects (Kick c reason).
Proof.
  intros w. destruct (Kick_globalState c reason w) as (r & -> & Hr).
  simpl. rewrite Hr. reflexivity.
Qed.

Lemma respects_forEach {A} (l : list A) body :
  (∀ x, respects (body x)) → respects (forEach l body).
Proof.
  intros Hb. induction l as [| x l IH]; simpl.
  - apply respects_ret.
  - apply respects_bind; [apply Hb | intros _; apply IH].
Qed.

Lemma respects_chanSend ch e : respects (chanSend ch e).
Proof. destruct ch; [apply respects_emit | apply respects_block]. Qed.

Lemma respects_modify f :
  (∀ g, R g (f g)) → respects (modifyGlobalState f).
Proof. intros Hf w. simpl. apply Hf. Qed.
End respects.

Ltac respects_step R :=
  first
    [ apply (respects_ret R)
    | apply (respects_emit R)
    | apply (respects_block R)
    | apply (respects_panic R)
    | apply (respects_getGlobalState R)
    | apply (respects_getHeap R)
    | apply (respects_getClient R)
    | apply (respects_modifyClient R)
    | apply (respects_sendMessage R)
    | apply (respects_Kick R)
    | apply (respects_chanSend R)
    | apply (respects_forEach R); intros ?
    | apply (respects_bind R); [| intros ?] ].

Ltac respects_tac R :=
  repeat first
    [ respects_step R
    | match goal with
      | |- respects _ (match ?x with _ => _ end) => destruct x
      | |- respects _ (if ?x then _ else _) => destruct x
      | |- respects _ (let '(_, _) := ?x in _) => destruct x
      end ].

Ltac unfold_coordinator :=
  unfold startGame, firstMessage, abortGame, gotDoInitAck, gotDoTurnAck,
    fanOutGameStarts, fanOutTurn, fanOutGameEnds, checkPlayerCount,
    postSendDoTurn, sendDoTurn, sendDoInit, json_Marshal, time_Sleep.

#[global] Instance coordinated_refl : Reflexive coordinated.
Proof. intros g. unfold coordinated. auto 10. Qed.

#[global] Instance coordinated_trans : Transitive coordinated.
Proof.
  intros g1 g2 g3 (H1 & H2 & H3 & H4 & H5 & H6 & H7)
    (K1 & K2 & K3 & K4 & K5 & K6 & K7).
  unfold coordinated. repeat split; try congruence.
  destruct K2 as [-> | ->]; auto.
Qed.

Lemma step_coordinated glClient ph ev m :
  step glClient ph ev = Some m → respects coordinated m.
Proof.
  intros Hs. destruct ph, ev; simpl in Hs; repeat case_match; simplify_eq.
  all: unfold_coordinator; respects_tac coordinated.
  all: apply (respects_modify coordinated); intros g0;
    unfold coordinated; simpl; auto 10.
Qed.

(** Once the game is started the coordinator only reads the global state. *)
Lemma step_reads glClient ph ev m :
  ph ≠ WaitStart → step glClient ph ev = Some m → respects eq m.
Proof.
  intros Hph Hs. destruct ph, ev; simpl in Hs; repeat case_match; simplify_eq.
  all: unfold_coordinator; respects_tac (@eq GlobalState).
Qed.

Lemma run_coordinated glClient evs : ∀ ph w r w',
  run glClient ph evs w = Some (r, w') →
  coordinated (globalState w) (globalState w').
Proof.
  induction evs as [| ev evs IH]; intros ph w r w' Hrun; simpl in Hrun.
  - simplify_eq. reflexivity.
  - destruct (step glClient ph ev) as [m |] eqn:Hs; [| done].
    pose proof (step_coordinated _ _ _ _ Hs w) as Hm.
    destruct (m w) as [[ph' | |] w1]; simpl in Hm.
    + etrans; [exact Hm | eauto].
    + by simplify_eq.
    + by simplify_eq.
Qed.

Lemma rejected_loginDenied client n reason w r :
  rejected client reason (loginWorld client n w) r →
  loginDenied client n reason w r.
Proof.
  intros (Hg & Hs & Ht). unfold loginDenied.
  rewrite loginWorld_nickname, loginWorld_connOk in Ht.
  split; [by rewrite Hg |]. split; [done |].
  rewrite Ht. unfold loginWorld. simpl. by rewrite <- app_assoc.
Qed.

(** C5. A LOGIN with role "player", from a client not kicked before. It is
    kicked with "LOGIN denied: Game has been started" when the phase is not
    NOT_RUNNING; with "LOGIN denied: Maximum number of players reached" when
    the phase is NOT_RUNNING and the registry is full; otherwise LOGIN_ACK is
    written between the lock and the unlock and the client is appended to
    the players; when that write fails the client is kicked with "LOGIN
    denied: Could not send LOGIN_ACK" and the registry is unchanged. *)
Theorem player_login (client : ClientPtr) (msg : ClientMessage) (n : string)
    (w : World) :
  err msg = None →
  readLoginMessage (content msg) = (mkMessageLogin n "player", None) →
  state (heap w client) ≠ CLIENT_KICKED →
  (GameState (globalState w) ≠ GAME_NOT_RUNNING →
     ∃ r, handleClient client msg w = (Ok Return, r)
          ∧ loginDenied client n "LOGIN denied: Game has been started" w r)
  ∧ (GameState (globalState w) = GAME_NOT_RUNNING →
     Z.of_nat (length (Players (globalState w))) >= NbPlayersMax (globalState w) →
     ∃ r, handleClient client msg w = (Ok Return, r)
          ∧ loginDenied client n
              "LOGIN denied: Maximum number of players reached" w r)
  ∧ (GameState (globalState w) = GAME_NOT_RUNNING →
     Z.of_nat (length (Players (globalState w))) < NbPlayersMax (globalState w) →
     connOk (heap w client) = true →
     ∃ pv r, handleClient client msg w = (Ok (HandlePlayerOrVisu pv), r)
          ∧ pv_client pv = client ∧ playerID pv = -1 ∧ isPlayer pv = true
          ∧ globalState r
            = set_Players (Players (globalState w) ++ [pv]) (globalState w)
          ∧ trace r = trace w ++ [MutexLock;
                                  Sent client (MessageLoginAck "LOGIN_ACK");
                                  MutexUnlock])
  ∧ (GameState (globalState w) = GAME_NOT_RUNNING →
     Z.of_nat (length (Players (globalState w))) < NbPlayersMax (globalState w) →
     connOk (heap w client) = false →
     ∃ r, handleClient client msg w = (Ok Return, r)
          ∧ loginDenied client n "LOGIN denied: Could not send LOGIN_ACK" w r).
Proof.
  intros He Hp Hk.
  rewrite (handleClient_valid _ _ _ _ _ He Hp).
  rewrite decide_True by done.
  assert (Hk' : state (heap (loginWorld client n w) client) ≠ CLIENT_KICKED)
    by by rewrite loginWorld_state.
  destruct (loginPlayer_spec client (loginWorld client n w) Hk')
    as (H1 & H2 & H3 & H4).
  repeat split.
  - intros Hph. destruct (H1 Hph) as (r & Hr & Hrej).
    exists r. split; [done | by apply rejected_loginDenied].
  - intros Hph Hfull. destruct (H2 Hph Hfull) as (r & Hr & Hrej).
    exists r. split; [done | by apply rejected_loginDenied].
  - intros Hph Hroom Hc. rewrite <- (loginWorld_connOk client n w) in Hc.
    destruct (H4 Hph Hroom Hc) as (pv & r & Hr & ? & ? & ? & Hg & _ & Ht).
    exists pv, r. repeat split; try done.
    rewrite Ht. unfold loginWorld. simpl. by rewrite <- app_assoc.
  - intros Hph Hroom Hc. rewrite <- (loginWorld_connOk client n w) in Hc.
    destruct (H3 Hph Hroom Hc) as (r & Hr & Hrej).
    exists r. split; [done | by apply rejected_loginDenied].
Qed.

Lemma player_login_witness :
  ∃ pv r, handleClient 5 (loginOf "p1" "player") (sampleWorld GAME_NOT_RUNNING false 3)
          = (Ok (HandlePlayerOrVisu pv), r)
    ∧ Players (globalState r) = [pv]
    ∧ trace r = [MutexLock; Sent 5 (MessageLoginAck "LOGIN_ACK"); MutexUnlock].
Proof.
  destruct (player_login 5 (loginOf "p1" "player") "p1"
              (sampleWorld GAME_NOT_RUNNING false 3))
    as (_ & _ & H & _); [reflexivity | reflexivity | discriminate |].
  destruct H as (pv & r & Hr & _ & _ & _ & Hg & Ht);
    [reflexivity | reflexivity | reflexivity |].
  exists pv, r. split; [exact Hr |]. split; [by rewrite Hg | exact Ht].
Defined.

(** ** The Game Logic registry *)

Lemma sys_step_GameLogic w w' :
  sys_step w w' →
  (length (GameLogic (globalState w)) ≤ 1)%nat →
  (length (GameLogic (globalState w')) ≤ 1)%nat.
Proof.
  intros Hstep Hle. destruct Hstep as [client msg r w w' H | gl ph ev m r w w' Hs H | w w' H].
  - destruct (handleClient_outcome client msg w) as (h & r' & Hr & Hg).
    rewrite Hr in H. simplify_eq.
    destruct h as [| pv | gl]; simpl in Hg;
      [by rewrite Hg | by rewrite Hg | destruct Hg as (_ & -> & _); simpl; lia].
  - pose proof (step_coordinated _ _ _ _ Hs w) as Hm. rewrite H in Hm.
    simpl in Hm. destruct Hm as (_ & [Hg | Hg] & _); rewrite Hg; [done | simpl; lia].
  - by rewrite H.
Qed.

Lemma reachable_GameLogic w :
  reachable w → (length (GameLogic (globalState w)) ≤ 1)%nat.
Proof.
  induction 1 as [w (_ & -> & _) | w w' _ IH Hstep].
  - simpl. lia.
  - by eapply sys_step_GameLogic.
Qed.

(** C6 (as amended). In every reachable state at most one Game Logic
    client is registered. A LOGIN with role "game logic" that arrives while
    one is registered is kicked and not appended; its reason is "LOGIN
    denied: A game logic is already logged in" while the phase is
    NOT_RUNNING and "LOGIN denied: Game has been started" in any other
    phase, because the phase is tested first. *)
Theorem gameLogic_at_most_one (w : World) :
  reachable w →
  (length (GameLogic (globalState w)) ≤ 1)%nat
  ∧ ∀ (client : ClientPtr) (msg : ClientMessage) (n : string),
      err msg = None →
      readLoginMessage (content msg) = (mkMessageLogin n "game logic", None) →
      state (heap w client) ≠ CLIENT_KICKED →
      GameLogic (globalState w) ≠ [] →
      ∃ r, handleClient client msg w = (Ok Return, r)
           ∧ loginDenied client n
               (if decide (GameState (globalState w) = GAME_NOT_RUNNING)
                then "LOGIN denied: A game logic is already logged in"
                else "LOGIN denied: Game has been started") w r.
Proof.
  intros Hreach. split; [by apply reachable_GameLogic |].
  intros client msg n He Hp Hk Hreg.
  rewrite (handleClient_valid _ _ _ _ _ He Hp).
  rewrite decide_False by done. rewrite decide_False by done.
  rewrite decide_True by done.
  assert (Hk' : state (heap (loginWorld client n w) client) ≠ CLIENT_KICKED)
    by by rewrite loginWorld_state.
  destruct (loginGameLogic_spec client (loginWorld client n w) Hk')
    as (H1 & H2 & _).
  destruct (decide (GameState (globalState w) = GAME_NOT_RUNNING)) as [Hph | Hph].
  - destruct (H2 Hph) as (r & Hr & Hrej).
    { simpl. destruct (GameLogic (globalState w)); [done | simpl; lia]. }
    exists r. split; [done | by apply rejected_loginDenied].
  - destruct (H1 Hph) as (r & Hr & Hrej).
    exists r. split; [done | by apply rejected_loginDenied].
Qed.

Lemma gameLogicWorld_reachable fast nbTurnsMax :
  reachable (gameLogicWorld fast nbTurnsMax).
Proof.
  eapply reachable_step.
  - apply (reachable_initial (sampleWorld GAME_NOT_RUNNING fast nbTurnsMax)).
    by repeat split.
  - eapply (sys_login 7 (loginOf "gl" "game logic") _
              (sampleWorld GAME_NOT_RUNNING fast nbTurnsMax)).
    apply surjective_pairing.
Qed.

Lemma startedWorld_reachable : reachable startedWorld.
Proof.
  eapply reachable_step; [apply (gameLogicWorld_reachable false 3) |].
  by apply sys_other.
Qed.

Lemma gameLogic_at_most_one_witness :
  (length (GameLogic (globalState (gameLogicWorld false 3))) ≤ 1)%nat
  ∧ ∃ r, handleClient 8 (loginOf "gl2" "game logic") (gameLogicWorld false 3)
         = (Ok Return, r)
         ∧ kickReasons (trace r)
           = ["LOGIN denied: A game logic is already logged in"].
Proof.
  destruct (gameLogic_at_most_one (gameLogicWorld false 3)
              (gameLogicWorld_reachable false 3)) as (Hle & H).
  split; [exact Hle |].
  destruct (H 8%nat (loginOf "gl2" "game logic") "gl2")
    as (r & Hr & _ & _ & Ht); [reflexivity | reflexivity | discriminate | discriminate |].
  exists r. split; [exact Hr |]. rewrite Ht. reflexivity.
Defined.

(** C6, the claim as stated fails: the game is started, one Game Logic is
    registered, and a second Game Logic LOGIN is kicked with a reason that
    does not contain "A game logic is already logged in". *)
Lemma gameLogic_second_login_counterexample :
  reachable startedWorld
  ∧ length (GameLogic (globalState startedWorld)) = 1%nat
  ∧ (handleClient 8 (loginOf "gl2" "game logic") startedWorld).1 = Ok Return
  ∧ kickReasons (trace (handleClient 8 (loginOf "gl2" "game logic") startedWorld).2)
    = ["LOGIN denied: Game has been started"]
  ∧ contains "A game logic is already logged in"
      "LOGIN denied: Game has been started" = false.
Proof. split; [apply startedWorld_reachable | vm_compute; done]. Qed.

(** ** Visualizations *)

(** C7 (as amended). A LOGIN with role "visualization", from a client not
    kicked before, is decided by the cap and the socket alone, in every
    phase, FINISHED included: with [len(visus) >= nbVisusMax] it is kicked
    with "LOGIN denied: Maximum number of visus reached"; below the cap
    LOGIN_ACK is written under the lock and the client is appended to the
    visus, unless the write fails, in which case it is kicked with "LOGIN
    denied: Could not send LOGIN_ACK" and not appended. *)
Theorem visualization_login (client : ClientPtr) (msg : ClientMessage)
    (n : string) (w : World) :
  err msg = None →
  readLoginMessage (content msg) = (mkMessageLogin n "visualization", None) →
  state (heap w client) ≠ CLIENT_KICKED →
  (Z.of_nat (length (Visus (globalState w))) >= NbVisusMax (globalState w) →
     ∃ r, handleClient client msg w = (Ok Return, r)
          ∧ loginDenied client n
              "LOGIN denied: Maximum number of visus reached" w r)
  ∧ (Z.of_nat (length (Visus (globalState w))) < NbVisusMax (globalState w) →
     connOk (heap w client) = true →
     ∃ pv r, handleClient client msg w = (Ok (HandlePlayerOrVisu pv), r)
          ∧ pv_client pv = client ∧ playerID pv = -1 ∧ isPlayer pv = false
          ∧ globalState r
            = set_Visus (Visus (globalState w) ++ [pv]) (globalState w)
          ∧ trace r = trace w ++ [MutexLock;
                                  Sent client (MessageLoginAck "LOGIN_ACK");
                                  MutexUnlock])
  ∧ (Z.of_nat (length (Visus (globalState w))) < NbVisusMax (globalState w) →
     connOk (heap w client) = false →
     ∃ r, handleClient client msg w = (Ok Return, r)
          ∧ loginDenied client n "LOGIN denied: Could not send LOGIN_ACK" w r).
Proof.
  intros He Hp Hk.
  rewrite (handleClient_valid _ _ _ _ _ He Hp).
  rewrite decide_False by done. rewrite decide_True by done.
  assert (Hk' : state (heap (loginWorld client n w) client) ≠ CLIENT_KICKED)
    by by rewrite loginWorld_state.
  destruct (loginVisualization_spec client (loginWorld client n w) Hk')
    as (H1 & H2 & H3).
  repeat split.
  - intros Hfull. destruct (H1 Hfull) as (r & Hr & Hrej).
    exists r. split; [done | by apply rejected_loginDenied].
  - intros Hroom Hc. rewrite <- (loginWorld_connOk client n w) in Hc.
    destruct (H3 Hroom Hc) as (pv & r & Hr & ? & ? & ? & Hg & _ & Ht).
    exists pv, r. repeat split; try done.
    rewrite Ht. unfold loginWorld. simpl. by rewrite <- app_assoc.
  - intros Hroom Hc. rewrite <- (loginWorld_connOk client n w) in Hc.
    destruct (H2 Hroom Hc) as (r & Hr & Hrej).
    exists r. split; [done | by apply rejected_loginDenied].
Qed.

Lemma visualization_login_witness :
  ∃ pv r, handleClient 6 (loginOf "v1" "visualization")
            (sampleWorld GAME_RUNNING false 3)
          = (Ok (HandlePlayerOrVisu pv), r)
    ∧ Visus (globalState r) = [pv]
    ∧ trace r = [MutexLock; Sent 6 (MessageLoginAck "LOGIN_ACK"); MutexUnlock].
Proof.
  destruct (visualization_login 6 (loginOf "v1" "visualization") "v1"
              (sampleWorld GAME_RUNNING false 3))
    as (_ & H & _); [reflexivity | reflexivity | discriminate |].
  destruct H as (pv & r & Hr & _ & _ & _ & Hg & Ht); [reflexivity | reflexivity |].
  exists pv, r. split; [exact Hr |]. split; [by rewrite Hg | exact Ht].
Defined.

(** C7, the claim as stated fails: in phase FINISHED, below the cap, a
    Visu is still registered. *)
Lemma visualization_after_finish_counterexample :
  GameState (globalState (sampleWorld GAME_FINISHED false 3)) = GAME_FINISHED
  ∧ Visus (globalState (sampleWorld GAME_FINISHED false 3)) = []
  ∧ Visus (globalState
             (handleClient 6 (loginOf "v1" "visualization")
                (sampleWorld GAME_FINISHED false 3)).2)
    = [mkPlayerOrVisuClient 6 (-1) false (Some 0%nat) (Some 1%nat) (Some 2%nat) None]
  ∧ trace (handleClient 6 (loginOf "v1" "visualization")
             (sampleWorld GAME_FINISHED false 3)).2
    = [MutexLock; Sent 6 (MessageLoginAck "LOGIN_ACK"); MutexUnlock].
Proof. vm_compute. done. Qed.

(** ** The phase *)

Lemma late_player_denied client msg n w :
  err msg = None →
  readLoginMessage (content msg) = (mkMessageLogin n "player", None) →
  state (heap w client) ≠ CLIENT_KICKED →
  GameState (globalState w) ≠ GAME_NOT_RUNNING →
  ∃ r, handleClient client msg w = (Ok Return, r)
       ∧ loginDenied client n "LOGIN denied: Game has been started" w r.
Proof.
  intros He Hp Hk Hph.
  rewrite (handleClient_valid _ _ _ _ _ He Hp).
  rewrite decide_True by done.
  assert (Hk' : state (heap (loginWorld client n w) client) ≠ CLIENT_KICKED)
    by by rewrite loginWorld_state.
  destruct (loginPlayer_spec client (loginWorld client n w) Hk') as (H1 & _).
  destruct (H1 Hph) as (r & Hr & Hrej).
  exists r. split; [done | by apply rejected_loginDenied].
Qed.

(** C2 (as amended). From a start in phase NOT_RUNNING, the coordinator
    never writes the phase: after any schedule, the start step included,
    it is what it was (the move to RUNNING is left to the code that sends
    the start signal). A player LOGIN, from a client not kicked before, is
    kicked with "LOGIN denied: Game has been started" whenever the phase
    it finds is not NOT_RUNNING. *)
Theorem coordinator_keeps_phase (glClient : GameLogicClient) (ph : Phase)
    (evs : list Event) (w w' : World) (res : Result Phase) :
  run glClient ph evs w = Some (res, w') →
  GameState (globalState w') = GameState (globalState w)
  ∧ (initial w → GameState (globalState w') = GAME_NOT_RUNNING)
  ∧ ∀ (client : ClientPtr) (msg : ClientMessage) (n : string),
      err msg = None →
      readLoginMessage (content msg) = (mkMessageLogin n "player", None) →
      state (heap w' client) ≠ CLIENT_KICKED →
      GameState (globalState w') ≠ GAME_NOT_RUNNING →
      ∃ r, handleClient client msg w' = (Ok Return, r)
           ∧ loginDenied client n "LOGIN denied: Game has been started" w' r.
Proof.
  intros Hrun. pose proof (run_coordinated _ _ _ _ _ _ Hrun) as (Hph & _).
  split; [exact Hph |]. split.
  - intros (Hi & _). by rewrite Hph.
  - intros client msg n He Hp Hk Hne.
    by apply late_player_denied.
Qed.

Lemma coordinator_keeps_phase_witness :
  GameState (globalState runningWorld) = GAME_RUNNING
  ∧ ∃ r, handleClient 5 (loginOf "late" "player") runningWorld = (Ok Return, r)
         ∧ kickReasons (trace r) = ["LOGIN denied: Game has been started"].
Proof.
  destruct (coordinator_keeps_phase sampleGameLogic WaitStart [RecvStart []]
              startedWorld runningWorld (Ok (WaitDoInitAck 0 [])))
    as (Hph & _ & H); [reflexivity |].
  split; [rewrite Hph; reflexivity |].
  destruct (H 5%nat (loginOf "late" "player") "late")
    as (r & Hr & _ & _ & Ht);
    [reflexivity | reflexivity | discriminate | discriminate |].
  exists r. split; [exact Hr |]. rewrite Ht. reflexivity.
Defined.

(** C2, the claim as stated fails: the coordinator performs its start step
    (DO_INIT is sent) and the phase is still NOT_RUNNING; a player LOGIN
    that arrives afterwards is accepted. *)
Lemma coordinator_start_counterexample :
  run sampleGameLogic WaitStart [RecvStart []] (gameLogicWorld false 3)
  = Some (Ok (WaitDoInitAck 0 []), coordinatorStartedWorld)
  ∧ trace coordinatorStartedWorld
    = [MutexLock; Sent 7 (MessageLoginAck "LOGIN_ACK"); MutexUnlock;
       MutexLock; Sent 7 (MessageDoInit "DO_INIT" 0 3); MutexUnlock]
  ∧ GameState (globalState coordinatorStartedWorld) = GAME_NOT_RUNNING
  ∧ GAME_NOT_RUNNING ≠ GAME_RUNNING
  ∧ (handleClient 5 (loginOf "late" "player") coordinatorStartedWorld).1
    = Ok (HandlePlayerOrVisu
            (mkPlayerOrVisuClient 5 (-1) true (Some 2%nat) (Some 3%nat)
               (Some 4%nat) None))
  ∧ kickReasons
      (trace (handleClient 5 (loginOf "late" "player") coordinatorStartedWorld).2)
    = [].
Proof.
  split; [reflexivity |]. split; [reflexivity |].
  split; [reflexivity |]. split; [discriminate |].
  split; reflexivity.
Qed.

(** ** The nil [playerDisconnected] channel *)

Lemma run_delivered glClient ev evs : ∀ ph w ph' w',
  run glClient ph evs w = Some (Ok ph', w') →
  ev ∈ evs → ∃ ph0, is_Some (step glClient ph0 ev).
Proof.
  induction evs as [| e evs IH]; intros ph w ph' w' Hrun Hin.
  - by apply elem_of_nil in Hin.
  - simpl in Hrun. destruct (step glClient ph e) as [m |] eqn:Hs; [| done].
    apply elem_of_cons in Hin as [-> | Hin]; [by eauto |].
    destruct (m w) as [[ph1 | |] w1]; [| done | done].
    by eapply IH.
Qed.

(** C10. The Game Logic client that [handleClient] registers has its
    [playerAction] and [start] channels made and its [playerDisconnected]
    channel nil. A receive from it is never ready: in no phase does the
    coordinator's select take the player-disconnect case (with its fast-mode
    re-check), and no schedule that the coordinator runs through contains
    that event. *)
Theorem playerDisconnected_never_ready (client : ClientPtr)
    (msg : ClientMessage) (w r : World) (glClient : GameLogicClient) :
  handleClient client msg w = (Ok (HandleGameLogic glClient), r) →
  is_Some (playerAction glClient)
  ∧ is_Some (start glClient)
  ∧ playerDisconnected glClient = None
  ∧ (∀ ph, step glClient ph RecvPlayerDisconnected = None)
  ∧ ∀ ph evs w1 ph' w2,
      run glClient ph evs w1 = Some (Ok ph', w2) →
      RecvPlayerDisconnected ∉ evs.
Proof.
  intros H.
  destruct (handleClient_outcome client msg w) as (h & r' & Hr & Hout).
  rewrite Hr in H. simplify_eq. simpl in Hout.
  destruct Hout as (_ & _ & c1 & c2 & ->). simpl.
  assert (Hstep : ∀ ph,
    step (mkGameLogicClient client (Some c1) (Some c2) None) ph
      RecvPlayerDisconnected = None) by (by intros []).
  repeat split; eauto.
  intros ph evs w1 ph' w2 Hrun Hin.
  destruct (run_delivered _ _ _ _ _ _ _ Hrun Hin) as (ph0 & Hsome).
  rewrite Hstep in Hsome. by destruct Hsome.
Qed.

Lemma playerDisconnected_never_ready_witness :
  playerDisconnected sampleGameLogic = None
  ∧ step sampleGameLogic WaitFinition RecvPlayerDisconnected = None.
Proof.
  destruct (playerDisconnected_never_ready 7 (loginOf "gl" "game logic")
              (sampleWorld GAME_NOT_RUNNING false 3) (gameLogicWorld false 3)
              sampleGameLogic) as (_ & _ & Hnil & Hstep & _); [reflexivity |].
  split; [exact Hnil | apply Hstep].
Defined.

(** ** Waiting for DO_INIT_ACK *)

Lemma abortGame_spec glClient reason w :
  state (heap w (gl_client glClient)) ≠ CLIENT_KICKED →
  abortGame glClient reason w = (Ok WaitFinition, abortedWorld glClient reason w).
Proof.
  intros Hk. unfold abortGame. unfold mbind at 1, M_bind at 1.
  rewrite Kick_not_kicked by done. unfold_monad. unfold kickedWorld, abortedWorld.
  simpl. by rewrite <- app_assoc.
Qed.

(** C8. In the select that follows DO_INIT the timer is armed with 3
    seconds and no other duration. When it fires, when the read fails, or
    when the message is not a valid DO_INIT_ACK, the Game Logic client (not
    kicked before) is kicked, on timeout with "Did not receive DO_INIT_ACK
    after 3 seconds.", then 1 is sent on [onexit] and the coordinator waits
    in [waitGameLogicFinition]; nothing else is emitted, in particular no
    GAME_STARTS. *)
Theorem doInitAck_failure (glClient : GameLogicClient) (n : Z)
    (info : list PlayerInformation) (w : World) :
  state (heap w (gl_client glClient)) ≠ CLIENT_KICKED →
  (∀ d, is_Some (step glClient (WaitDoInitAck n info) (RecvTimeAfter d))
        ↔ d = 3 * Second)
  ∧ 3 * Second = 3000000000 * Nanosecond
  ∧ (∃ m, step glClient (WaitDoInitAck n info) (RecvTimeAfter (3 * Second))
          = Some m
          ∧ m w = (Ok WaitFinition,
                   abortedWorld glClient
                     "Did not receive DO_INIT_ACK after 3 seconds." w))
  ∧ (∀ msg e, err msg = Some e →
       ∃ m, step glClient (WaitDoInitAck n info) (RecvIncoming msg) = Some m
            ∧ m w = (Ok WaitFinition,
                     abortedWorld glClient ("Cannot read DO_INIT_ACK. " +:+ e) w))
  ∧ (∀ msg e, err msg = None →
       (readDoInitAckMessage (content msg)).2 = Some e →
       ∃ m, step glClient (WaitDoInitAck n info) (RecvIncoming msg) = Some m
            ∧ m w = (Ok WaitFinition,
                     abortedWorld glClient
                       ("Invalid DO_INIT_ACK message. " +:+ e) w)).
Proof.
  intros Hk. split.
  { intros d. simpl. case_decide; split; intros Hd; try done.
    all: try by destruct Hd. }
  split; [reflexivity |]. split.
  { simpl. eexists. split; [reflexivity |]. by apply abortGame_spec. }
  split.
  - intros msg e He. simpl. eexists. split; [reflexivity |].
    rewrite He. by apply abortGame_spec.
  - intros msg e He Hp. simpl. eexists. split; [reflexivity |].
    rewrite He. unfold gotDoInitAck.
    destruct (readDoInitAckMessage (content msg)) as [ack e']. simpl in Hp.
    subst e'. by apply abortGame_spec.
Qed.

Lemma doInitAck_failure_witness :
  ∃ m, step sampleGameLogic (WaitDoInitAck 0 []) (RecvTimeAfter (3 * Second))
       = Some m
       ∧ (m coordinatorStartedWorld).1 = Ok WaitFinition
       ∧ trace (m coordinatorStartedWorld).2
         = trace coordinatorStartedWorld
           ++ [LogKicking 7 "gl" "Did not receive DO_INIT_ACK after 3 seconds.";
               Sent 7 (MessageKick "KICK"
                         "Did not receive DO_INIT_ACK after 3 seconds.");
               Sleep (500 * Millisecond); OnExit 1].
Proof.
  destruct (doInitAck_failure sampleGameLogic 0 [] coordinatorStartedWorld)
    as (_ & _ & (m & Hs & Hm) & _); [discriminate |].
  exists m. split; [exact Hs |]. rewrite Hm. split; reflexivity.
Defined.

(** ** Player identifiers at game start *)

Lemma assignPlayerIDs_spec players : ∀ playerIDs i,
  (i + length players ≤ length playerIDs)%nat →
  ∃ ps, assignPlayerIDs playerIDs i players = Some ps
        ∧ playerID <$> ps = take (length players) (drop i playerIDs)
        ∧ pv_client <$> ps = pv_client <$> players.
Proof.
  induction players as [| p players IH]; intros ids i Hlen; simpl in *.
  - exists []. by rewrite take_0.
  - destruct (lookup_lt_is_Some_2 ids i) as [id Hid]; [lia |].
    rewrite Hid. simpl.
    destruct (IH ids (S i)) as (ps & -> & Hps & Hcl); [lia |]. simpl.
    eexists. split; [reflexivity |]. rewrite !fmap_cons, Hps, Hcl.
    split; [| done].
    rewrite (drop_S _ _ _ Hid). done.
Qed.

Lemma sort_insert_Permutation {A} (less : A → A → bool) x l :
  sort_insert less x l ≡ₚ x :: l.
Proof.
  induction l as [| y l IH]; simpl; [done |].
  destruct (less x y); [done |].
  rewrite IH. apply Permutation_swap.
Qed.

Lemma sort_Slice_Permutation {A} (l : list A) less :
  sort_Slice l less ≡ₚ l.
Proof.
  unfold sort_Slice.
  assert (H : ∀ acc, fold_left (λ sorted x, sort_insert less x sorted) l acc
                     ≡ₚ acc ++ l).
  { induction l as [| x l IH]; intros acc; simpl.
    - by rewrite app_nil_r.
    - rewrite IH, sort_insert_Permutation.
      by rewrite (Permutation_middle acc l x). }
  by rewrite H.
Qed.

Lemma sort_insert_Sorted x l :
  Sorted ascending l → Sorted ascending (sort_insert lessPlayerID x l).
Proof.
  induction 1 as [| y l Hs IH Hhd]; simpl.
  - by repeat constructor.
  - unfold lessPlayerID at 1. destruct (Z.ltb_spec (PlayerID x) (PlayerID y)).
    + constructor; [by constructor |]. constructor. unfold ascending. lia.
    + constructor; [exact IH |].
      destruct Hhd as [| z l Hyz]; simpl.
      * constructor. unfold ascending. lia.
      * unfold lessPlayerID. destruct (Z.ltb_spec (PlayerID x) (PlayerID z));
          constructor; unfold ascending in *; lia.
Qed.

Lemma sort_Slice_Sorted l : Sorted ascending (sort_Slice l lessPlayerID).
Proof.
  unfold sort_Slice.
  assert (H : ∀ acc, Sorted ascending acc →
    Sorted ascending (fold_left (λ sorted x, sort_insert lessPlayerID x sorted) l acc)).
  { induction l as [| x l IH]; intros acc Hacc; simpl; [done |].
    apply IH. by apply sort_insert_Sorted. }
  apply H. constructor.
Qed.

Lemma Sorted_PlayerID l :
  Sorted ascending l → Sorted Z.le (PlayerID <$> l).
Proof.
  induction 1 as [| y l Hs IH Hhd]; simpl; constructor; [done |].
  destruct Hhd; simpl; by constructor.
Qed.

Lemma Sorted_seqZ m n : Sorted Z.le (seqZ m n).
Proof.
  destruct (decide (n ≤ 0)) as [Hn | Hn]; [rewrite seqZ_nil by lia; constructor |].
  rewrite <- (Z2Nat.id n) by lia.
  generalize (Z.to_nat n). clear. intros k. revert m.
  induction k as [| k IH]; intros m.
  - rewrite seqZ_nil by lia. constructor.
  - rewrite seqZ_cons by lia.
    replace (Z.pred (Z.of_nat (S k))) with (Z.of_nat k) by lia.
    constructor; [apply IH |].
    destruct k as [| k].
    + rewrite seqZ_nil by lia. constructor.
    + rewrite seqZ_cons by lia. constructor. lia.
Qed.

Lemma Permutation_seqZ_sorted (l : list Z) n :
  l ≡ₚ seqZ 0 n → Sorted Z.le l → l = seqZ 0 n.
Proof.
  intros Hp Hs. apply (Sorted_unique Z.le); [done | apply Sorted_seqZ | done].
Qed.

(** C4. The start step, with [rand.Perm] returning a permutation of
    [0, len(players)) and a socket that takes DO_INIT. The number of players
    is snapshot as [initialNbPlayers]; player [i] receives [playerIDs[i]],
    so the identifiers of the registered players form a permutation of
    [0, initialNbPlayers); [playersInfo] holds exactly one record per player
    and lists the identifiers 0, 1, ..., initialNbPlayers - 1 in that
    order. *)
Theorem startGame_playerIDs (glClient : GameLogicClient) (playerIDs : list Z)
    (w : World) :
  playerIDs ≡ₚ seqZ 0 (Z.of_nat (length (Players (globalState w)))) →
  connOk (heap w (gl_client glClient)) = true →
  ∃ info w',
    startGame glClient playerIDs w
    = (Ok (WaitDoInitAck (Z.of_nat (length (Players (globalState w)))) info), w')
    ∧ pv_client <$> Players (globalState w')
      = pv_client <$> Players (globalState w)
    ∧ playerID <$> Players (globalState w') = playerIDs
    ∧ playerID <$> Players (globalState w')
      ≡ₚ seqZ 0 (Z.of_nat (length (Players (globalState w))))
    ∧ length info = length (Players (globalState w))
    ∧ info ≡ₚ makePlayerInformation (heap w) <$> Players (globalState w')
    ∧ Sorted ascending info
    ∧ PlayerID <$> info = seqZ 0 (Z.of_nat (length (Players (globalState w)))).
Proof.
  intros Hperm Hconn.
  assert (Hlen : length playerIDs = length (Players (globalState w))).
  { rewrite Hperm, length_seqZ. lia. }
  destruct (assignPlayerIDs_spec (Players (globalState w)) playerIDs 0)
    as (ps & Hassign & Hids & Hclients); [lia |].
  rewrite drop_0, <- Hlen, firstn_all in Hids.
  set (info := sort_Slice (makePlayerInformation (heap w) <$> ps) lessPlayerID).
  assert (Hinfo : PlayerID <$> (makePlayerInformation (heap w) <$> ps) = playerIDs).
  { rewrite <- Hids, <- list_fmap_compose. done. }
  assert (Hsame : makePlayerInformation (heap w)
                  <$> ((λ player, set_playerInfo
                                    (makePlayerInformation (heap w) player) player)
                       <$> ps)
                  = makePlayerInformation (heap w) <$> ps).
  { rewrite <- list_fmap_compose. done. }
  exists info. eexists. split.
  { unfold startGame. unfold_monad. simpl. rewrite Hassign. simpl.
    unfold sendDoInit, sendMessage, json_Marshal. unfold_monad. simpl.
    rewrite Hconn. simpl. reflexivity. }
  simpl.
  set (ps' := (λ player, set_playerInfo (makePlayerInformation (heap w) player)
                           player) <$> ps) in *.
  assert (Hcl' : pv_client <$> ps' = pv_client <$> ps)
    by (unfold ps'; by rewrite <- list_fmap_compose).
  assert (Hid' : playerID <$> ps' = playerID <$> ps)
    by (unfold ps'; by rewrite <- list_fmap_compose).
  rewrite Hcl', Hid', Hsame.
  split; [exact Hclients |]. split; [exact Hids |].
  split; [by rewrite Hids |].
  split.
  { unfold info. rewrite sort_Slice_Permutation, length_fmap.
    by rewrite <- (length_fmap playerID ps), Hids. }
  split.
  { unfold info. by rewrite sort_Slice_Permutation. }
  split; [apply sort_Slice_Sorted |].
  apply Permutation_seqZ_sorted.
  - unfold info. rewrite sort_Slice_Permutation, Hinfo. exact Hperm.
  - apply Sorted_PlayerID, sort_Slice_Sorted.
Qed.

(** ** Collecting player actions *)

Abbreviation pid := ActionPlayerID (only parsing).

Lemma insert_at_length {A} (l1 : list A) y l2 x :
  <[length l1 := x]> (l1 ++ y :: l2) = l1 ++ x :: l2.
Proof. induction l1 as [| a l1 IH]; simpl; [done | by rewrite IH]. Qed.

(** The slot found is the last one: the action is overwritten in place. *)
Lemma swapAndOverwrite_last l1 old action :
  swapAndOverwrite (l1 ++ [old]) (length l1) action = l1 ++ [action].
Proof.
  unfold swapAndOverwrite. rewrite length_app. simpl.
  replace (length l1 + 1 - 1)%nat with (length l1) by lia.
  rewrite list_lookup_middle by done.
  by rewrite !insert_at_length.
Qed.

(** The slot found is an earlier one: the former last entry moves into it
    and the new action takes the last slot. *)
Lemma swapAndOverwrite_inner l1 old l2 z action :
  swapAndOverwrite (l1 ++ old :: l2 ++ [z]) (length l1) action
  = l1 ++ z :: l2 ++ [action].
Proof.
  unfold swapAndOverwrite.
  set (last := (length (l1 ++ old :: l2 ++ [z]) - 1)%nat).
  assert (Hlast : last = length (l1 ++ old :: l2)).
  { unfold last. rewrite !length_app. simpl. rewrite length_app. simpl. lia. }
  rewrite list_lookup_middle by done.
  replace (l1 ++ old :: l2 ++ [z]) with ((l1 ++ old :: l2) ++ [z])
    by (by rewrite <- app_assoc).
  rewrite Hlast, list_lookup_middle by done.
  rewrite insert_at_length.
  replace ((l1 ++ old :: l2) ++ [old]) with (l1 ++ old :: (l2 ++ [old]))
    by (by rewrite <- app_assoc).
  rewrite insert_at_length.
  replace (l1 ++ z :: l2 ++ [old]) with ((l1 ++ z :: l2) ++ [old])
    by (by rewrite <- app_assoc).
  replace (length (l1 ++ old :: l2)) with (length (l1 ++ z :: l2))
    by (rewrite !length_app; done).
  rewrite insert_at_length. by rewrite <- app_assoc.
Qed.

Lemma replaceAction_none action pa rest : ∀ k,
  Forall (λ a, pid a ≠ pid action) rest →
  replaceAction action pa k rest = None.
Proof.
  induction rest as [| a rest IH]; intros k Hall; simpl; [done |].
  inversion_clear Hall as [| ? ? Ha Hrest].
  rewrite decide_False by done. by apply IH.
Qed.

Lemma replaceAction_some action pa r1 old r2 : ∀ k,
  Forall (λ a, pid a ≠ pid action) r1 →
  pid old = pid action →
  replaceAction action pa k (r1 ++ old :: r2)
  = Some (swapAndOverwrite pa (k + length r1) action).
Proof.
  induction r1 as [| a r1 IH]; intros k Hall Hold; simpl.
  - rewrite decide_True by done. by rewrite Nat.add_0_r.
  - inversion_clear Hall as [| ? ? Ha Hrest].
    rewrite decide_False by done. rewrite IH by done.
    by replace (S k + length r1)%nat with (k + S (length r1))%nat by lia.
Qed.

Lemma collectAction_new action l :
  Forall (λ a, pid a ≠ pid action) l → collectAction action l = l ++ [action].
Proof.
  intros Hall. unfold collectAction. by rewrite replaceAction_none.
Qed.

Lemma collectAction_found action l1 old l2 :
  Forall (λ a, pid a ≠ pid action) l1 →
  pid old = pid action →
  collectAction action (l1 ++ old :: l2)
  = swapAndOverwrite (l1 ++ old :: l2) (length l1) action.
Proof.
  intros Hall Hold. unfold collectAction.
  by rewrite (replaceAction_some action _ l1 old l2 0 Hall Hold).
Qed.

(** With one entry per player, the entry of a player splits the list into
    entries of other players. *)
Lemma NoDup_split_others action l1 old l2 :
  NoDup (pid <$> (l1 ++ old :: l2)) →
  pid old = pid action →
  Forall (λ a, pid a ≠ pid action) l1 ∧ Forall (λ a, pid a ≠ pid action) l2.
Proof.
  intros Hnd Hold. rewrite fmap_app, fmap_cons in Hnd.
  apply NoDup_app in Hnd as (_ & Hdisj & Hnd).
  apply NoDup_cons in Hnd as (Hnotin & _).
  split; apply Forall_forall; intros a Ha Heq.
  - apply (Hdisj (pid a)); [by apply list_elem_of_fmap_2 |].
    rewrite Heq, <- Hold. by left.
  - apply Hnotin. rewrite Hold, <- Heq. by apply list_elem_of_fmap_2.
Qed.

Lemma filter_others (action : MessageDoTurnPlayerAction) l :
  Forall (λ a, pid a ≠ pid action) l →
  filter (λ a, pid a ≠ pid action) l = l
  ∧ filter (λ a, pid a = pid action) l = [].
Proof.
  induction 1 as [| a l Ha Hl [IH1 IH2]]; [done |].
  rewrite !filter_cons, decide_True, decide_False, IH1, IH2 by done. done.
Qed.

(** Either no entry carries the player of [action], or the list splits at
    its first entry. *)
Lemma first_entry (action : MessageDoTurnPlayerAction) l :
  Forall (λ a, pid a ≠ pid action) l
  ∨ ∃ l1 old l2, l = l1 ++ old :: l2
                 ∧ Forall (λ a, pid a ≠ pid action) l1
                 ∧ pid old = pid action.
Proof.
  induction l as [| a l [IH | (l1 & old & l2 & -> & Hl1 & Hold)]].
  - by left.
  - destruct (decide (pid a = pid action)) as [Ha | Ha].
    + right. exists [], a, l. split; [reflexivity | split; [constructor | exact Ha]].
    + left. by constructor.
  - right. destruct (decide (pid a = pid action)) as [Ha | Ha].
    + exists [], a, (l1 ++ old :: l2).
      split; [reflexivity | split; [constructor | exact Ha]].
    + exists (a :: l1), old, l2.
      split; [reflexivity | split; [by constructor | exact Hold]].
Qed.

Lemma snoc_or_nil {A} (l : list A) : l = [] ∨ ∃ l' z, l = l' ++ [z].
Proof.
  induction l as [| a l _] using rev_ind; [by left | right; eauto].
Qed.

Lemma Permutation_swap_ends {A} (x y : A) l : x :: l ++ [y] ≡ₚ y :: l ++ [x].
Proof.
  rewrite <- (Permutation_cons_append l y), <- (Permutation_cons_append l x).
  apply Permutation_swap.
Qed.

Lemma collectAction_cases action l :
  NoDup (pid <$> l) →
  (Forall (λ a, pid a ≠ pid action) l ∧ collectAction action l = l ++ [action])
  ∨ (∃ l1 old, l = l1 ++ [old] ∧ pid old = pid action
               ∧ Forall (λ a, pid a ≠ pid action) l1
               ∧ collectAction action l = l1 ++ [action])
  ∨ (∃ l1 old l2 z, l = l1 ++ old :: l2 ++ [z] ∧ pid old = pid action
               ∧ Forall (λ a, pid a ≠ pid action) l1
               ∧ Forall (λ a, pid a ≠ pid action) (l2 ++ [z])
               ∧ collectAction action l = l1 ++ z :: l2 ++ [action]).
Proof.
  intros Hnd.
  destruct (first_entry action l) as [Hall | (l1 & old & l2 & -> & Hl1 & Hold)].
  { left. split; [done | by apply collectAction_new]. }
  right.
  destruct (NoDup_split_others _ _ _ _ Hnd Hold) as (_ & Hl2).
  rewrite collectAction_found by done.
  destruct (snoc_or_nil l2) as [-> | (l2' & z & ->)].
  - left. exists l1, old. by rewrite swapAndOverwrite_last.
  - right. exists l1, old, l2', z. by rewrite swapAndOverwrite_inner.
Qed.

(** C1 (as amended). [playerActions] holds at most one entry per player.
    When an action arrives, the list afterwards still holds at most one
    entry per player, the arriving action is its last entry and the only
    entry of its player, and the entries of the other players are all kept.
    Their order is kept when the player had no entry or had the last one;
    when the player had an earlier entry, the former last entry takes that
    entry's slot, the others stay in place. A DO_TURN carries the list as
    it is at that moment, hence only the latest action of each player. *)
Theorem collectAction_latest_wins (action : MessageDoTurnPlayerAction)
    (l : list MessageDoTurnPlayerAction) :
  NoDup (ActionPlayerID <$> l) →
  NoDup (ActionPlayerID <$> collectAction action l)
  ∧ last (collectAction action l) = Some action
  ∧ filter (λ a, ActionPlayerID a = ActionPlayerID action) (collectAction action l)
    = [action]
  ∧ collectAction action l
    ≡ₚ filter (λ a, ActionPlayerID a ≠ ActionPlayerID action) l ++ [action]
  ∧ (Forall (λ a, ActionPlayerID a ≠ ActionPlayerID action) l →
     collectAction action l = l ++ [action])
  ∧ (∀ l1 old, l = l1 ++ [old] →
     ActionPlayerID old = ActionPlayerID action →
     collectAction action l = l1 ++ [action])
  ∧ (∀ l1 old l2 z, l = l1 ++ old :: l2 ++ [z] →
     ActionPlayerID old = ActionPlayerID action →
     collectAction action l = l1 ++ z :: l2 ++ [action])
  ∧ ∀ (glClient : GameLogicClient) (tl : TurnLoop) (w : World),
      playerActions tl = collectAction action l →
      sendDoTurnToGL tl ≠ 0%nat →
      connOk (heap w (gl_client glClient)) = true →
      ∃ m, step glClient (InTurnLoop tl) RecvSendDoTurn = Some m
           ∧ trace (m w).2
             = trace w ++ [Sent (gl_client glClient)
                             (MessageDoTurn "DO_TURN" (collectAction action l))].
Proof.
  intros Hnd.
  assert (Hself : filter (λ a, pid a = pid action) [action] = [action])
    by (by rewrite filter_cons, decide_True).
  split; [| split; [| split; [| split]]].
  - destruct (collectAction_cases action l Hnd)
      as [(Hall & ->) | [(l1 & old & -> & Hold & Hl1 & ->)
                        | (l1 & old & l2 & z & -> & Hold & Hl1 & Hl2 & ->)]].
    + rewrite fmap_app. apply NoDup_app. split; [done |].
      split; [| apply NoDup_singleton].
      intros x Hx Hx'. apply list_elem_of_fmap in Hx as (a & -> & Ha).
      apply list_elem_of_singleton in Hx'.
      by apply (proj1 (Forall_forall _ _) Hall a).
    + rewrite fmap_app in *. simpl in *. by rewrite <- Hold.
    + rewrite fmap_app in *. rewrite !fmap_cons, !fmap_app in *. simpl in *.
      rewrite <- Hold. by rewrite Permutation_swap_ends.
  - destruct (collectAction_cases action l Hnd)
      as [(Hall & ->) | [(l1 & old & -> & Hold & Hl1 & ->)
                        | (l1 & old & l2 & z & -> & Hold & Hl1 & Hl2 & ->)]].
    + apply last_snoc.
    + apply last_snoc.
    + replace (l1 ++ z :: l2 ++ [action]) with ((l1 ++ z :: l2) ++ [action])
        by (by rewrite <- app_assoc).
      apply last_snoc.
  - destruct (collectAction_cases action l Hnd)
      as [(Hall & ->) | [(l1 & old & -> & Hold & Hl1 & ->)
                        | (l1 & old & l2 & z & -> & Hold & Hl1 & Hl2 & ->)]].
    + rewrite filter_app, Hself. by rewrite (proj2 (filter_others action l Hall)).
    + rewrite filter_app, Hself. by rewrite (proj2 (filter_others action l1 Hl1)).
    + apply Forall_app in Hl2 as (Hl2 & Hz).
      rewrite Forall_singleton in Hz.
      rewrite filter_app, filter_cons, filter_app, Hself.
      rewrite (proj2 (filter_others action l1 Hl1)).
      rewrite (proj2 (filter_others action l2 Hl2)).
      by rewrite decide_False.
  - destruct (collectAction_cases action l Hnd)
      as [(Hall & ->) | [(l1 & old & -> & Hold & Hl1 & ->)
                        | (l1 & old & l2 & z & -> & Hold & Hl1 & Hl2 & ->)]].
    + by rewrite (proj1 (filter_others action l Hall)).
    + rewrite filter_app, filter_cons.
      destruct (decide _) as [Hne | _]; [by destruct Hne |].
      rewrite (proj1 (filter_others action l1 Hl1)).
      by rewrite filter_nil, app_nil_r.
    + rewrite filter_app, filter_cons.
      destruct (decide _) as [Hne | _]; [by destruct Hne |].
      rewrite (proj1 (filter_others action l1 Hl1)).
      rewrite (proj1 (filter_others action (l2 ++ [z]) Hl2)).
      rewrite <- (Permutation_cons_append l2 z).
      by rewrite <- !app_assoc.
  - split; [apply collectAction_new |]. split; [| split].
    + intros l1 old -> Hold.
      destruct (NoDup_split_others _ _ _ _ Hnd Hold) as (Hl1 & _).
      rewrite collectAction_found by done. apply swapAndOverwrite_last.
    + intros l1 old l2 z -> Hold.
      destruct (NoDup_split_others _ _ _ _ Hnd Hold) as (Hl1 & _).
      rewrite collectAction_found by done. apply swapAndOverwrite_inner.
    + intros glClient tl w Htl Hsig Hconn. simpl.
      rewrite decide_False by done. eexists. split; [reflexivity |].
      unfold sendDoTurn, sendMessage, json_Marshal. unfold_monad. simpl.
      rewrite Hconn. simpl. by rewrite Htl.
Qed.

Lemma collectAction_latest_wins_witness :
  NoDup (ActionPlayerID <$> [actionOf 0 0; actionOf 1 0; actionOf 2 0])
  ∧ collectAction (actionOf 0 1) [actionOf 0 0; actionOf 1 0; actionOf 2 0]
    = [actionOf 2 0; actionOf 1 0; actionOf 0 1].
Proof.
  assert (Hnd : NoDup (ActionPlayerID <$> [actionOf 0 0; actionOf 1 0; actionOf 2 0])).
  { compute_done. }
  split; [exact Hnd |].
  destruct (collectAction_latest_wins (actionOf 0 1)
              [actionOf 0 0; actionOf 1 0; actionOf 2 0] Hnd)
    as (_ & _ & _ & _ & _ & _ & H & _).
  exact (H [] (actionOf 0 0) [actionOf 1 0] (actionOf 2 0) eq_refl eq_refl).
Defined.

(** C1, the claim as stated fails: player 0 replaces its action while
    players 1 and 2 have entries; afterwards the entry of player 2 comes
    before the entry of player 1, which had arrived first. *)
Lemma collectAction_order_counterexample :
  collectAction (actionOf 0 1) [actionOf 0 0; actionOf 1 0; actionOf 2 0]
  = [actionOf 2 0; actionOf 1 0; actionOf 0 1]
  ∧ filter (λ a, ActionPlayerID a ≠ 0)
      [actionOf 0 0; actionOf 1 0; actionOf 2 0]
    = [actionOf 1 0; actionOf 2 0]
  ∧ filter (λ a, ActionPlayerID a ≠ 0)
      (collectAction (actionOf 0 1) [actionOf 0 0; actionOf 1 0; actionOf 2 0])
    = [actionOf 2 0; actionOf 1 0]
  ∧ [actionOf 1 0; actionOf 2 0] ≠ [actionOf 2 0; actionOf 1 0].
Proof. repeat split; try reflexivity. discriminate. Qed.

Lemma lobbyGameLogic_registered fast nbTurnsMax :
  GameLogic (globalState (lobbyWorld fast nbTurnsMax)) = [lobbyGameLogic].
Proof. destruct fast; reflexivity. Qed.

Lemma startGame_playerIDs_witness :
  ∃ info w',
    startGame lobbyGameLogic [1; 0] (lobbyWorld false 3)
    = (Ok (WaitDoInitAck 2 info), w')
    ∧ playerID <$> Players (globalState w') = [1; 0]
    ∧ PlayerID <$> info = [0; 1].
Proof.
  assert (Hp : [1; 0] ≡ₚ seqZ 0 (Z.of_nat (length (Players (globalState
                                                  (lobbyWorld false 3))))))
    by (vm_compute; apply Permutation_swap).
  destruct (startGame_playerIDs lobbyGameLogic [1; 0] (lobbyWorld false 3) Hp)
    as (info & w' & Hs & _ & Hids & _ & _ & _ & _ & Hinfo); [reflexivity |].
  exists info, w'. split; [exact Hs |]. split; [exact Hids | exact Hinfo].
Defined.

(** ** Reading a trace *)

Lemma sentTo_app c t1 t2 : sentTo c (t1 ++ t2) = sentTo c t1 ++ sentTo c t2.
Proof.
  induction t1 as [| e t1 IH]; simpl; [done |].
  destruct e; try done. case_decide; simpl; by rewrite IH.
Qed.

Lemma doTurnCount_app c t1 t2 :
  doTurnCount c (t1 ++ t2) = (doTurnCount c t1 + doTurnCount c t2)%nat.
Proof. unfold doTurnCount. by rewrite sentTo_app, filter_app, length_app. Qed.

Lemma exitCodes_app t1 t2 : exitCodes (t1 ++ t2) = exitCodes t1 ++ exitCodes t2.
Proof.
  induction t1 as [| e t1 IH]; simpl; [done |].
  destruct e; simpl; by rewrite ?IH.
Qed.

Lemma kickReasons_app t1 t2 :
  kickReasons (t1 ++ t2) = kickReasons t1 ++ kickReasons t2.
Proof.
  induction t1 as [| e t1 IH]; simpl; [done |].
  destruct e; simpl; by rewrite ?IH.
Qed.

Lemma notes_app t1 t2 : notes (t1 ++ t2) = notes t1 ++ notes t2.
Proof.
  induction t1 as [| e t1 IH]; simpl; [done |].
  destruct e; simpl; by rewrite ?IH.
Qed.

(** A fan-out loop that returns has found every channel made, and has sent
    on each in turn. *)
Lemma forEach_chanSend {A} (f : A → option Chan) (e : A → Chan → Effect) l :
  ∀ w w', forEach l (λ x, chanSend (f x) (e x)) w = (Ok tt, w') →
          w' = addTrace (omap (λ x, e x <$> f x) l) w.
Proof.
  induction l as [| x l IH]; intros w w' H; simpl in *.
  - unfold mret, M_ret in H. injection H as <-. unfold addTrace. simpl.
    rewrite app_nil_r. by destruct w.
  - unfold mbind, M_bind in H. unfold chanSend in *.
    destruct (f x) as [ch |]; simpl in *; [| by unfold block in H].
    apply IH in H. rewrite H. unfold addTrace. simpl.
    by rewrite <- app_assoc.
Qed.

Lemma internal_quiet c t :
  Forall internal t →
  sentTo c t = [] ∧ kickReasons t = [] ∧ exitCodes t = [].
Proof.
  induction 1 as [| e t He _ (IH1 & IH2 & IH3)]; [done |].
  destruct e; simpl in *; done.
Qed.

Lemma internal_fan {A} (f : A → option Chan) (e : A → Chan → Effect) l :
  (∀ x ch, internal (e x ch)) → Forall internal (omap (λ x, e x <$> f x) l).
Proof.
  intros He. induction l as [| x l IH]; simpl; [constructor |].
  destruct (f x); simpl; [constructor; auto | done].
Qed.

Lemma notes_cons e t : notes (e :: t) = notes [e] ++ notes t.
Proof. by destruct e. Qed.

Lemma notes_fan {A} (f : A → option Chan) (e : A → Chan → Effect)
    (n : Chan → Note) l :
  (∀ x ch, notes [e x ch] = [n ch]) →
  notes (omap (λ x, e x <$> f x) l) = n <$> omap f l.
Proof.
  intros He. induction l as [| x l IH]; simpl; [done |].
  destruct (f x) as [ch |]; simpl; [| done].
  pose proof (He x ch) as Hx. simpl in Hx, IH.
  destruct (e x ch); simplify_eq; f_equal; first [assumption | exact IH].
Qed.

(** The three fan-outs, when they return. *)
Lemma fanOutGameStarts_returns n info ack w w' :
  fanOutGameStarts n info ack w = (Ok tt, w') →
  ∃ t, w' = addTrace t w ∧ Forall internal t
       ∧ notes t = GameStartsOn <$> channels gameStarts (globalState w).
Proof.
  unfold fanOutGameStarts. unfold_monad. simpl. intros H.
  destruct (forEach (Players (globalState w)) _ _) as [[[] | |] w1] eqn:H1;
    try done.
  apply forEach_chanSend in H1. subst w1.
  destruct (forEach (Visus (globalState w)) _ _) as [[[] | |] w2] eqn:H2;
    try done.
  apply forEach_chanSend in H2. subst w2. simpl in H. injection H as <-.
  eexists. split.
  { unfold addTrace. simpl. rewrite <- !app_assoc. reflexivity. }
  split.
  { apply Forall_app. split; [by repeat constructor |].
    apply Forall_app. split; [by apply internal_fan |].
    apply Forall_app. split; [by apply internal_fan | by repeat constructor]. }
  rewrite !notes_app. simpl. rewrite app_nil_r.
  unfold channels. rewrite omap_app, fmap_app.
  f_equal; by apply notes_fan.
Qed.

Lemma fanOutGameEnds_returns ack w w' :
  fanOutGameEnds ack w = (Ok tt, w') →
  ∃ t, w' = addTrace t w ∧ Forall internal t
       ∧ notes t = GameEndsOn <$> channels gameEnds (globalState w).
Proof.
  unfold fanOutGameEnds. unfold_monad. simpl. intros H.
  destruct (forEach (Players (globalState w)) _ _) as [[[] | |] w1] eqn:H1;
    try done.
  apply forEach_chanSend in H1. subst w1.
  destruct (forEach (Visus (globalState w)) _ _) as [[[] | |] w2] eqn:H2;
    try done.
  apply forEach_chanSend in H2. subst w2. simpl in H. injection H as <-.
  eexists. split.
  { unfold addTrace. simpl. rewrite <- !app_assoc. reflexivity. }
  split.
  { apply Forall_app. split; [by repeat constructor |].
    apply Forall_app. split; [by apply internal_fan |].
    apply Forall_app. split; [by apply internal_fan | by repeat constructor]. }
  rewrite !notes_app. simpl. rewrite app_nil_r.
  unfold channels. rewrite omap_app, fmap_app.
  f_equal; by apply notes_fan.
Qed.

(** In normal mode the TURN fan-out leaves the locals as they are. *)
Lemma fanOutTurn_returns l ack w l' w' :
  Fast (globalState w) = false →
  fanOutTurn l ack w = (Ok l', w') →
  l' = l
  ∧ ∃ t, w' = addTrace t w ∧ Forall internal t
         ∧ notes t = (λ ch, TurnOn ch (turnNumber l - 1))
                     <$> channels newTurn (globalState w).
Proof.
  intros Hfast. unfold fanOutTurn. unfold_monad. simpl. rewrite Hfast. simpl.
  intros H.
  destruct (forEach (Players (globalState w)) _ _) as [[[] | |] w1] eqn:H1;
    try done.
  apply forEach_chanSend in H1. subst w1.
  destruct (forEach (Visus (globalState w)) _ _) as [[[] | |] w2] eqn:H2;
    try done.
  apply forEach_chanSend in H2. subst w2. simpl in H. injection H as <- <-.
  split; [done |]. eexists. split.
  { unfold addTrace. simpl. rewrite <- !app_assoc. reflexivity. }
  split.
  { apply Forall_app. split; [by repeat constructor |].
    apply Forall_app. split; [by apply internal_fan |].
    apply Forall_app. split; [by apply internal_fan | by repeat constructor]. }
  rewrite !notes_app. simpl. rewrite app_nil_r.
  unfold channels. rewrite omap_app, fmap_app.
  f_equal; by apply notes_fan.
Qed.

(** A valid DO_TURN_ACK in normal mode, before the last turn: TURN goes to
    everyone and one timer is started. *)
Lemma gotDoTurnAck_turn glClient l msg w ph' w' :
  Fast (globalState w) = false →
  err msg = None →
  (readDoTurnAckMessage (content msg) (initialNbPlayers l)).2 = None →
  turnNumber l + 1 < NbTurnsMax (globalState w) →
  gotDoTurnAck glClient l msg w = (Ok ph', w') →
  ph' = InTurnLoop (mkTurnLoop (initialNbPlayers l) (playersInfo l)
                      (turnNumber l + 1) (playerActions l)
                      (sendDoTurnToGL l) (S (timers l)))
  ∧ ∃ t, w' = addTrace t w ∧ Forall internal t
         ∧ notes t = (λ ch, TurnOn ch (turnNumber l))
                     <$> channels newTurn (globalState w).
Proof.
  intros Hfast Herr Hparse Hk. unfold gotDoTurnAck. rewrite Herr.
  destruct (readDoTurnAckMessage _ _) as [ack e]. simpl in Hparse. subst e.
  unfold mbind at 1, M_bind at 1, getGlobalState. simpl.
  rewrite decide_True by done.
  unfold mbind at 1, M_bind at 1.
  destruct (fanOutTurn _ ack w) as [[l' | |] w1] eqn:Hfan; try done.
  apply fanOutTurn_returns in Hfan as (-> & t & -> & Hint & Hnotes); [| done].
  rewrite Hfast. simpl. unfold mret, M_ret. intros H. injection H as <- <-.
  split; [done |]. exists t. split; [done |]. split; [done |].
  rewrite Hnotes. simpl. by replace (turnNumber l + 1 - 1) with (turnNumber l) by lia.
Qed.

(** A valid DO_TURN_ACK for the last turn: GAME_ENDS goes to everyone, the
    Game Logic is kicked, 0 is sent on [onexit]. *)
Lemma gotDoTurnAck_end glClient l msg w ph' w' :
  err msg = None →
  (readDoTurnAckMessage (content msg) (initialNbPlayers l)).2 = None →
  ¬ turnNumber l + 1 < NbTurnsMax (globalState w) →
  state (heap w (gl_client glClient)) ≠ CLIENT_KICKED →
  gotDoTurnAck glClient l msg w = (Ok ph', w') →
  ph' = WaitFinition
  ∧ globalState w' = globalState w
  ∧ ∃ t, trace w'
         = trace w ++ t
           ++ kickTrace (gl_client glClient)
                (nickname (heap w (gl_client glClient))) "Game is finished"
                (connOk (heap w (gl_client glClient)))
           ++ [OnExit 0]
         ∧ Forall internal t
         ∧ notes t = GameEndsOn <$> channels gameEnds (globalState w).
Proof.
  intros Herr Hparse Hk Hstate. unfold gotDoTurnAck. rewrite Herr.
  destruct (readDoTurnAckMessage _ _) as [ack e]. simpl in Hparse. subst e.
  unfold mbind at 1, M_bind at 1, getGlobalState. simpl.
  rewrite decide_False by done.
  unfold mbind at 1, M_bind at 1.
  match goal with
  | |- context [match ?chk w with _ => _ end] =>
      assert (Hchk : chk w = (Ok tt, w) ∨ chk w = (Panicked, w))
  end.
  { repeat case_decide; try (by left); try (by right).
    destruct (_ !! _); [by left | by right]. }
  destruct Hchk as [-> | ->]; [| done].
  unfold mbind at 1, M_bind at 1.
  destruct (fanOutGameEnds ack w) as [[[] | |] w1] eqn:Hfan; try done.
  apply fanOutGameEnds_returns in Hfan as (t & -> & Hint & Hnotes).
  unfold mbind at 1, M_bind at 1.
  rewrite Kick_not_kicked by done.
  unfold_monad. simpl. intros H. injection H as <- <-.
  split; [done |]. split; [done |]. exists t.
  split; [| done]. unfold kickTrace. simpl. rewrite <- !app_assoc. simpl.
  rewrite <- !app_assoc. reflexivity.
Qed.

(** ** The turn loop in normal mode *)

Lemma doTurnCount_internal c t1 t2 :
  Forall internal t2 → doTurnCount c (t1 ++ t2) = doTurnCount c t1.
Proof.
  intros Hint. rewrite doTurnCount_app. unfold doTurnCount at 2.
  destruct (internal_quiet c t2 Hint) as (-> & _). simpl. lia.
Qed.

Lemma seqZ_snoc (k : Z) : 0 ≤ k → seqZ 0 (k + 1) = seqZ 0 k ++ [k].
Proof.
  intros Hk. by rewrite seqZ_app by lia.
Qed.

Lemma loopInv_internal c g l l' t t' :
  loopInv c g l t →
  Forall internal t' → notes t' = [] →
  timers l' = timers l → sendDoTurnToGL l' = sendDoTurnToGL l →
  turnNumber l' = turnNumber l →
  loopInv c g l' (t ++ t').
Proof.
  intros (H1 & H2 & H3 & H4 & H5 & H6) Hint Hn Ht Hb Hk.
  destruct (internal_quiet c t' Hint) as (Hs & Hkr & Hex).
  unfold loopInv.
  rewrite doTurnCount_internal, sentTo_app, kickReasons_app, exitCodes_app,
    notes_app, Hs, Hkr, Hex, Hn, !app_nil_r, Ht, Hb, Hk by done.
  done.
Qed.

Lemma kickTrace_read c nick reason :
  sentTo c (kickTrace c nick reason true) = [MessageKick "KICK" reason]
  ∧ kickReasons (kickTrace c nick reason true) = [reason]
  ∧ exitCodes (kickTrace c nick reason true) = []
  ∧ notes (kickTrace c nick reason true) = [].
Proof. unfold kickTrace. simpl. by rewrite decide_True. Qed.

Lemma loop_step glClient g t0 l ev w t m ph' w' :
  Fast g = false →
  started glClient g t0 w t →
  loopInv (gl_client glClient) g l t →
  answers glClient (length t0) (InTurnLoop l) ev w →
  step glClient (InTurnLoop l) ev = Some m →
  m w = (Ok ph', w') →
  (∃ l' t', ph' = InTurnLoop l' ∧ started glClient g t0 w' t'
            ∧ loopInv (gl_client glClient) g l' t')
  ∨ (ph' = WaitFinition
     ∧ ∃ t', globalState w' = g ∧ trace w' = t0 ++ t'
             ∧ gameOver (gl_client glClient) g t').
Proof.
  intros Hfast (Hg & Ht & Hstate & Hconn) Hinv Hans Hstep Hm.
  destruct ev as [ids | | msg | d | | action | |]; simpl in Hstep; try done.
  - (* a DO_TURN_ACK *)
    injection Hstep as <-. destruct Hans as (Herr & Hparse & Hlt).
    rewrite Ht, drop_app_length in Hlt.
    destruct Hinv as (H1 & H2 & H3 & H4 & H5 & H6).
    destruct (decide (turnNumber l + 1 < NbTurnsMax g)) as [Hk | Hk].
    + left. apply gotDoTurnAck_turn in Hm as (-> & tf & -> & Hint & Hn);
        [| by rewrite Hg | done | done | by rewrite Hg].
      eexists _, (t ++ tf). split; [reflexivity |]. split.
      { unfold started, addTrace. simpl. rewrite Ht, <- app_assoc. done. }
      destruct (internal_quiet (gl_client glClient) tf Hint) as (Hs & Hkr & Hex).
      unfold loopInv. simpl.
      rewrite doTurnCount_internal, sentTo_app, kickReasons_app, exitCodes_app,
        notes_app, Hs, Hkr, Hex, !app_nil_r by done.
      split; [done |]. split; [lia |]. split; [lia |].
      split; [done |]. split; [done |].
      rewrite H6, Hn, Hg, seqZ_snoc, fmap_app, join_app by lia. simpl.
      by rewrite app_nil_r, <- app_assoc.
    + right. apply gotDoTurnAck_end in Hm as (-> & Hg' & tf & Ht' & Hint & Hn);
        [| done | done | by rewrite Hg | done].
      split; [done |]. rewrite Hconn in Ht'.
      set (kt := kickTrace _ _ _ _) in Ht'.
      exists (t ++ tf ++ kt ++ [OnExit 0]). split; [by rewrite Hg' |].
      split; [by rewrite Ht', Ht, <- app_assoc |].
      destruct (internal_quiet (gl_client glClient) tf Hint) as (Hs & Hkr & Hex).
      destruct (kickTrace_read (gl_client glClient)
                  (nickname (heap w (gl_client glClient))) "Game is finished")
        as (Ks & Kk & Ke & Kn).
      assert (Hcount : doTurnCount (gl_client glClient) t
                       = Z.to_nat (NbTurnsMax g)) by lia.
      assert (Hlast : turnNumber l = NbTurnsMax g - 1) by lia.
      unfold gameOver, gameNotes.
      rewrite !sentTo_app, !kickReasons_app, !exitCodes_app, !notes_app.
      fold kt in Ks, Kk, Ke, Kn.
      rewrite Hs, Hkr, Hex, Ks, Kk, Ke, Kn, H4, H5, H6, Hn, Hg. simpl.
      rewrite fmap_app, H1, Hcount, Hlast. simpl.
      split; [done |].
      split; [done |]. split; [done |].
      by rewrite app_nil_r, <- app_assoc.
  - (* the send signal *)
    case_decide as Hbuf; [done |]. injection Hstep as <-. left.
    unfold sendDoTurn, sendMessage, json_Marshal in Hm. revert Hm.
    unfold_monad. simpl. rewrite Hconn. simpl. intros Hm.
    injection Hm as <- <-.
    eexists _, (t ++ [Sent (gl_client glClient)
                        (MessageDoTurn "DO_TURN" (playerActions l))]).
    split; [reflexivity |]. split.
    { unfold started. simpl. rewrite Ht, <- app_assoc. done. }
    destruct Hinv as (H1 & H2 & H3 & H4 & H5 & H6).
    assert (Hsent : sentTo (gl_client glClient)
                      [Sent (gl_client glClient)
                         (MessageDoTurn "DO_TURN" (playerActions l))]
                    = [MessageDoTurn "DO_TURN" (playerActions l)])
      by (simpl; by rewrite decide_True).
    assert (Hone : doTurnCount (gl_client glClient)
                     [Sent (gl_client glClient)
                        (MessageDoTurn "DO_TURN" (playerActions l))] = 1%nat)
      by (unfold doTurnCount; by rewrite Hsent).
    unfold loopInv. simpl.
    rewrite doTurnCount_app, sentTo_app, kickReasons_app, exitCodes_app,
      notes_app, fmap_app, H1, H4, H5, H6, Hsent, Hone. simpl.
    rewrite !app_nil_r.
    split.
    { rewrite Nat.add_1_r, replicate_S_end. done. }
    split; [lia | done].
  - (* a player action *)
    destruct (ready (playerAction glClient)); [| done]. injection Hstep as <-.
    left. revert Hm. unfold checkPlayerCount. unfold_monad. simpl.
    rewrite Hg, Hfast. intros Hm. injection Hm as <- <-.
    eexists _, t. split; [reflexivity |]. split; [done |].
    destruct Hinv as (H1 & H2 & H3 & H4 & H5 & H6).
    unfold loopInv. simpl. repeat split; try done; lia.
  - (* a player disconnection *)
    destruct (ready (playerDisconnected glClient)); [| done].
    injection Hstep as <-.
    left. revert Hm. unfold checkPlayerCount. unfold_monad. simpl.
    rewrite Hg, Hfast. intros Hm. injection Hm as <- <-.
    eexists _, t. split; [reflexivity |]. split; [done |]. done.
  - (* a timer delivers *)
    case_decide as Htimer; [| done]. injection Hstep as <-.
    destruct Htimer as (Htimers & Hbuf).
    left. unfold mret, M_ret in Hm. injection Hm as <- <-.
    eexists _, t. split; [reflexivity |]. split; [done |].
    destruct Hinv as (H1 & H2 & H3 & H4 & H5 & H6).
    unfold loopInv. simpl. repeat split; try done; lia.
Qed.

Lemma run_cons glClient ph ev evs w :
  run glClient ph (ev :: evs) w
  = match step glClient ph ev with
    | None => None
    | Some m =>
        match m w with
        | (Ok ph', w') => run glClient ph' evs w'
        | (r, w') => Some (r, w')
        end
    end.
Proof. reflexivity. Qed.

Lemma answersOnly_cons glClient base ph ev evs w :
  answersOnly glClient base ph (ev :: evs) w
  = (answers glClient base ph ev w
     ∧ match step glClient ph ev with
       | Some m =>
           match m w with
           | (Ok ph', w') => answersOnly glClient base ph' evs w'
           | _ => True
           end
       | None => True
       end).
Proof. reflexivity. Qed.

Lemma drain_run glClient base evs : ∀ w w',
  answersOnly glClient base WaitFinition evs w →
  run glClient WaitFinition evs w = Some (Ok WaitFinition, w') →
  w' = w.
Proof.
  induction evs as [| ev evs IH]; intros w w' Hans Hrun; simpl in *.
  - by simplify_eq.
  - destruct Hans as (Hev & Hrest).
    destruct ev; simpl in *; try done;
      repeat case_match; simplify_eq; unfold mret, M_ret in *; simplify_eq;
      by apply IH.
Qed.

Lemma loop_run glClient g t0 evs : ∀ l w t w',
  Fast g = false →
  started glClient g t0 w t →
  loopInv (gl_client glClient) g l t →
  answersOnly glClient (length t0) (InTurnLoop l) evs w →
  run glClient (InTurnLoop l) evs w = Some (Ok WaitFinition, w') →
  ∃ t', globalState w' = g ∧ trace w' = t0 ++ t'
        ∧ gameOver (gl_client glClient) g t'.
Proof.
  induction evs as [| ev evs IH]; intros l w t w' Hfast Hst Hinv Hans Hrun.
  - simpl in Hrun. by simplify_eq.
  - rewrite run_cons in Hrun. rewrite answersOnly_cons in Hans.
    destruct Hans as (Hev & Hrest).
    destruct (step glClient (InTurnLoop l) ev) as [m |] eqn:Hstep; [| done].
    destruct (m w) as [[ph1 | |] w1] eqn:Hm; [| done | done].
    destruct (loop_step _ _ _ _ _ _ _ _ _ _ Hfast Hst Hinv Hev Hstep Hm)
      as [(l' & t' & -> & Hst' & Hinv') | (-> & t' & Hg' & Ht' & Hover)].
    + by eapply IH.
    + apply (drain_run _ (length t0)) in Hrun; [| done]. subst w'. eauto.
Qed.

(** The start step, when it returns with a socket that takes DO_INIT. *)
Lemma startGame_returns glClient playerIDs w ph w' :
  connOk (heap w (gl_client glClient)) = true →
  startGame glClient playerIDs w = (Ok ph, w') →
  (∃ n info, ph = WaitDoInitAck n info)
  ∧ heap w' = heap w
  ∧ ∃ n, trace w'
         = trace w ++ [MutexLock;
                       Sent (gl_client glClient)
                         (MessageDoInit "DO_INIT" n (NbTurnsMax (globalState w)));
                       MutexUnlock].
Proof.
  intros Hconn. unfold startGame. unfold_monad. simpl.
  destruct (assignPlayerIDs _ _ _) as [ps |]; [| done]. simpl.
  unfold sendDoInit, sendMessage, json_Marshal. unfold_monad. simpl.
  rewrite Hconn. simpl. intros H. injection H as <- <-. simpl.
  split; [eauto |]. split; [done |]. eexists. by rewrite <- !app_assoc.
Qed.

(** A valid DO_INIT_ACK, when the step returns: GAME_STARTS goes to
    everyone, then (in normal mode, after the pause) the first DO_TURN is
    sent with no action. *)
Lemma gotDoInitAck_returns glClient n info msg w ph w' :
  Fast (globalState w) = false →
  (readDoInitAckMessage (content msg)).2 = None →
  connOk (heap w (gl_client glClient)) = true →
  gotDoInitAck glClient n info msg w = (Ok ph, w') →
  ph = InTurnLoop (mkTurnLoop n info 0 [] 0 0)
  ∧ ∃ t d, w' = addTrace (t ++ [Sleep d;
                                Sent (gl_client glClient)
                                  (MessageDoTurn "DO_TURN" [])]) w
           ∧ Forall internal t
           ∧ notes t = GameStartsOn <$> channels gameStarts (globalState w).
Proof.
  intros Hfast Hparse Hconn. unfold gotDoInitAck.
  destruct (readDoInitAckMessage (content msg)) as [ack e]. simpl in Hparse.
  subst e. unfold mbind at 1, M_bind at 1.
  destruct (fanOutGameStarts n info ack w) as [[[] | |] w1] eqn:Hfan; try done.
  apply fanOutGameStarts_returns in Hfan as (t & -> & Hint & Hnotes).
  unfold sendDoTurn, sendMessage, json_Marshal, addTrace. unfold_monad. simpl.
  rewrite Hfast. simpl. rewrite Hconn. simpl. intros H. injection H as <- <-.
  split; [done |]. exists t. eexists. split; [| done].
  by rewrite <- !app_assoc.
Qed.

(** The TURN fan-out in either mode, when it returns: the same sends; in
    fast mode the send signal may be posted besides. *)
Lemma fanOutTurn_notes l ack w l' w' :
  fanOutTurn l ack w = (Ok l', w') →
  turnNumber l' = turnNumber l
  ∧ ∃ t, w' = addTrace t w ∧ Forall internal t
         ∧ notes t = (λ ch, TurnOn ch (turnNumber l - 1))
                     <$> channels newTurn (globalState w).
Proof.
  unfold fanOutTurn. unfold_monad. simpl. intros H.
  destruct (forEach (Players (globalState w)) _ _) as [[[] | |] w1] eqn:H1;
    try done.
  apply forEach_chanSend in H1. subst w1.
  destruct (forEach (Visus (globalState w)) _ _) as [[[] | |] w2] eqn:H2;
    try done.
  apply forEach_chanSend in H2. subst w2. simpl in H.
  assert (Hl : turnNumber l' = turnNumber l
               ∧ trace w' = ((trace w ++ [MutexLock])
                             ++ omap (λ x, (λ ch, SendNewTurn ch
                                   (mkMessageTurn "TURN" (turnNumber l - 1)
                                      (AckGameState ack) [])) <$> newTurn x)
                                  (Players (globalState w)))
                            ++ omap (λ x, (λ ch, SendNewTurn ch
                                   (mkMessageTurn "TURN" (turnNumber l - 1)
                                      (AckGameState ack) (playersInfo l)))
                                  <$> newTurn x) (Visus (globalState w))
                            ++ [MutexUnlock]
               ∧ globalState w' = globalState w ∧ heap w' = heap w
               ∧ nextChan w' = nextChan w).
  { destruct (Fast (globalState w) && _); simpl in H.
    - unfold postSendDoTurn in H. case_decide; simpl in H; [| done].
      injection H as <- <-. simpl. by rewrite <- !app_assoc.
    - injection H as <- <-. simpl. by rewrite <- !app_assoc. }
  destruct Hl as (Hk & Ht & Hg & Hh & Hc). split; [done |].
  eexists. split.
  { destruct w'. unfold addTrace. simpl in *. subst.
    rewrite <- !app_assoc. reflexivity. }
  split.
  { apply Forall_app. split; [by repeat constructor |].
    apply Forall_app. split; [by apply internal_fan |].
    apply Forall_app. split; [by apply internal_fan | by repeat constructor]. }
  rewrite !notes_app. simpl. rewrite app_nil_r.
  unfold channels. rewrite omap_app, fmap_app.
  f_equal; by apply notes_fan.
Qed.

(** What a valid DO_TURN_ACK triggers, in either mode, when [turnNumber]
    acknowledgements came before it. *)
Lemma gotDoTurnAck_fanout glClient l msg w ph' w' :
  err msg = None →
  (readDoTurnAckMessage (content msg) (initialNbPlayers l)).2 = None →
  state (heap w (gl_client glClient)) ≠ CLIENT_KICKED →
  gotDoTurnAck glClient l msg w = (Ok ph', w') →
  ∃ t, trace w' = trace w ++ t
       ∧ if decide (turnNumber l + 1 < NbTurnsMax (globalState w))
         then notes t = (λ ch, TurnOn ch (turnNumber l))
                        <$> channels newTurn (globalState w)
              ∧ kickReasons t = [] ∧ exitCodes t = []
              ∧ ∃ l', ph' = InTurnLoop l' ∧ turnNumber l' = turnNumber l + 1
         else notes t = GameEndsOn <$> channels gameEnds (globalState w)
              ∧ kickReasons t = ["Game is finished"] ∧ exitCodes t = [0]
              ∧ ph' = WaitFinition.
Proof.
  intros Herr Hparse Hstate Hm.
  destruct (decide (turnNumber l + 1 < NbTurnsMax (globalState w))) as [Hk | Hk].
  - revert Hm. unfold gotDoTurnAck. rewrite Herr.
    destruct (readDoTurnAckMessage _ _) as [ack e]. simpl in Hparse. subst e.
    unfold mbind at 1, M_bind at 1, getGlobalState. simpl.
    rewrite decide_True by done.
    unfold mbind at 1, M_bind at 1.
    destruct (fanOutTurn _ ack w) as [[l' | |] w1] eqn:Hfan; try done.
    apply fanOutTurn_notes in Hfan as (Hl' & t & -> & Hint & Hn).
    simpl in Hl', Hn.
    destruct (internal_quiet (gl_client glClient) t Hint) as (_ & Hkr & Hex).
    intros Hm. exists t.
    assert (Hw : w' = addTrace t w ∧ ∃ l'', ph' = InTurnLoop l''
                                            ∧ turnNumber l'' = turnNumber l + 1).
    { destruct (negb _); unfold mret, M_ret in Hm; injection Hm as <- <-;
        (split; [done |]); eexists; (split; [reflexivity |]); simpl; lia. }
    destruct Hw as (-> & Hph). split; [done |].
    rewrite Hn. replace (turnNumber l + 1 - 1) with (turnNumber l) by lia. done.
  - apply gotDoTurnAck_end in Hm as (-> & Hg' & tf & Ht' & Hint & Hn);
      [| done..].
    eexists. split; [exact Ht' |].
    destruct (internal_quiet (gl_client glClient) tf Hint) as (_ & Hkr & Hex).
    rewrite !notes_app, !kickReasons_app, !exitCodes_app, Hn, Hkr, Hex.
    unfold kickTrace. simpl.
    destruct (connOk _); simpl; by rewrite ?app_nil_r.
Qed.

(** ** Progress of a normal-mode game *)

Lemma forEach_chanSend_made {A} (f : A → option Chan) (e : A → Chan → Effect) l :
  Forall (λ x, is_Some (f x)) l →
  ∀ w, ∃ w', forEach l (λ x, chanSend (f x) (e x)) w = (Ok tt, w').
Proof.
  induction 1 as [| x l [ch Hx] _ IH]; intros w; simpl.
  - unfold mret, M_ret. eauto.
  - unfold mbind, M_bind, chanSend. rewrite Hx. simpl. apply IH.
Qed.

Lemma made_channels g (f : PlayerOrVisuClient → option Chan) :
  Forall channelsMade (Players g ++ Visus g) →
  (∀ p, channelsMade p → is_Some (f p)) →
  Forall (λ p, is_Some (f p)) (Players g)
  ∧ Forall (λ p, is_Some (f p)) (Visus g).
Proof.
  intros Hmade Hf. apply Forall_app in Hmade as (Hp & Hv).
  split; eapply Forall_impl; eauto.
Qed.

Lemma fanOutGameStarts_ok n info ack w :
  Forall channelsMade (Players (globalState w) ++ Visus (globalState w)) →
  ∃ w', fanOutGameStarts n info ack w = (Ok tt, w').
Proof.
  intros Hmade.
  destruct (made_channels _ gameStarts Hmade) as (Hp & Hv); [by intros p (? & _) |].
  unfold fanOutGameStarts. unfold_monad. simpl.
  edestruct (forEach_chanSend_made gameStarts) as (w1 & ->); [exact Hp |].
  edestruct (forEach_chanSend_made gameStarts) as (w2 & ->); [exact Hv |].
  eauto.
Qed.

Lemma fanOutGameEnds_ok ack w :
  Forall channelsMade (Players (globalState w) ++ Visus (globalState w)) →
  ∃ w', fanOutGameEnds ack w = (Ok tt, w').
Proof.
  intros Hmade.
  destruct (made_channels _ gameEnds Hmade) as (Hp & Hv);
    [by intros p (_ & _ & ?) |].
  unfold fanOutGameEnds. unfold_monad. simpl.
  edestruct (forEach_chanSend_made gameEnds) as (w1 & ->); [exact Hp |].
  edestruct (forEach_chanSend_made gameEnds) as (w2 & ->); [exact Hv |].
  eauto.
Qed.

Lemma fanOutTurn_ok l ack w :
  Fast (globalState w) = false →
  Forall channelsMade (Players (globalState w) ++ Visus (globalState w)) →
  ∃ l' w', fanOutTurn l ack w = (Ok l', w').
Proof.
  intros Hfast Hmade.
  destruct (made_channels _ newTurn Hmade) as (Hp & Hv);
    [by intros p (_ & ? & _) |].
  unfold fanOutTurn. unfold_monad. simpl. rewrite Hfast. simpl.
  edestruct (forEach_chanSend_made newTurn) as (w1 & ->); [exact Hp |].
  edestruct (forEach_chanSend_made newTurn) as (w2 & ->); [exact Hv |].
  eauto.
Qed.

Lemma doTurnAck_valid n :
  0 ≤ n →
  err doTurnAck = None
  ∧ readDoTurnAckMessage (content doTurnAck) n
    = (mkMessageDoTurnAck (-1) (JObject "{}"), None).
Proof.
  intros Hn. split; [done |]. unfold readDoTurnAckMessage. simpl.
  destruct (Z.ltb_spec (-1) n); [done | lia].
Qed.

Lemma gotDoTurnAck_ok glClient l w :
  Fast (globalState w) = false →
  Forall channelsMade (Players (globalState w) ++ Visus (globalState w)) →
  0 ≤ initialNbPlayers l →
  ∃ ph' w', gotDoTurnAck glClient l doTurnAck w = (Ok ph', w').
Proof.
  intros Hfast Hmade Hn. unfold gotDoTurnAck.
  destruct (doTurnAck_valid _ Hn) as (-> & ->).
  unfold mbind at 1, M_bind at 1, getGlobalState. simpl.
  case_decide.
  - unfold mbind at 1, M_bind at 1.
    destruct (fanOutTurn_ok
                (mkTurnLoop (initialNbPlayers l) (playersInfo l)
                   (turnNumber l + 1) (playerActions l) (sendDoTurnToGL l)
                   (timers l))
                (mkMessageDoTurnAck (-1) (JObject "{}")) w Hfast Hmade)
      as (l' & w' & ->).
    rewrite Hfast. simpl. unfold mret, M_ret. eauto.
  - unfold mbind at 1, M_bind at 1. simpl. unfold mret at 1, M_ret at 1.
    unfold mbind at 1, M_bind at 1.
    destruct (fanOutGameEnds_ok (mkMessageDoTurnAck (-1) (JObject "{}")) w Hmade)
      as (w1 & ->).
    unfold mbind at 1, M_bind at 1.
    destruct (Kick_globalState (gl_client glClient) "Game is finished" w1)
      as (w2 & -> & _).
    unfold_monad. eauto.
Qed.

Lemma answers_doTurnAck glClient g t0 l w t :
  started glClient g t0 w t →
  loopInv (gl_client glClient) g l t →
  timers l = 0%nat → sendDoTurnToGL l = 0%nat → 0 ≤ initialNbPlayers l →
  answers glClient (length t0) (InTurnLoop l) (RecvIncoming doTurnAck) w.
Proof.
  intros (_ & Ht & _) (_ & Hcount & _) Htimers Hbuf Hn. unfold answers.
  destruct (doTurnAck_valid _ Hn) as (Herr & ->).
  split; [done |]. split; [done |].
  rewrite Ht, drop_app_length. lia.
Qed.

Lemma loop_progress glClient g t0 r : ∀ l w t,
  Fast g = false →
  Forall channelsMade (Players g ++ Visus g) →
  started glClient g t0 w t →
  loopInv (gl_client glClient) g l t →
  timers l = 0%nat → sendDoTurnToGL l = 0%nat → 0 ≤ initialNbPlayers l →
  turnNumber l + 1 + Z.of_nat r = NbTurnsMax g →
  answersOnly glClient (length t0) (InTurnLoop l) (turns r) w
  ∧ ∃ w', run glClient (InTurnLoop l) (turns r) w = Some (Ok WaitFinition, w').
Proof.
  induction r as [| r IH]; intros l w t Hfast Hmade Hst Hinv Htimers Hbuf Hn Hr.
  - pose proof (answers_doTurnAck _ _ _ _ _ _ Hst Hinv Htimers Hbuf Hn) as Hans.
    destruct Hst as (Hg & Ht & Hstate & Hconn).
    destruct (gotDoTurnAck_ok glClient l w) as (ph' & w' & Hm);
      [by rewrite Hg | by rewrite Hg | done |].
    pose proof Hm as Hend.
    destruct (doTurnAck_valid _ Hn) as (Herr & Hparse).
    apply gotDoTurnAck_end in Hend as (-> & _);
      [| done | by rewrite Hparse | rewrite Hg; lia | done].
    assert (Hs : step glClient (InTurnLoop l) (RecvIncoming doTurnAck)
                 = Some (gotDoTurnAck glClient l doTurnAck)) by reflexivity.
    change (turns 0) with [RecvIncoming doTurnAck].
    rewrite answersOnly_cons, run_cons, Hs, Hm.
    split; [done |]. by exists w'.
  - pose proof (answers_doTurnAck _ _ _ _ _ _ Hst Hinv Htimers Hbuf Hn) as Hans.
    pose proof Hst as (Hg & Ht & Hstate & Hconn).
    destruct (gotDoTurnAck_ok glClient l w) as (ph1 & w1 & Hm);
      [by rewrite Hg | by rewrite Hg | done |].
    destruct (doTurnAck_valid _ Hn) as (Herr & Hparse).
    pose proof Hm as Hturn.
    apply gotDoTurnAck_turn in Hturn as (Hph1 & _);
      [| by rewrite Hg | done | by rewrite Hparse | rewrite Hg; lia].
    (* the acknowledgement *)
    destruct (loop_step glClient g t0 l (RecvIncoming doTurnAck) w t
                (gotDoTurnAck glClient l doTurnAck) ph1 w1)
      as [(l1 & t1 & El1 & Hst1 & Hinv1) | (Habs & _)];
      [done.. | | subst ph1; done].
    rewrite Hph1 in El1. injection El1 as <-.
    (* the timer *)
    set (l1 := mkTurnLoop (initialNbPlayers l) (playersInfo l) (turnNumber l + 1)
                 (playerActions l) (sendDoTurnToGL l) (S (timers l))) in *.
    set (l2 := mkTurnLoop (initialNbPlayers l1) (playersInfo l1) (turnNumber l1)
                 (playerActions l1) 1 (timers l1 - 1)).
    assert (Hs2 : step glClient (InTurnLoop l1) TimerPost
                  = Some (mret (InTurnLoop l2))).
    { simpl. rewrite decide_True; [done |]. simpl. by rewrite Hbuf. }
    destruct (loop_step glClient g t0 l1 TimerPost w1 t1
                (mret (InTurnLoop l2)) (InTurnLoop l2) w1)
      as [(l2' & t2 & El2 & Hst2 & Hinv2) | (Habs & _)];
      [done.. | | done].
    injection El2 as <-.
    (* the send signal *)
    set (l3 := mkTurnLoop (initialNbPlayers l2) (playersInfo l2) (turnNumber l2)
                 (take 0 (playerActions l2)) (sendDoTurnToGL l2 - 1) (timers l2)).
    assert (Hs3 : ∃ w3, step glClient (InTurnLoop l2) RecvSendDoTurn
                        = Some (_ ← sendDoTurn glClient (playerActions l2);
                                mret (InTurnLoop l3))
                        ∧ (_ ← sendDoTurn glClient (playerActions l2);
                           mret (InTurnLoop l3)) w1 = (Ok (InTurnLoop l3), w3)).
    { destruct Hst2 as (_ & _ & _ & Hconn2).
      unfold sendDoTurn, sendMessage, json_Marshal. unfold_monad. simpl.
      rewrite Hconn2. simpl. eauto. }
    destruct Hs3 as (w3 & Hs3 & Hm3).
    destruct (loop_step glClient g t0 l2 RecvSendDoTurn w1 t2 _ _ w3
                Hfast Hst2 Hinv2 I Hs3 Hm3)
      as [(l3' & t3 & El3 & Hst3 & Hinv3) | (Habs & _)]; [| done].
    injection El3 as <-.
    destruct (IH l3 w3 t3) as (Hans3 & w' & Hrun3);
      [done | done | done | done | simpl; by rewrite Htimers | done | done
       | simpl; lia |].
    assert (Hs1 : step glClient (InTurnLoop l) (RecvIncoming doTurnAck)
                  = Some (gotDoTurnAck glClient l doTurnAck)) by reflexivity.
    assert (Hm2 : mret (M := M) (InTurnLoop l2) w1 = (Ok (InTurnLoop l2), w1))
      by reflexivity.
    change (turns (S r))
      with (RecvIncoming doTurnAck :: TimerPost :: RecvSendDoTurn :: turns r).
    rewrite answersOnly_cons, run_cons, Hs1, Hm, Hph1. fold l1.
    rewrite answersOnly_cons, run_cons, Hs2, Hm2.
    rewrite answersOnly_cons, run_cons, Hs3, Hm3.
    split; [| by exists w'].
    split; [exact Hans |]. split; [exact I |]. split; [exact I | exact Hans3].
Qed.

Lemma assignPlayerIDs_made playerIDs players : ∀ i ps,
  assignPlayerIDs playerIDs i players = Some ps →
  Forall channelsMade players → Forall channelsMade ps.
Proof.
  induction players as [| p players IH]; intros i ps Hps Hmade; simpl in Hps.
  - by simplify_eq.
  - destruct (playerIDs !! i) as [id |]; [| done]. simpl in Hps.
    destruct (assignPlayerIDs playerIDs (S i) players) as [ps' |] eqn:Hps';
      [| done].
    simpl in Hps. simplify_eq.
    inversion_clear Hmade as [| ? ? Hp Hrest].
    constructor; [exact Hp | by eapply IH].
Qed.

Lemma startGame_coordinated glClient playerIDs :
  respects coordinated (startGame glClient playerIDs).
Proof.
  unfold_coordinator. respects_tac coordinated.
  all: apply (respects_modify coordinated); intros g0;
    unfold coordinated; simpl; auto 10.
Qed.

(** The start step returns when [rand.Perm] gave enough identifiers and
    the socket takes DO_INIT; the players keep their channels. *)
Lemma startGame_ok glClient playerIDs w :
  (length (Players (globalState w)) ≤ length playerIDs)%nat →
  connOk (heap w (gl_client glClient)) = true →
  Forall channelsMade (Players (globalState w) ++ Visus (globalState w)) →
  ∃ n info w1,
    startGame glClient playerIDs w = (Ok (WaitDoInitAck n info), w1)
    ∧ 0 ≤ n
    ∧ Forall channelsMade (Players (globalState w1) ++ Visus (globalState w1)).
Proof.
  intros Hlen Hconn Hmade. apply Forall_app in Hmade as (Hp & Hv).
  destruct (assignPlayerIDs_spec (Players (globalState w)) playerIDs 0)
    as (ps & Hassign & _); [lia |].
  pose proof (assignPlayerIDs_made _ _ _ _ Hassign Hp) as Hps.
  unfold startGame. unfold_monad. simpl. rewrite Hassign. simpl.
  unfold sendDoInit, sendMessage, json_Marshal. unfold_monad. simpl.
  rewrite Hconn. simpl. eexists _, _, _. split; [reflexivity |].
  split; [lia |]. simpl. apply Forall_app. split; [| done].
  apply Forall_fmap. eapply Forall_impl; [exact Hps |]. by intros p.
Qed.

Lemma doInitAck_valid :
  err doInitAck = None
  ∧ readDoInitAckMessage (content doInitAck)
    = (mkMessageDoInitAck (JObject "{}"), None).
Proof. split; reflexivity. Qed.

Lemma gotDoInitAck_ok glClient n info w :
  Forall channelsMade (Players (globalState w) ++ Visus (globalState w)) →
  ∃ ph w', gotDoInitAck glClient n info doInitAck w = (Ok ph, w').
Proof.
  intros Hmade. unfold gotDoInitAck.
  destruct doInitAck_valid as (_ & ->).
  unfold mbind at 1, M_bind at 1.
  destruct (fanOutGameStarts_ok n info (mkMessageDoInitAck (JObject "{}")) w Hmade)
    as (w1 & ->).
  unfold sendDoTurn, sendMessage, json_Marshal. unfold_monad. simpl.
  destruct (negb _); simpl; destruct (connOk _); simpl; eauto.
Qed.

(** From the start signal to the turn loop: DO_INIT, a valid DO_INIT_ACK,
    GAME_STARTS to everyone, the first DO_TURN. *)
Lemma opening glClient playerIDs msg w n info w1 ph2 w2 :
  Fast (globalState w) = false →
  1 ≤ NbTurnsMax (globalState w) →
  state (heap w (gl_client glClient)) ≠ CLIENT_KICKED →
  connOk (heap w (gl_client glClient)) = true →
  startGame glClient playerIDs w = (Ok (WaitDoInitAck n info), w1) →
  (readDoInitAckMessage (content msg)).2 = None →
  gotDoInitAck glClient n info msg w1 = (Ok ph2, w2) →
  Fast (globalState w1) = false
  ∧ NbTurnsMax (globalState w1) = NbTurnsMax (globalState w)
  ∧ ph2 = InTurnLoop (mkTurnLoop n info 0 [] 0 0)
  ∧ ∃ t, started glClient (globalState w1) (trace w) w2 t
         ∧ loopInv (gl_client glClient) (globalState w1)
             (mkTurnLoop n info 0 [] 0 0) t.
Proof.
  intros Hfast HN Hstate Hconn Hstart Hparse Hinit.
  pose proof (startGame_coordinated glClient playerIDs w) as Hco.
  rewrite Hstart in Hco. simpl in Hco.
  destruct Hco as (_ & _ & _ & _ & _ & HN1 & Hfast1).
  apply startGame_returns in Hstart as (_ & Hheap1 & n' & Ht1); [| done].
  apply gotDoInitAck_returns in Hinit as (-> & tg & d & -> & Hint & Hn);
    [| by rewrite Hfast1 | done | by rewrite Hheap1].
  split; [by rewrite Hfast1 |]. split; [done |]. split; [done |].
  remember (globalState w1) as g eqn:Eg.
  remember (gl_client glClient) as c eqn:Ec.
  remember ([MutexLock; Sent c (MessageDoInit "DO_INIT" n'
                                  (NbTurnsMax (globalState w)));
             MutexUnlock]
            ++ tg ++ [Sleep d; Sent c (MessageDoTurn "DO_TURN" [])])
    as t eqn:Et.
  destruct (internal_quiet c tg Hint) as (Hs & Hkr & Hex).
  assert (Hsent : sentTo c t = [MessageDoInit "DO_INIT" n'
                                  (NbTurnsMax (globalState w));
                                MessageDoTurn "DO_TURN" []]).
  { rewrite Et, !sentTo_app, Hs. simpl. by rewrite !decide_True. }
  assert (Hquiet : kickReasons t = [] ∧ exitCodes t = []
                   ∧ notes t = GameStartsOn <$> channels gameStarts g).
  { rewrite Et, !kickReasons_app, !exitCodes_app, !notes_app, Hkr, Hex, Hn.
    simpl. by rewrite !app_nil_r. }
  destruct Hquiet as (Hkt & Het & Hnt).
  exists t. split.
  - unfold started, addTrace. simpl. rewrite <- Ec, Hheap1, Ht1.
    split; [done |]. split; [| done]. rewrite Et. by rewrite <- !app_assoc.
  - unfold loopInv, doTurnCount. rewrite Hsent, Hkt, Het, Hnt. simpl.
    split; [done |]. split; [done |]. split; [lia |].
    by rewrite !app_nil_r.
Qed.

Lemma game_progress glClient playerIDs r w :
  Fast (globalState w) = false →
  NbTurnsMax (globalState w) = Z.of_nat (S r) →
  ready (start glClient) = true →
  (length (Players (globalState w)) ≤ length playerIDs)%nat →
  Forall channelsMade (Players (globalState w) ++ Visus (globalState w)) →
  state (heap w (gl_client glClient)) ≠ CLIENT_KICKED →
  connOk (heap w (gl_client glClient)) = true →
  answersOnly glClient (length (trace w)) WaitStart (game playerIDs r) w
  ∧ ∃ w', run glClient WaitStart (game playerIDs r) w
          = Some (Ok WaitFinition, w').
Proof.
  intros Hfast HN Hready Hlen Hmade Hstate Hconn.
  destruct (startGame_ok glClient playerIDs w Hlen Hconn Hmade)
    as (n & info & w1 & Hstart & Hn & Hmade1).
  destruct (gotDoInitAck_ok glClient n info w1 Hmade1) as (ph2 & w2 & Hinit).
  destruct doInitAck_valid as (Herr & Hparse).
  destruct (opening glClient playerIDs doInitAck w n info w1 ph2 w2)
    as (Hfast1 & HN1 & -> & t & Hst & Hinv);
    [done | lia | done | done | done | by rewrite Hparse | done |].
  destruct (loop_progress glClient (globalState w1) (trace w) r
              (mkTurnLoop n info 0 [] 0 0) w2 t)
    as (Hans & w' & Hrun); [done.. | simpl; lia |].
  assert (Hs1 : step glClient WaitStart (RecvStart playerIDs)
                = Some (startGame glClient playerIDs))
    by (simpl; by rewrite Hready).
  assert (Hs2 : step glClient (WaitDoInitAck n info) (RecvIncoming doInitAck)
                = Some (gotDoInitAck glClient n info doInitAck)) by reflexivity.
  unfold game.
  rewrite answersOnly_cons, run_cons, Hs1, Hstart.
  rewrite answersOnly_cons, run_cons, Hs2, Hinit.
  split; [| by exists w'].
  split; [exact I |]. split; [| exact Hans].
  unfold answers. by rewrite Hparse.
Qed.

(** ** The game as the Game Logic sees it *)

(** X20. In normal (non-fast) mode, with at least one turn to
    play, a Game Logic client that is connected, not kicked, and only
    answers (nothing before DO_INIT, a valid DO_INIT_ACK in time, a valid
    DO_TURN_ACK for each DO_TURN received): whenever the coordinator gets to
    the end of the game, it has written on the Game Logic socket DO_INIT,
    then exactly nbTurnsMax DO_TURN, then KICK with reason "Game is
    finished"; it has signalled exit code 0 and no other; and the handlers
    have been sent GAME_STARTS, then one TURN round for each turn number
    0 .. nbTurnsMax - 2, then GAME_ENDS, each to every Player and Visu.
    In either mode, the DO_TURN_ACK that follows [turnNumber] earlier ones
    makes the coordinator fan out TURN with that turn number to every
    Player and Visu when [turnNumber + 1 < nbTurnsMax], and otherwise fan
    out GAME_ENDS, kick the Game Logic with "Game is finished" and signal
    exit code 0.
    Such games exist for every nbTurnsMax >= 1: when the start signal is
    ready, [rand.Perm] gave an identifier for each Player and every Player
    and Visu has its channels, the schedule [game playerIDs r] (start,
    DO_INIT_ACK, then a DO_TURN_ACK per turn with the timer and the send
    signal in between) is one where the Game Logic only answers, and the
    coordinator runs it to the end of the game. *)
Theorem coordinator_game (glClient : GameLogicClient) :
  (∀ (evs : list Event) (w w' : World),
     Fast (globalState w) = false →
     1 ≤ NbTurnsMax (globalState w) →
     state (heap w (gl_client glClient)) ≠ CLIENT_KICKED →
     connOk (heap w (gl_client glClient)) = true →
     answersOnly glClient (length (trace w)) WaitStart evs w →
     run glClient WaitStart evs w = Some (Ok WaitFinition, w') →
     ∃ t, trace w' = trace w ++ t
          ∧ frameType <$> sentTo (gl_client glClient) t
            = "DO_INIT"
              :: replicate (Z.to_nat (NbTurnsMax (globalState w))) "DO_TURN"
              ++ ["KICK"]
          ∧ kickReasons t = ["Game is finished"]
          ∧ exitCodes t = [0]
          ∧ notes t = gameNotes (globalState w'))
  ∧ (∀ (l : TurnLoop) (msg : ClientMessage) (w w' : World) (ph' : Phase),
       err msg = None →
       (readDoTurnAckMessage (content msg) (initialNbPlayers l)).2 = None →
       state (heap w (gl_client glClient)) ≠ CLIENT_KICKED →
       step glClient (InTurnLoop l) (RecvIncoming msg)
       = Some (gotDoTurnAck glClient l msg)
       ∧ (gotDoTurnAck glClient l msg w = (Ok ph', w') →
          ∃ t, trace w' = trace w ++ t
               ∧ if decide (turnNumber l + 1 < NbTurnsMax (globalState w))
                 then notes t = (λ ch, TurnOn ch (turnNumber l))
                                <$> channels newTurn (globalState w)
                      ∧ kickReasons t = [] ∧ exitCodes t = []
                      ∧ ∃ l', ph' = InTurnLoop l'
                              ∧ turnNumber l' = turnNumber l + 1
                 else notes t = GameEndsOn <$> channels gameEnds (globalState w)
                      ∧ kickReasons t = ["Game is finished"]
                      ∧ exitCodes t = [0]
                      ∧ ph' = WaitFinition))
  ∧ (∀ (playerIDs : list Z) (r : nat) (w : World),
       Fast (globalState w) = false →
       NbTurnsMax (globalState w) = Z.of_nat (S r) →
       ready (start glClient) = true →
       (length (Players (globalState w)) ≤ length playerIDs)%nat →
       Forall channelsMade (Players (globalState w) ++ Visus (globalState w)) →
       state (heap w (gl_client glClient)) ≠ CLIENT_KICKED →
       connOk (heap w (gl_client glClient)) = true →
       answersOnly glClient (length (trace w)) WaitStart (game playerIDs r) w
       ∧ ∃ w', run glClient WaitStart (game playerIDs r) w
               = Some (Ok WaitFinition, w')).
Proof.
  split; [| split].
  - intros evs w w' Hfast HN Hstate Hconn Hans Hrun.
    destruct evs as [| ev evs]; [simpl in Hrun; by simplify_eq |].
    rewrite run_cons in Hrun. rewrite answersOnly_cons in Hans.
    destruct Hans as (Hev & Hans).
    destruct (step glClient WaitStart ev) as [m |] eqn:Hstep; [| done].
    destruct ev as [ids | | msg | d | | action | |]; simpl in Hstep, Hev;
      try done.
    destruct (ready (start glClient)); [| done]. injection Hstep as <-.
    destruct (startGame glClient ids w) as [[ph1 | |] w1] eqn:Hstart;
      [| done | done].
    destruct (startGame_returns _ _ _ _ _ Hconn Hstart)
      as ((n & info & ->) & _).
    destruct evs as [| ev evs]; [simpl in Hrun; by simplify_eq |].
    rewrite run_cons in Hrun. rewrite answersOnly_cons in Hans.
    destruct Hans as (Hev2 & Hans).
    destruct (step glClient (WaitDoInitAck n info) ev) as [m |] eqn:Hstep;
      [| done].
    destruct ev as [ids' | | msg | d | | action | |]; simpl in Hstep, Hev2;
      try done.
    destruct Hev2 as (Herr & Hparse). rewrite Herr in Hstep.
    injection Hstep as <-.
    destruct (gotDoInitAck glClient n info msg w1) as [[ph2 | |] w2] eqn:Hinit;
      [| done | done].
    destruct (opening glClient ids msg w n info w1 ph2 w2)
      as (Hfast1 & HN1 & -> & t & Hst & Hinv); [done.. |].
    destruct (loop_run glClient (globalState w1) (trace w) evs
                (mkTurnLoop n info 0 [] 0 0) w2 t w')
      as (t' & Hg' & Ht' & Hover); [done.. |].
    destruct Hover as (H1 & H2 & H3 & H4).
    exists t'. rewrite Hg', <- HN1. done.
  - intros l msg w w' ph' Herr Hparse Hstate. split; [done |].
    by apply gotDoTurnAck_fanout.
  - intros playerIDs r w. apply game_progress.
Qed.

(** ** Sample games *)

Lemma coordinator_game_witness :
  run lobbyGameLogic WaitStart normalSchedule (lobbyWorld false 2)
  = Some (Ok WaitFinition, normalGameWorld)
  ∧ ∃ t, trace normalGameWorld = trace (lobbyWorld false 2) ++ t
         ∧ frameType <$> sentTo 7 t = ["DO_INIT"; "DO_TURN"; "DO_TURN"; "KICK"]
         ∧ kickReasons t = ["Game is finished"]
         ∧ exitCodes t = [0]
         ∧ notes t = [GameStartsOn 0; GameStartsOn 3; GameStartsOn 6;
                      TurnOn 1 0; TurnOn 4 0; TurnOn 7 0;
                      GameEndsOn 2; GameEndsOn 5; GameEndsOn 8]
         ∧ ∃ w', run lobbyGameLogic WaitStart (game [1; 0] 2)
                   (lobbyWorld false 3)
                 = Some (Ok WaitFinition, w').
Proof.
  assert (Hrun : run lobbyGameLogic WaitStart normalSchedule (lobbyWorld false 2)
                 = Some (Ok WaitFinition, normalGameWorld))
    by (vm_compute; reflexivity).
  split; [exact Hrun |].
  destruct (coordinator_game lobbyGameLogic) as (Hgame & _ & Hprogress).
  destruct (Hprogress [1; 0] 2%nat (lobbyWorld false 3)) as (_ & Hends);
    [vm_compute; reflexivity | vm_compute; reflexivity | vm_compute; reflexivity
     | vm_compute; lia
     | vm_compute; repeat constructor; eexists; reflexivity
     | vm_compute; discriminate | vm_compute; reflexivity |].
  destruct (Hgame normalSchedule (lobbyWorld false 2) normalGameWorld)
    as (t & Ht & Hframes & Hkick & Hexit & Hnotes);
    [vm_compute; reflexivity | vm_compute; discriminate
     | vm_compute; discriminate | vm_compute; reflexivity
     | vm_compute; repeat split | exact Hrun |].
  exists t. split; [exact Ht |]. split; [exact Hframes |].
  split; [exact Hkick |]. split; [exact Hexit |].
  split; [| exact Hends].
  rewrite Hnotes. vm_compute. reflexivity.
Defined.

(** C3. The code at the failing input: in fast mode, with nbTurnsMax = 2,
    one Player and a Game Logic that only answers, the coordinator writes
    DO_INIT, then three DO_TURN, then KICK "Game is finished", where the
    claim has exactly nbTurnsMax = 2 of them. After the first DO_TURN_ACK
    line 263 posts the send signal because no action is pending, although
    its Player is connected (the comment of line 262 has "if there is no
    player anymore", and lines 205 and 214 compare with the number of
    Players); the Player's answer to TURN 0 then completes the set and
    posts it again. *)
Lemma coordinator_fast_counterexample :
  GameLogic (globalState (soloWorld true 2)) = [soloGameLogic]
  ∧ NbTurnsMax (globalState (soloWorld true 2)) = 2
  ∧ answersOnly soloGameLogic (length (trace (soloWorld true 2))) WaitStart
      fastSchedule (soloWorld true 2)
  ∧ run soloGameLogic WaitStart fastSchedule (soloWorld true 2)
    = Some (Ok WaitFinition, fastGameWorld)
  ∧ frameType
    <$> sentTo 7 (drop (length (trace (soloWorld true 2))) (trace fastGameWorld))
    = ["DO_INIT"; "DO_TURN"; "DO_TURN"; "DO_TURN"; "KICK"]
  ∧ sentTo 7 (drop (length (trace (soloWorld true 2))) (trace fastGameWorld))
    = [MessageDoInit "DO_INIT" 1 2; MessageDoTurn "DO_TURN" [];
       MessageDoTurn "DO_TURN" []; MessageDoTurn "DO_TURN" [actionOf 0 0];
       MessageKick "KICK" "Game is finished"].
Proof.
  split; [vm_compute; reflexivity |]. split; [vm_compute; reflexivity |].
  split; [vm_compute; repeat split |].
  split; [vm_compute; reflexivity |].
  split; vm_compute; reflexivity.
Qed.

(** * Further properties of the code *)

(** ** What a computation appends to the trace *)

Lemma emitsOnly_ret P {A} (a : A) : emitsOnly P (mret a).
Proof. intros w. exists []. by rewrite app_nil_r. Qed.

Lemma emitsOnly_bind P {A B} (m : M A) (f : A → M B) :
  emitsOnly P m → (∀ a, emitsOnly P (f a)) → emitsOnly P (m ≫= f).
Proof.
  intros Hm Hf w. unfold mbind, M_bind.
  destruct (Hm w) as (t1 & Ht1 & HP1).
  destruct (m w) as [[a | |] w1]; simpl in Ht1; [| by exists t1..].
  destruct (Hf a w1) as (t2 & Ht2 & HP2).
  exists (t1 ++ t2). rewrite Ht2, Ht1, app_assoc. split; [done |].
  by apply Forall_app.
Qed.

Lemma emitsOnly_emit (P : Effect → Prop) e : P e → emitsOnly P (emit e).
Proof. intros He w. exists [e]. simpl. split; [done |]. by constructor. Qed.

Lemma emitsOnly_silent P {A} (m : M A) :
  (∀ w, trace (m w).2 = trace w) → emitsOnly P m.
Proof. intros Hm w. exists []. by rewrite app_nil_r. Qed.

Lemma emitsOnly_forEach P {A} (l : list A) body :
  (∀ x, emitsOnly P (body x)) → emitsOnly P (forEach l body).
Proof.
  intros Hb. induction l as [| x l IH]; simpl.
  - apply emitsOnly_ret.
  - apply emitsOnly_bind; [apply Hb | intros _; apply IH].
Qed.

Lemma emitsOnly_chanSend (P : Effect → Prop) ch e :
  (∀ c, P (e c)) → emitsOnly P (chanSend ch e).
Proof.
  intros He. destruct ch as [c |]; simpl.
  - by apply emitsOnly_emit.
  - by apply emitsOnly_silent.
Qed.

Lemma emitsOnly_sendMessage (P : Effect → Prop) c frame :
  P (Sent c frame) → emitsOnly P (sendMessage c frame).
Proof.
  intros He. unfold sendMessage.
  apply emitsOnly_bind; [by apply emitsOnly_silent |]. intros cl.
  destruct (connOk cl).
  - apply emitsOnly_bind; [by apply emitsOnly_emit | intros _; apply emitsOnly_ret].
  - apply emitsOnly_ret.
Qed.

Lemma emitsOnly_Kick (P : Effect → Prop) c reason :
  (∀ nick, P (LogKicking c nick reason)) →
  P (Sent c (MessageKick "KICK" reason)) →
  P (Sleep (500 * Millisecond)) →
  emitsOnly P (Kick c reason).
Proof.
  intros Hlog Hsent Hsleep. unfold Kick.
  apply emitsOnly_bind; [by apply emitsOnly_silent |]. intros cl.
  destruct (decide _); [apply emitsOnly_ret |].
  apply emitsOnly_bind; [by apply emitsOnly_silent |]. intros _.
  apply emitsOnly_bind; [by apply emitsOnly_emit |]. intros _.
  simpl.
  apply emitsOnly_bind; [by apply emitsOnly_sendMessage |]. intros _.
  by apply emitsOnly_emit.
Qed.

Lemma emitsOnly_impl (P Q : Effect → Prop) {A} (m : M A) :
  (∀ e, P e → Q e) → emitsOnly P m → emitsOnly Q m.
Proof.
  intros HPQ Hm w. destruct (Hm w) as (t & Ht & HP).
  exists t. split; [done |]. eapply Forall_impl; eauto.
Qed.

(** ** The mutex *)

Lemma mutexAfter_app b t1 t2 :
  mutexAfter b (t1 ++ t2) = mutexAfter b t1 ≫= λ b', mutexAfter b' t2.
Proof.
  revert b. induction t1 as [| e t1 IH]; intros b; simpl; [done |].
  destruct e, b; simpl; auto.
Qed.

Lemma mutexAfter_noMutex b t : Forall noMutex t → mutexAfter b t = Some b.
Proof.
  induction 1 as [| e t He _ IH]; simpl; [done |].
  destruct e; simpl in He; done.
Qed.

Lemma locks_ret b {A} (a : A) : locks b b (mret a).
Proof. intros w. exists []. by rewrite app_nil_r. Qed.

Lemma locks_bind b1 b2 b3 {A B} (m : M A) (f : A → M B) :
  locks b1 b2 m → (∀ a, locks b2 b3 (f a)) → locks b1 b3 (m ≫= f).
Proof.
  intros Hm Hf w. unfold mbind, M_bind.
  destruct (Hm w) as (t1 & Ht1 & H1).
  destruct (m w) as [[a | |] w1]; simpl in Ht1, H1; [| by exists t1..].
  destruct (Hf a w1) as (t2 & Ht2 & H2).
  exists (t1 ++ t2). rewrite Ht2, Ht1, app_assoc. split; [done |].
  rewrite mutexAfter_app, H1. simpl. done.
Qed.

Lemma locks_lock : locks false true (emit MutexLock).
Proof. intros w. by exists [MutexLock]. Qed.

Lemma locks_unlock : locks true false (emit MutexUnlock).
Proof. intros w. by exists [MutexUnlock]. Qed.

(** Whatever returns and leaves the mutex alone. *)
Lemma locks_quiet b {A} (m : M A) :
  emitsOnly noMutex m → returns m → locks b b m.
Proof.
  intros Hm Hb w. destruct (Hm w) as (t & Ht & HP).
  exists t. split; [done |]. destruct (Hb w) as (a & ->).
  by rewrite (mutexAfter_noMutex _ _ HP).
Qed.

(** Whatever may block is run with the mutex held. *)
Lemma locks_held {A} (m : M A) : emitsOnly noMutex m → locks true true m.
Proof.
  intros Hm w. destruct (Hm w) as (t & Ht & HP).
  exists t. split; [done |].
  rewrite (mutexAfter_noMutex _ _ HP). by destruct ((m w).1).
Qed.

Lemma locks_panic b b' {A} : locks b b' (@panic A).
Proof. intros w. exists []. by rewrite app_nil_r. Qed.

Lemma locks_block b' {A} : locks true b' (@block A).
Proof. intros w. exists []. by rewrite app_nil_r. Qed.

(** ** Computations that return *)

Lemma returns_ret {A} (a : A) : returns (mret a).
Proof. intros w. by exists a. Qed.

Lemma returns_bind {A B} (m : M A) (f : A → M B) :
  returns m → (∀ a, returns (f a)) → returns (m ≫= f).
Proof.
  intros Hm Hf w. unfold mbind, M_bind.
  destruct (Hm w) as (a & Ha). destruct (m w) as [r w1]. simpl in Ha. subst r.
  apply Hf.
Qed.

Lemma returns_emit e : returns (emit e).
Proof. intros w. by exists tt. Qed.

Lemma returns_sendMessage c frame : returns (sendMessage c frame).
Proof.
  intros w. unfold sendMessage. unfold_monad.
  destruct (connOk _); simpl; eauto.
Qed.

Lemma returns_Kick c reason : returns (Kick c reason).
Proof.
  intros w. unfold Kick, sendMessage. unfold_monad.
  destruct (decide _); simpl; [eauto |]. destruct (connOk _); simpl; eauto.
Qed.

Ltac emits_step :=
  first
    [ apply emitsOnly_ret
    | apply emitsOnly_emit
    | apply emitsOnly_Kick; [intros ? | |]
    | apply emitsOnly_sendMessage
    | apply emitsOnly_chanSend; intros ?
    | apply emitsOnly_forEach; intros ?
    | apply emitsOnly_bind; [| intros ?]
    | apply emitsOnly_silent; intros ?; reflexivity ].

Ltac emits_tac :=
  repeat first
    [ emits_step
    | match goal with
      | |- emitsOnly _ (match ?x with _ => _ end) => destruct x
      | |- emitsOnly _ (if ?x then _ else _) => destruct x
      | |- emitsOnly _ (let '(_, _) := ?x in _) => destruct x
      end ].

Ltac returns_step :=
  first
    [ apply returns_ret
    | apply returns_emit
    | apply returns_Kick
    | apply returns_sendMessage
    | apply returns_bind; [| intros ?]
    | (intros ?; eexists; reflexivity) ].

Ltac returns_tac :=
  repeat first
    [ returns_step
    | match goal with
      | |- returns (match ?x with _ => _ end) => destruct x
      | |- returns (if ?x then _ else _) => destruct x
      | |- returns (let '(_, _) := ?x in _) => destruct x
      end ].

Lemma locks_Kick b c reason : locks b b (Kick c reason).
Proof.
  apply locks_quiet; [| apply returns_Kick].
  apply emitsOnly_Kick; done.
Qed.

Lemma locks_sendMessage b c frame : locks b b (sendMessage c frame).
Proof.
  apply locks_quiet; [| apply returns_sendMessage].
  by apply emitsOnly_sendMessage.
Qed.

Lemma locks_emit b e : noMutex e → locks b b (emit e).
Proof.
  intros He. apply locks_quiet; [by apply emitsOnly_emit | apply returns_emit].
Qed.

Lemma locks_silent b {A} (m : M A) :
  (∀ w, trace (m w).2 = trace w) → returns m → locks b b m.
Proof. intros Hm Hr. apply locks_quiet; [by apply emitsOnly_silent | done]. Qed.

Lemma locks_forEach_chanSend {A} (l : list A) (f : A → option Chan) e :
  (∀ x c, noMutex (e x c)) →
  locks true true (forEach l (λ x, chanSend (f x) (e x))).
Proof.
  intros He. apply locks_held. apply emitsOnly_forEach. intros x.
  apply emitsOnly_chanSend. apply He.
Qed.

Lemma locks_postSendDoTurn l : locks true true (postSendDoTurn l).
Proof.
  unfold postSendDoTurn. destruct (decide _);
    [apply locks_ret | apply locks_block].
Qed.

Ltac locks_step :=
  first
    [ apply locks_lock
    | apply locks_unlock
    | apply locks_ret
    | apply locks_panic
    | apply locks_Kick
    | apply locks_sendMessage
    | apply locks_postSendDoTurn
    | apply locks_forEach_chanSend; intros ? ?; exact I
    | apply locks_emit; exact I
    | apply locks_silent; [intros ?; reflexivity | intros ?; eexists; reflexivity]
    | eapply locks_bind; [| intros ?] ].

Ltac locks_tac :=
  repeat first
    [ locks_step
    | match goal with
      | |- locks _ _ (match ?x with _ => _ end) => destruct x
      | |- locks _ _ (if ?x then _ else _) => destruct x
      | |- locks _ _ (let '(_, _) := ?x in _) => destruct x
      end ].

(** Every iteration of the coordinator starts and ends with the mutex
    free; if it blocks, it holds the mutex. *)
Lemma step_locks glClient ph ev m :
  step glClient ph ev = Some m → locks false false m.
Proof.
  intros Hs. destruct ph, ev; simpl in Hs; repeat case_match; simplify_eq.
  all: unfold_coordinator; locks_tac.
Qed.

(** X11. Whatever the schedule, mode and messages, the coordinator takes the
    mutex only when it is free and releases it only when it holds it; it
    never waits in a [select] with the mutex held; and whenever it blocks
    for ever (a send that nobody receives), it does so holding the mutex. *)
Theorem coordinator_mutex (glClient : GameLogicClient) (ph : Phase)
    (evs : list Event) (w w' : World) (r : Result Phase) :
  run glClient ph evs w = Some (r, w') →
  ∃ t, trace w' = trace w ++ t
       ∧ match r with
         | Ok _ => mutexAfter false t = Some false
         | Blocked => mutexAfter false t = Some true
         | Panicked => True
         end.
Proof.
  revert ph w w' r.
  induction evs as [| ev evs IH]; intros ph w w' r Hrun.
  - simpl in Hrun. simplify_eq. exists []. by rewrite app_nil_r.
  - rewrite run_cons in Hrun.
    destruct (step glClient ph ev) as [m |] eqn:Hstep; [| done].
    destruct (step_locks _ _ _ _ Hstep w) as (t1 & Ht1 & H1).
    destruct (m w) as [[ph1 | |] w1]; simpl in Ht1, H1.
    + destruct (IH _ _ _ _ Hrun) as (t2 & Ht2 & H2).
      exists (t1 ++ t2). rewrite Ht2, Ht1, app_assoc. split; [done |].
      rewrite mutexAfter_app, H1. done.
    + simplify_eq. by exists t1.
    + simplify_eq. by exists t1.
Qed.

Lemma coordinator_mutex_witness :
  ∃ t, trace normalGameWorld = trace (lobbyWorld false 2) ++ t
       ∧ mutexAfter false t = Some false.
Proof.
  apply (coordinator_mutex lobbyGameLogic WaitStart normalSchedule
           (lobbyWorld false 2) normalGameWorld (Ok WaitFinition)).
  vm_compute. reflexivity.
Defined.

(** ** The drain loop: [waitGameLogicFinition] *)

Lemma drain_step glClient ev m :
  step glClient WaitFinition ev = Some m →
  (drained glClient ev ∧ m = mret WaitFinition)
  ∨ (ev = RecvCanTerminate ∧ m = mret Returned).
Proof.
  intros Hs. destruct ev; simpl in Hs; repeat case_match; simplify_eq;
    simpl; auto.
Qed.

Lemma run_Returned glClient evs w r w' :
  run glClient Returned evs w = Some (r, w') →
  evs = [] ∧ r = Ok Returned ∧ w' = w.
Proof.
  destruct evs as [| ev evs]; simpl; intros Hrun; [by simplify_eq |].
  by destruct ev.
Qed.

Lemma run_drained glClient evs : ∀ w,
  Forall (drained glClient) evs →
  run glClient WaitFinition evs w = Some (Ok WaitFinition, w).
Proof.
  induction evs as [| ev evs IH]; intros w Hd; [done |].
  inversion_clear Hd as [| ? ? Hev Hrest]. rewrite run_cons.
  destruct ev; simpl in Hev; try done; simpl; rewrite ?Hev; by apply IH.
Qed.

(** X9. [waitGameLogicFinition] writes nothing and changes nothing: it
    swallows what the Game Logic still sends and what the Player handlers
    still forward, and only the terminate signal ends it; after it has
    returned the coordinator takes no further event. *)
Theorem waitGameLogicFinition_drains (glClient : GameLogicClient) :
  (∀ (evs : list Event) (w w' : World) (r : Result Phase),
     run glClient WaitFinition evs w = Some (r, w') →
     w' = w
     ∧ ((r = Ok WaitFinition ∧ Forall (drained glClient) evs)
        ∨ (r = Ok Returned
           ∧ ∃ evs0, evs = evs0 ++ [RecvCanTerminate]
                     ∧ Forall (drained glClient) evs0)))
  ∧ (∀ (evs : list Event) (w : World),
       Forall (drained glClient) evs →
       run glClient WaitFinition evs w = Some (Ok WaitFinition, w)
       ∧ run glClient WaitFinition (evs ++ [RecvCanTerminate]) w
         = Some (Ok Returned, w))
  ∧ (∀ (ev : Event) (evs : list Event) (w : World),
       run glClient Returned (ev :: evs) w = None).
Proof.
  split; [| split].
  - induction evs as [| ev evs IH]; intros w w' r Hrun.
    + simpl in Hrun. simplify_eq. split; [done |]. left. by split.
    + rewrite run_cons in Hrun.
      destruct (step glClient WaitFinition ev) as [m |] eqn:Hs; [| done].
      apply drain_step in Hs as [(Hev & ->) | (-> & ->)];
        unfold mret, M_ret in Hrun.
      * destruct (IH _ _ _ Hrun) as (-> & [(-> & Hd) | (-> & evs0 & -> & Hd)]).
        -- split; [done |]. left. split; [done |]. by constructor.
        -- split; [done |]. right. split; [done |].
           exists (ev :: evs0). split; [done |]. by constructor.
      * apply run_Returned in Hrun as (-> & -> & ->).
        split; [done |]. right. split; [done |]. by exists [].
  - intros evs w Hd. split; [by apply run_drained |].
    revert w. induction evs as [| ev evs IH]; intros w; [done |].
    inversion_clear Hd as [| ? ? Hev Hrest]. simpl app. rewrite run_cons.
    destruct ev; simpl in Hev; try done; simpl; rewrite ?Hev; by apply IH.
  - intros ev evs w. by destruct ev.
Qed.

Lemma drain_world glClient evs : ∀ w w' r,
  run glClient WaitFinition evs w = Some (r, w') →
  w' = w ∧ (r = Ok WaitFinition ∨ r = Ok Returned).
Proof.
  induction evs as [| ev evs IH]; intros w w' r Hrun.
  - simpl in Hrun. simplify_eq. auto.
  - rewrite run_cons in Hrun.
    destruct (step glClient WaitFinition ev) as [m |] eqn:Hs; [| done].
    apply drain_step in Hs as [(Hev & ->) | (-> & ->)];
      unfold mret, M_ret in Hrun.
    + by apply IH.
    + apply run_Returned in Hrun as (-> & -> & ->). auto.
Qed.

(** ** Exit codes *)

Lemma exitCodes_noExit t : Forall noExit t → exitCodes t = [].
Proof.
  induction 1 as [| e t He _ IH]; simpl; [done |].
  destruct e; simpl in He; done.
Qed.

Lemma exits_ret c ph : ph ≠ WaitFinition → exits c (mret ph).
Proof.
  intros Hph w. exists []. rewrite app_nil_r. split; [done |].
  simpl. by destruct ph.
Qed.

Lemma exits_bind c {A} (m : M A) (f : A → M Phase) :
  emitsOnly noExit m → (∀ a, exits c (f a)) → exits c (m ≫= f).
Proof.
  intros Hm Hf w. unfold mbind, M_bind.
  destruct (Hm w) as (t1 & Ht1 & HP1).
  pose proof (exitCodes_noExit _ HP1) as He1.
  destruct (m w) as [[a | |] w1]; simpl in Ht1; [| by exists t1..].
  destruct (Hf a w1) as (t2 & Ht2 & H2).
  exists (t1 ++ t2). rewrite Ht2, Ht1, app_assoc. split; [done |].
  unfold exitsBy in *. rewrite exitCodes_app, He1. simpl.
  destruct ((f a w1).1) as [[] | |]; done.
Qed.

(** [Kick] leaves the client KICKED, whatever its state was. *)
Lemma Kick_state c reason w : state (heap (Kick c reason w).2 c) = CLIENT_KICKED.
Proof.
  destruct (decide (state (heap w c) = CLIENT_KICKED)) as [Hk | Hk].
  - by rewrite Kick_already_kicked.
  - rewrite Kick_not_kicked by done. apply kickedWorld_state.
Qed.

Lemma Kick_noExit c reason : emitsOnly noExit (Kick c reason).
Proof. apply emitsOnly_Kick; done. Qed.

Lemma Kick_returns_tt c reason w : (Kick c reason w).1 = Ok tt.
Proof. destruct (returns_Kick c reason w) as ([] & H). done. Qed.

(** [Kick], then some bookkeeping, then a code on [onexit]. *)
Lemma forEach_emit quiet : ∀ w, forEach quiet emit w = (Ok tt, addTrace quiet w).
Proof.
  induction quiet as [| e q IH]; intros w; simpl.
  - unfold mret, M_ret, addTrace. rewrite app_nil_r. by destruct w.
  - unfold mbind, M_bind, emit. rewrite IH. unfold addTrace. simpl.
    by rewrite <- app_assoc.
Qed.

Lemma exits_Kick c reason (quiet : list Effect) f code :
  Forall noExit quiet → code = 0 ∨ code = 1 →
  exits c (Kick c reason ;;
           modifyGlobalState f ;;
           forEach quiet emit ;;
           emit (OnExit code) ;; mret WaitFinition).
Proof.
  intros Hq Hcode w.
  destruct (Kick_noExit c reason w) as (t1 & Ht1 & HP1).
  pose proof (Kick_state c reason w) as Hk.
  pose proof (Kick_returns_tt c reason w) as Hr.
  assert (E : (Kick c reason ;;
               modifyGlobalState f ;;
               forEach quiet emit ;;
               emit (OnExit code) ;; mret WaitFinition) w
              = (Ok WaitFinition,
                 addTrace (quiet ++ [OnExit code])
                   (mkWorld (f (globalState (Kick c reason w).2))
                      (heap (Kick c reason w).2) (nextChan (Kick c reason w).2)
                      (trace (Kick c reason w).2)))).
  { unfold mbind at 1, M_bind at 1.
    destruct (Kick c reason w) as [r w1]. simpl in Hr. subst r.
    unfold mbind at 1, M_bind at 1, modifyGlobalState.
    unfold mbind at 1, M_bind at 1. rewrite forEach_emit.
    unfold_monad. unfold addTrace. simpl. by rewrite <- app_assoc. }
  rewrite E. simpl.
  exists (t1 ++ quiet ++ [OnExit code]). rewrite Ht1, <- !app_assoc.
  split; [done |]. exists code.
  rewrite !exitCodes_app, (exitCodes_noExit _ HP1), (exitCodes_noExit _ Hq).
  done.
Qed.

Lemma exits_abortGame glClient reason :
  exits (gl_client glClient) (abortGame glClient reason).
Proof.
  intros w.
  assert (E : abortGame glClient reason w
              = (Kick (gl_client glClient) reason ;;
                 modifyGlobalState id ;; forEach [] emit ;;
                 emit (OnExit 1) ;; mret WaitFinition) w).
  { unfold abortGame. unfold_monad. simpl.
    destruct (Kick _ _ w) as [[[] | |] w1]; simpl; done. }
  rewrite E. apply exits_Kick; [constructor | by right].
Qed.

Lemma exits_finished glClient :
  exits (gl_client glClient)
    (Kick (gl_client glClient) "Game is finished" ;;
     emit (OnExit 0) ;; mret WaitFinition).
Proof.
  intros w.
  assert (E : (Kick (gl_client glClient) "Game is finished" ;;
               emit (OnExit 0) ;; mret WaitFinition) w
              = (Kick (gl_client glClient) "Game is finished" ;;
                 modifyGlobalState id ;; forEach [] emit ;;
                 emit (OnExit 0) ;; mret WaitFinition) w).
  { unfold_monad. simpl.
    destruct (Kick _ _ w) as [[[] | |] w1]; simpl; done. }
  rewrite E. apply exits_Kick; [constructor | by left].
Qed.

Lemma exits_firstMessage glClient msg :
  exits (gl_client glClient) (firstMessage glClient msg).
Proof.
  unfold firstMessage.
  apply exits_bind; [by apply emitsOnly_emit |]. intros _.
  assert (H : ∀ reason,
    exits (gl_client glClient)
      (Kick (gl_client glClient) reason ;;
       modifyGlobalState (λ g, set_GameLogic (take 0 (GameLogic g)) g) ;;
       emit MutexUnlock ;; emit (OnExit 1) ;; mret WaitFinition)).
  { intros reason w.
    assert (E : (Kick (gl_client glClient) reason ;;
                 modifyGlobalState (λ g, set_GameLogic (take 0 (GameLogic g)) g) ;;
                 emit MutexUnlock ;; emit (OnExit 1) ;; mret WaitFinition) w
                = (Kick (gl_client glClient) reason ;;
                   modifyGlobalState (λ g, set_GameLogic (take 0 (GameLogic g)) g) ;;
                   forEach [MutexUnlock] emit ;;
                   emit (OnExit 1) ;; mret WaitFinition) w).
    { unfold_monad. simpl.
      destruct (Kick _ _ w) as [[[] | |] w1]; simpl; done. }
    rewrite E. apply exits_Kick; [by repeat constructor | by right]. }
  destruct (err msg); apply H.
Qed.

Lemma exits_panic c : exits c panic.
Proof. intros w. exists []. by rewrite app_nil_r. Qed.

Ltac exits_tac :=
  repeat first
    [ apply exits_abortGame
    | apply exits_panic
    | apply exits_finished
    | apply exits_ret; discriminate
    | apply exits_bind;
        [unfold_coordinator; emits_tac; done | intros ?]
    | match goal with
      | |- exits _ (match ?x with _ => _ end) => destruct x
      | |- exits _ (if ?x then _ else _) => destruct x
      | |- exits _ (let '(_, _) := ?x in _) => destruct x
      end ].

Lemma step_exits glClient ph ev m :
  ph ≠ WaitFinition →
  step glClient ph ev = Some m → exits (gl_client glClient) m.
Proof.
  intros Hph Hs.
  destruct ph, ev; simpl in Hs; repeat case_match; simplify_eq.
  all: try apply exits_firstMessage.
  all: unfold startGame, gotDoInitAck, gotDoTurnAck; exits_tac.
Qed.

(** X10. Exit codes. From the start of the coordinator on, whatever the
    schedule and the mode: nothing is sent on [onexit] while the
    coordinator is still playing; exactly one code, 0 or 1, has been sent
    when it reaches [waitGameLogicFinition], and the Game Logic client is
    then KICKED; never more than one code is sent; and when the coordinator
    blocks or panics no code has been sent at all. *)
Theorem coordinator_exit_codes (glClient : GameLogicClient) (ph : Phase)
    (evs : list Event) (w w' : World) (r : Result Phase) :
  ph ≠ WaitFinition →
  run glClient ph evs w = Some (r, w') →
  ∃ t, trace w' = trace w ++ t
       ∧ match r with
         | Ok WaitFinition =>
             ∃ code, exitCodes t = [code] ∧ (code = 0 ∨ code = 1)
                     ∧ state (heap w' (gl_client glClient)) = CLIENT_KICKED
         | Ok Returned => (length (exitCodes t) ≤ 1)%nat
         | _ => exitCodes t = []
         end.
Proof.
  revert ph w w' r.
  induction evs as [| ev evs IH]; intros ph w w' r Hph Hrun.
  - simpl in Hrun. simplify_eq. exists []. rewrite app_nil_r.
    split; [done |]. destruct ph; simpl; done || lia.
  - rewrite run_cons in Hrun.
    destruct (step glClient ph ev) as [m |] eqn:Hstep; [| done].
    destruct (step_exits _ _ _ _ Hph Hstep w) as (t1 & Ht1 & H1).
    destruct (m w) as [[ph1 | |] w1]; simpl in Ht1, H1.
    + assert (Hd : ph1 = WaitFinition ∨ ph1 ≠ WaitFinition)
        by (destruct ph1; auto; right; discriminate).
      destruct Hd as [-> | Hph1].
      * apply drain_world in Hrun as (-> & Hr). exists t1. split; [done |].
        destruct H1 as (code & Hc & H01 & Hk).
        destruct Hr as [-> | ->]; [by exists code |]. rewrite Hc. simpl. lia.
      * destruct (IH _ _ _ _ Hph1 Hrun) as (t2 & Ht2 & H2).
        exists (t1 ++ t2). rewrite Ht2, Ht1, app_assoc. split; [done |].
        assert (He1 : exitCodes t1 = []) by (by destruct ph1).
        rewrite exitCodes_app, He1. done.
    + simplify_eq. by exists t1.
    + simplify_eq. by exists t1.
Qed.

Lemma coordinator_exit_codes_witness :
  ∃ t, trace normalGameWorld = trace (lobbyWorld false 2) ++ t
       ∧ ∃ code, exitCodes t = [code] ∧ (code = 0 ∨ code = 1)
                 ∧ state (heap normalGameWorld 7) = CLIENT_KICKED.
Proof.
  apply (coordinator_exit_codes lobbyGameLogic WaitStart normalSchedule
           (lobbyWorld false 2) normalGameWorld (Ok WaitFinition));
    [discriminate | vm_compute; reflexivity].
Defined.

(** ** What a computation returns *)

Lemma yields_ret {A} (Q : A → Prop) a : Q a → yields Q (mret a).
Proof. intros Ha w a' E. simpl in E. by simplify_eq. Qed.

Lemma yields_bind_with {A B} (Q1 : A → Prop) (Q : B → Prop) (m : M A) f :
  yields Q1 m → (∀ a, Q1 a → yields Q (f a)) → yields Q (m ≫= f).
Proof.
  intros Hm Hf w b. unfold mbind, M_bind.
  specialize (Hm w). destruct (m w) as [[a | |] w1]; simpl; [| done..].
  intros E. eapply Hf; [by apply Hm | exact E].
Qed.

Lemma yields_bind {A B} (Q : B → Prop) (m : M A) f :
  (∀ a, yields Q (f a)) → yields Q (m ≫= f).
Proof.
  intros Hf. apply (yields_bind_with (λ _, True)); [done | auto].
Qed.

Lemma yields_block {A} (Q : A → Prop) : yields Q block.
Proof. by intros w a. Qed.

Lemma yields_panic {A} (Q : A → Prop) : yields Q panic.
Proof. by intros w a. Qed.

Ltac yields_tac :=
  repeat first
    [ apply yields_block
    | apply yields_panic
    | apply yields_ret
    | apply yields_bind; intros ?
    | match goal with
      | |- yields _ (match ?x with _ => _ end) => destruct x
      | |- yields _ (if ?x then _ else _) => destruct x
      | |- yields _ (let '(_, _) := ?x in _) => destruct x
      end ].

(** ** What a computation keeps *)

Section keeps.
Context (R : relation World) `{!Reflexive R, !Transitive R}.
Hypothesis R_trace : ∀ w t,
  R w (mkWorld (globalState w) (heap w) (nextChan w) t).

Lemma keeps_ret {A} (a : A) : keeps R (mret a).
Proof. intros w. simpl. reflexivity. Qed.

Lemma keeps_bind {A B} (m : M A) (f : A → M B) :
  keeps R m → (∀ a, keeps R (f a)) → keeps R (m ≫= f).
Proof.
  intros Hm Hf w. unfold mbind, M_bind. specialize (Hm w).
  destruct (m w) as [[a | |] w1]; simpl in *; [| done..].
  etrans; [exact Hm | apply Hf].
Qed.

Lemma keeps_emit e : keeps R (emit e).
Proof. intros w. apply R_trace. Qed.

Lemma keeps_same {A} (m : M A) : (∀ w, (m w).2 = w) → keeps R m.
Proof. intros Hm w. rewrite Hm. reflexivity. Qed.

Lemma keeps_sendMessage c frame : keeps R (sendMessage c frame).
Proof.
  unfold sendMessage. apply keeps_bind; [by apply keeps_same |]. intros cl.
  destruct (connOk cl).
  - apply keeps_bind; [apply keeps_emit | intros _; apply keeps_ret].
  - apply keeps_ret.
Qed.

Lemma keeps_chanSend ch e : keeps R (chanSend ch e).
Proof. destruct ch; [apply keeps_emit | by apply keeps_same]. Qed.

Lemma keeps_forEach {A} (l : list A) body :
  (∀ x, keeps R (body x)) → keeps R (forEach l body).
Proof.
  intros Hb. induction l as [| x l IH]; simpl.
  - apply keeps_ret.
  - apply keeps_bind; [apply Hb | intros _; apply IH].
Qed.

Lemma keeps_Kick c reason :
  keeps R (modifyClient c (set_state CLIENT_KICKED)) →
  keeps R (Kick c reason).
Proof.
  intros Hset. unfold Kick.
  apply keeps_bind; [by apply keeps_same |]. intros cl.
  destruct (decide _); [apply keeps_ret |].
  apply keeps_bind; [exact Hset |]. intros _.
  apply keeps_bind; [apply keeps_emit |]. intros _. simpl.
  apply keeps_bind; [apply keeps_sendMessage |]. intros _.
  apply keeps_emit.
Qed.

End keeps.

Ltac keeps_step R Htrace :=
  first
    [ apply (keeps_ret R)
    | apply (keeps_emit R Htrace)
    | apply (keeps_sendMessage R Htrace)
    | apply (keeps_chanSend R Htrace)
    | apply (keeps_forEach R); intros ?
    | apply (keeps_same R); intros ?; reflexivity
    | apply (keeps_bind R); [| intros ?] ].

Ltac keeps_tac R Htrace :=
  repeat first
    [ keeps_step R Htrace
    | match goal with
      | |- keeps _ (match ?x with _ => _ end) => destruct x
      | |- keeps _ (if ?x then _ else _) => destruct x
      | |- keeps _ (let '(_, _) := ?x in _) => destruct x
      end ].

(** ** The footprint of [Kick] and of the coordinator *)

#[global] Instance footprint_refl c : Reflexive (footprint c).
Proof. intros w. unfold footprint. auto 10. Qed.

#[global] Instance footprint_trans c : Transitive (footprint c).
Proof.
  intros w1 w2 w3 (H1 & H2 & H3 & H4 & H5 & H6) (K1 & K2 & K3 & K4 & K5 & K6).
  unfold footprint. repeat split; try congruence.
  - intros p Hp. rewrite K2, H2; done.
  - destruct K6 as [K6 | K6]; [rewrite K6; exact H6 | by right].
Qed.

Lemma footprint_trace c w t :
  footprint c w (mkWorld (globalState w) (heap w) (nextChan w) t).
Proof. unfold footprint. simpl. auto 10. Qed.

Lemma footprint_globalState c w g :
  footprint c w (mkWorld g (heap w) (nextChan w) (trace w)).
Proof. unfold footprint. simpl. auto 10. Qed.

Lemma footprint_kicked c :
  keeps (footprint c) (modifyClient c (set_state CLIENT_KICKED)).
Proof.
  intros w. unfold footprint. simpl.
  rewrite fn_lookup_insert. simpl. split_and!; auto.
  intros p Hp. by rewrite fn_lookup_insert_ne.
Qed.

Lemma Kick_footprint_keeps c reason : keeps (footprint c) (Kick c reason).
Proof.
  apply keeps_Kick; try apply _; [apply footprint_trace | apply footprint_kicked].
Qed.

Ltac footprint_tac c :=
  repeat first
    [ apply (Kick_footprint_keeps c)
    | (apply keeps_same; [apply _ | intros ?; reflexivity])
    | keeps_step (footprint c) (footprint_trace c)
    | (intros ?; apply footprint_globalState)
    | match goal with
      | |- keeps _ (match ?x with _ => _ end) => destruct x
      | |- keeps _ (if ?x then _ else _) => destruct x
      | |- keeps _ (let '(_, _) := ?x in _) => destruct x
      end ].

Lemma step_footprint glClient ph ev m :
  step glClient ph ev = Some m → keeps (footprint (gl_client glClient)) m.
Proof.
  intros Hs. destruct ph, ev; simpl in Hs; repeat case_match; simplify_eq.
  all: unfold_coordinator; footprint_tac (gl_client glClient).
Qed.

(** ** What the coordinator writes *)

Lemma step_not_WaitStart glClient ph ev m :
  step glClient ph ev = Some m → yields (λ ph', ph' ≠ WaitStart) m.
Proof.
  intros Hs. destruct ph, ev; simpl in Hs; repeat case_match; simplify_eq.
  all: unfold_coordinator; yields_tac; discriminate.
Qed.

Lemma run_reads glClient evs : ∀ ph w r w',
  ph ≠ WaitStart →
  run glClient ph evs w = Some (r, w') → globalState w' = globalState w.
Proof.
  induction evs as [| ev evs IH]; intros ph w r w' Hph Hrun.
  - simpl in Hrun. by simplify_eq.
  - rewrite run_cons in Hrun.
    destruct (step glClient ph ev) as [m |] eqn:Hs; [| done].
    pose proof (step_reads _ _ _ _ Hph Hs w) as Hg.
    pose proof (step_not_WaitStart _ _ _ _ Hs w) as Hph'.
    destruct (m w) as [[ph1 | |] w1]; simpl in Hg, Hph'.
    + rewrite (IH _ _ _ _ (Hph' _ eq_refl) Hrun). done.
    + by simplify_eq.
    + by simplify_eq.
Qed.

Lemma run_footprint glClient evs : ∀ ph w r w',
  run glClient ph evs w = Some (r, w') → footprint (gl_client glClient) w w'.
Proof.
  induction evs as [| ev evs IH]; intros ph w r w' Hrun.
  - simpl in Hrun. simplify_eq. reflexivity.
  - rewrite run_cons in Hrun.
    destruct (step glClient ph ev) as [m |] eqn:Hs; [| done].
    pose proof (step_footprint _ _ _ _ Hs w) as Hf.
    destruct (m w) as [[ph1 | |] w1]; simpl in Hf.
    + etrans; [exact Hf | by eapply IH].
    + by simplify_eq.
    + by simplify_eq.
Qed.

Lemma step_onlyTo glClient ph ev m :
  step glClient ph ev = Some m → emitsOnly (onlyTo (gl_client glClient)) m.
Proof.
  intros Hs. destruct ph, ev; simpl in Hs; repeat case_match; simplify_eq.
  all: unfold_coordinator; emits_tac; done.
Qed.

Lemma run_onlyTo glClient evs : ∀ ph w r w',
  run glClient ph evs w = Some (r, w') →
  ∃ t, trace w' = trace w ++ t ∧ Forall (onlyTo (gl_client glClient)) t.
Proof.
  induction evs as [| ev evs IH]; intros ph w r w' Hrun.
  - simpl in Hrun. simplify_eq. exists []. by rewrite app_nil_r.
  - rewrite run_cons in Hrun.
    destruct (step glClient ph ev) as [m |] eqn:Hs; [| done].
    destruct (step_onlyTo _ _ _ _ Hs w) as (t1 & Ht1 & HP1).
    destruct (m w) as [[ph1 | |] w1]; simpl in Ht1.
    + destruct (IH _ _ _ _ Hrun) as (t2 & Ht2 & HP2).
      exists (t1 ++ t2). rewrite Ht2, Ht1, app_assoc. split; [done |].
      by apply Forall_app.
    + simplify_eq. by exists t1.
    + simplify_eq. by exists t1.
Qed.

Lemma sentTo_onlyTo c p t : Forall (onlyTo c) t → p ≠ c → sentTo p t = [].
Proof.
  intros Ht Hp. induction Ht as [| e t He _ IH]; simpl; [done |].
  destruct e; simpl in He; try done. rewrite decide_False by congruence. done.
Qed.

Lemma assignPlayerIDs_fields playerIDs players : ∀ i ps,
  assignPlayerIDs playerIDs i players = Some ps →
  Forall2 (λ p p', ∃ id, p' = set_playerID id p) players ps.
Proof.
  induction players as [| p players IH]; intros i ps Hps; simpl in Hps.
  - simplify_eq. constructor.
  - destruct (playerIDs !! i) as [id |]; [| done]. simpl in Hps.
    destruct (assignPlayerIDs playerIDs (S i) players) as [ps' |] eqn:Hps';
      [| done].
    simpl in Hps. simplify_eq. constructor; [by exists id | by eapply IH].
Qed.

Lemma startGame_players glClient playerIDs w ph w' :
  startGame glClient playerIDs w = (Ok ph, w') →
  Forall2 (identified (heap w)) (Players (globalState w))
    (Players (globalState w')).
Proof.
  unfold startGame. unfold_monad. simpl.
  destruct (assignPlayerIDs _ _ _) as [ps |] eqn:Hps; [| done]. simpl.
  apply assignPlayerIDs_fields in Hps.
  assert (Hid : Forall2 (identified (heap w)) (Players (globalState w))
                  ((λ player, set_playerInfo (makePlayerInformation (heap w) player)
                                player) <$> ps)).
  { apply Forall2_fmap_r. eapply Forall2_impl; [exact Hps |].
    intros p p' (id & ->). unfold identified. simpl. auto 10. }
  unfold sendDoInit, sendMessage, abortGame, Kick, sendMessage, json_Marshal.
  unfold_monad. simpl.
  repeat (case_match; simpl); intros E; simplify_eq; simpl; exact Hid.
Qed.

(** X12. What the coordinator writes. It never touches the record of a
    client other than its Game Logic client, whose state alone may change,
    to KICKED; it writes on no socket but the Game Logic's and kicks
    nobody else (the Players and Visus are reached through their channels
    only). Once it has left the wait for the
    start signal it never writes the global state again. The start step
    itself keeps the phase, the Visus and the configuration and leaves the
    Game Logic registered; of each Player it rewrites only the identifier
    and the information record, which is built from the client's nickname
    and address. *)
Theorem coordinator_footprint (glClient : GameLogicClient) :
  (∀ (ph : Phase) (evs : list Event) (w w' : World) (r : Result Phase),
     run glClient ph evs w = Some (r, w') →
     kicksOnly (gl_client glClient) w w'
     ∧ (∃ t, trace w' = trace w ++ t
             ∧ Forall (onlyTo (gl_client glClient)) t
             ∧ ∀ p, p ≠ gl_client glClient → sentTo p t = [])
     ∧ (ph ≠ WaitStart → globalState w' = globalState w))
  ∧ (∀ (playerIDs : list Z) (w w' : World) (ph : Phase),
       startGame glClient playerIDs w = (Ok ph, w') →
       GameState (globalState w') = GameState (globalState w)
       ∧ GameLogic (globalState w') = GameLogic (globalState w)
       ∧ Visus (globalState w') = Visus (globalState w)
       ∧ NbPlayersMax (globalState w') = NbPlayersMax (globalState w)
       ∧ NbVisusMax (globalState w') = NbVisusMax (globalState w)
       ∧ NbTurnsMax (globalState w') = NbTurnsMax (globalState w)
       ∧ Fast (globalState w') = Fast (globalState w)
       ∧ Forall2 (identified (heap w)) (Players (globalState w))
           (Players (globalState w'))).
Proof.
  split.
  - intros ph evs w w' r Hrun.
    split; [by destruct (run_footprint _ _ _ _ _ _ Hrun) as (_ & H) |].
    split; [| intros Hph; by eapply run_reads].
    destruct (run_onlyTo _ _ _ _ _ _ Hrun) as (t & Ht & Honly).
    exists t. split; [done |]. split; [done |].
    intros p Hp. by eapply sentTo_onlyTo.
  - intros playerIDs w w' ph Hstart.
    pose proof (startGame_players _ _ _ _ _ Hstart) as Hp.
    revert Hstart. unfold startGame. unfold_monad. simpl.
    destruct (assignPlayerIDs _ _ _) as [ps |]; [| done]. simpl.
    unfold sendDoInit, sendMessage, abortGame, Kick, sendMessage, json_Marshal.
    unfold_monad. simpl.
    repeat (case_match; simpl); intros E; simplify_eq; simpl in *; auto 10.
Qed.

(** ** One action per player *)

Lemma collectAction_NoDup action l :
  NoDup (ActionPlayerID <$> l) →
  NoDup (ActionPlayerID <$> collectAction action l).
Proof.
  intros Hnd.
  destruct (collectAction_cases action l Hnd)
    as [(Hall & ->) | [(l1 & old & -> & Hold & Hl1 & ->)
                      | (l1 & old & l2 & z & -> & Hold & Hl1 & Hl2 & ->)]].
  - rewrite fmap_app. apply NoDup_app. split; [done |].
    split; [| apply NoDup_singleton].
    intros x Hx Hx'. apply list_elem_of_fmap in Hx as (a & -> & Ha).
    apply list_elem_of_singleton in Hx'.
    by apply (proj1 (Forall_forall _ _) Hall a).
  - rewrite fmap_app in *. simpl in *. by rewrite <- Hold.
  - rewrite fmap_app in *. rewrite !fmap_cons, !fmap_app in *. simpl in *.
    rewrite <- Hold. by rewrite Permutation_swap_ends.
Qed.

Lemma postSendDoTurn_actions l :
  yields (λ l', playerActions l' = playerActions l) (postSendDoTurn l).
Proof. unfold postSendDoTurn. yields_tac. done. Qed.

Lemma checkPlayerCount_actions l :
  yields (λ l', playerActions l' = playerActions l) (checkPlayerCount l).
Proof.
  unfold checkPlayerCount. apply yields_bind. intros g.
  destruct (Fast g); [| by apply yields_ret].
  apply yields_bind. intros _.
  eapply yields_bind_with.
  - instantiate (1 := λ l', playerActions l' = playerActions l).
    destruct (decide _); [apply postSendDoTurn_actions | by apply yields_ret].
  - intros l' Hl'. yields_tac. done.
Qed.

Lemma fanOutTurn_actions l ack :
  yields (λ l', playerActions l' = playerActions l) (fanOutTurn l ack).
Proof.
  unfold fanOutTurn. do 4 (apply yields_bind; intros ?).
  eapply yields_bind_with.
  - instantiate (1 := λ l', playerActions l' = playerActions l).
    destruct (_ && _); [apply postSendDoTurn_actions | by apply yields_ret].
  - intros l' Hl'. yields_tac. done.
Qed.

Lemma step_actions glClient ph ev m :
  NoDup (ActionPlayerID <$> actionsOf ph) →
  step glClient ph ev = Some m →
  yields (λ ph', NoDup (ActionPlayerID <$> actionsOf ph')) m.
Proof.
  intros Hnd Hs.
  destruct ph as [| n info | l | |], ev; simpl in Hs; repeat case_match;
    simplify_eq.
  all: try (unfold startGame, firstMessage, abortGame, gotDoInitAck;
            yields_tac; simpl; by constructor).
  - (* a message of the game logic *)
    unfold gotDoTurnAck, abortGame.
    destruct (err msg); [yields_tac; simpl; by constructor |].
    destruct (readDoTurnAckMessage _ _) as [ack [e |]];
      [yields_tac; simpl; by constructor |].
    apply yields_bind. intros g. destruct (decide _).
    + eapply yields_bind_with; [apply fanOutTurn_actions |].
      intros l' Hl'. simpl in Hl'.
      destruct (negb _); apply yields_ret; simpl; by rewrite Hl'.
    + yields_tac; simpl; by constructor.
  - (* a player action *)
    eapply yields_bind_with; [apply checkPlayerCount_actions |].
    intros l' Hl'. apply yields_ret. simpl in *. rewrite Hl'. simpl.
    by apply collectAction_NoDup.
  - (* a player disconnected *)
    eapply yields_bind_with; [apply checkPlayerCount_actions |].
    intros l' Hl'. apply yields_ret. simpl in *. by rewrite Hl'.
  - (* the timer *)
    by apply yields_ret.
Qed.

Lemma step_oneAction glClient ph ev m :
  NoDup (ActionPlayerID <$> actionsOf ph) →
  step glClient ph ev = Some m → emitsOnly oneActionPerPlayer m.
Proof.
  intros Hnd Hs.
  destruct ph as [| n info | l | |], ev; simpl in Hs; repeat case_match;
    simplify_eq.
  all: unfold_coordinator; emits_tac; simpl; try done.
  all: by constructor.
Qed.

Lemma run_oneAction glClient evs : ∀ ph w r w',
  NoDup (ActionPlayerID <$> actionsOf ph) →
  run glClient ph evs w = Some (r, w') →
  ∃ t, trace w' = trace w ++ t
       ∧ Forall oneActionPerPlayer t
       ∧ ∀ ph', r = Ok ph' → NoDup (ActionPlayerID <$> actionsOf ph').
Proof.
  induction evs as [| ev evs IH]; intros ph w r w' Hnd Hrun.
  - simpl in Hrun. simplify_eq. exists []. rewrite app_nil_r.
    split; [done |]. split; [constructor |]. intros ph' E. by simplify_eq.
  - rewrite run_cons in Hrun.
    destruct (step glClient ph ev) as [m |] eqn:Hs; [| done].
    destruct (step_oneAction _ _ _ _ Hnd Hs w) as (t1 & Ht1 & HP1).
    pose proof (step_actions _ _ _ _ Hnd Hs w) as Hnd1.
    destruct (m w) as [[ph1 | |] w1]; simpl in Ht1, Hnd1.
    + destruct (IH _ _ _ _ (Hnd1 _ eq_refl) Hrun) as (t2 & Ht2 & HP2 & Hnd2).
      exists (t1 ++ t2). rewrite Ht2, Ht1, app_assoc. split; [done |].
      split; [by apply Forall_app | done].
    + simplify_eq. by exists t1.
    + simplify_eq. by exists t1.
Qed.

(** X13. Whatever the players send and whenever they send it, the
    coordinator holds at most one action per player, and every DO_TURN it
    sends to the Game Logic carries at most one action per player; sending
    a DO_TURN empties the collection, so the next DO_TURN carries only
    actions received since. *)
Theorem doTurn_one_action_per_player (glClient : GameLogicClient) :
  (∀ (evs : list Event) (w w' : World) (r : Result Phase),
     run glClient WaitStart evs w = Some (r, w') →
     ∃ t, trace w' = trace w ++ t
          ∧ Forall oneActionPerPlayer t
          ∧ ∀ l, r = Ok (InTurnLoop l) →
                 NoDup (ActionPlayerID <$> playerActions l))
  ∧ (∀ (l : TurnLoop) (w : World),
       sendDoTurnToGL l ≠ 0%nat →
       ∃ m l' w', step glClient (InTurnLoop l) RecvSendDoTurn = Some m
                  ∧ m w = (Ok (InTurnLoop l'), w')
                  ∧ playerActions l' = []
                  ∧ sentTo (gl_client glClient) (drop (length (trace w)) (trace w'))
                    = if connOk (heap w (gl_client glClient))
                      then [MessageDoTurn "DO_TURN" (playerActions l)]
                      else []).
Proof.
  split.
  - intros evs w w' r Hrun.
    destruct (run_oneAction glClient evs WaitStart w r w') as (t & Ht & HP & Hnd);
      [constructor | done |].
    exists t. split; [done |]. split; [done |].
    intros l ->. exact (Hnd _ eq_refl).
  - intros l w Hbuf. simpl. rewrite decide_False by done.
    destruct (connOk (heap w (gl_client glClient))) eqn:Hc.
    + eexists _, _, _. split; [reflexivity |]. split.
      { unfold sendDoTurn, sendMessage, json_Marshal. unfold_monad. simpl.
        rewrite Hc. reflexivity. }
      split; [reflexivity |]. simpl.
      rewrite drop_app_length. simpl. by rewrite decide_True.
    + eexists _, _, _. split; [reflexivity |]. split.
      { unfold sendDoTurn, sendMessage, json_Marshal. unfold_monad. simpl.
        rewrite Hc. reflexivity. }
      split; [reflexivity |]. by rewrite drop_all.
Qed.

(** ** No index out of range *)

Lemma neverPanics_ret {A} (a : A) : neverPanics (mret a).
Proof. by intros w. Qed.

Lemma neverPanics_bind {A B} (m : M A) (f : A → M B) :
  neverPanics m → (∀ a, neverPanics (f a)) → neverPanics (m ≫= f).
Proof.
  intros Hm Hf w. unfold mbind, M_bind. specialize (Hm w).
  destruct (m w) as [[a | |] w1]; simpl in *; [apply Hf | done..].
Qed.

Lemma neverPanics_block {A} : neverPanics (@block A).
Proof. by intros w. Qed.

Lemma neverPanics_returns {A} (m : M A) : returns m → neverPanics m.
Proof. intros Hm w. destruct (Hm w) as (a & ->). done. Qed.

Lemma neverPanics_chanSend ch e : neverPanics (chanSend ch e).
Proof. destruct ch; by intros w. Qed.

Lemma neverPanics_forEach {A} (l : list A) body :
  (∀ x, neverPanics (body x)) → neverPanics (forEach l body).
Proof.
  intros Hb. induction l as [| x l IH]; simpl.
  - apply neverPanics_ret.
  - apply neverPanics_bind; [apply Hb | intros _; apply IH].
Qed.

Ltac neverPanics_tac :=
  repeat first
    [ apply neverPanics_ret
    | apply neverPanics_block
    | apply neverPanics_chanSend
    | (apply neverPanics_returns;
       first [apply returns_Kick | apply returns_sendMessage | apply returns_emit
             | (intros ?; eexists; reflexivity)])
    | apply neverPanics_forEach; intros ?
    | apply neverPanics_bind; [| intros ?]
    | match goal with
      | |- neverPanics (match ?x with _ => _ end) => destruct x
      | |- neverPanics (if ?x then _ else _) => destruct x
      | |- neverPanics (let '(_, _) := ?x in _) => destruct x
      end ].

Lemma readDoTurnAckMessage_winner c n ack :
  readDoTurnAckMessage c n = (ack, None) → -1 ≤ WinnerPlayerID ack < n.
Proof.
  unfold readDoTurnAckMessage. intros E.
  repeat case_match; simplify_eq. simpl.
  repeat match goal with H : _ && _ = true |- _ => apply andb_prop in H as [? ?] end.
  lia.
Qed.

Lemma gotDoTurnAck_neverPanics glClient l msg :
  sized (InTurnLoop l) → neverPanics (gotDoTurnAck glClient l msg).
Proof.
  simpl. intros Hsz. unfold gotDoTurnAck.
  destruct (err msg);
    [unfold abortGame; neverPanics_tac |].
  destruct (readDoTurnAckMessage _ _) as [ack [e |]] eqn:Hparse;
    [unfold abortGame; neverPanics_tac |].
  apply readDoTurnAckMessage_winner in Hparse.
  apply neverPanics_bind; [neverPanics_tac |]. intros g.
  destruct (decide _).
  - unfold fanOutTurn, postSendDoTurn. neverPanics_tac.
  - apply neverPanics_bind.
    + destruct (decide _) as [Hw |]; [| apply neverPanics_ret].
      rewrite decide_True by lia. simpl.
      destruct (playersInfo l !! Z.to_nat (WinnerPlayerID ack)) eqn:Hl;
        [apply neverPanics_ret |].
      apply lookup_ge_None in Hl. lia.
    + intros _. unfold fanOutGameEnds. neverPanics_tac.
Qed.

Lemma step_neverPanics glClient ph ev m :
  ph ≠ WaitStart → sized ph →
  step glClient ph ev = Some m → neverPanics m.
Proof.
  intros Hph Hsz Hs.
  destruct ph as [| n info | l | |], ev; simpl in Hs; repeat case_match;
    simplify_eq.
  all: try by apply gotDoTurnAck_neverPanics.
  all: unfold_coordinator; neverPanics_tac.
Qed.

Lemma fanOutTurn_sized l ack :
  yields (λ l', playersInfo l' = playersInfo l
                ∧ initialNbPlayers l' = initialNbPlayers l) (fanOutTurn l ack).
Proof.
  unfold fanOutTurn. do 4 (apply yields_bind; intros ?).
  eapply yields_bind_with.
  - instantiate (1 := λ l', playersInfo l' = playersInfo l
                            ∧ initialNbPlayers l' = initialNbPlayers l).
    unfold postSendDoTurn. yields_tac; done.
  - intros l' Hl'. yields_tac. done.
Qed.

Lemma checkPlayerCount_sized l :
  yields (λ l', playersInfo l' = playersInfo l
                ∧ initialNbPlayers l' = initialNbPlayers l) (checkPlayerCount l).
Proof.
  unfold checkPlayerCount. apply yields_bind. intros g.
  destruct (Fast g); [| by apply yields_ret].
  apply yields_bind. intros _.
  eapply yields_bind_with.
  - instantiate (1 := λ l', playersInfo l' = playersInfo l
                            ∧ initialNbPlayers l' = initialNbPlayers l).
    unfold postSendDoTurn. yields_tac; done.
  - intros l' Hl'. yields_tac. done.
Qed.

Lemma step_sized glClient ph ev m :
  ph ≠ WaitStart → sized ph →
  step glClient ph ev = Some m → yields sized m.
Proof.
  intros Hph Hsz Hs.
  destruct ph as [| n info | l | |], ev; simpl in Hs; repeat case_match;
    simplify_eq.
  all: try (unfold abortGame, gotDoInitAck; yields_tac; simpl; done).
  - (* a message of the game logic *)
    unfold gotDoTurnAck, abortGame.
    destruct (err msg); [yields_tac; simpl; done |].
    destruct (readDoTurnAckMessage _ _) as [ack [e |]];
      [yields_tac; simpl; done |].
    apply yields_bind. intros g. destruct (decide _).
    + eapply yields_bind_with; [apply fanOutTurn_sized |].
      intros l' (Hl1 & Hl2). simpl in Hl1, Hl2.
      destruct (negb _); apply yields_ret; simpl in *; by rewrite Hl1, Hl2.
    + yields_tac; simpl; done.
  - eapply yields_bind_with; [apply checkPlayerCount_sized |].
    intros l' (Hl1 & Hl2). apply yields_ret. simpl in *. by rewrite Hl1, Hl2.
  - eapply yields_bind_with; [apply checkPlayerCount_sized |].
    intros l' (Hl1 & Hl2). apply yields_ret. simpl in *. by rewrite Hl1, Hl2.
Qed.

Lemma run_neverPanics glClient evs : ∀ ph w r w',
  ph ≠ WaitStart → sized ph →
  run glClient ph evs w = Some (r, w') → r ≠ Panicked.
Proof.
  induction evs as [| ev evs IH]; intros ph w r w' Hph Hsz Hrun.
  - simpl in Hrun. by simplify_eq.
  - rewrite run_cons in Hrun.
    destruct (step glClient ph ev) as [m |] eqn:Hs; [| done].
    pose proof (step_neverPanics _ _ _ _ Hph Hsz Hs w) as Hsafe.
    pose proof (step_sized _ _ _ _ Hph Hsz Hs w) as Hsz1.
    pose proof (step_not_WaitStart _ _ _ _ Hs w) as Hph1.
    destruct (m w) as [[ph1 | |] w1] eqn:Hm; simpl in Hsafe, Hsz1, Hph1;
      [| by simplify_eq | done].
    eapply IH; [by apply Hph1 | by apply Hsz1 | exact Hrun].
Qed.

Lemma assignPlayerIDs_length playerIDs players : ∀ i ps,
  assignPlayerIDs playerIDs i players = Some ps → length ps = length players.
Proof.
  intros i ps Hps. apply assignPlayerIDs_fields in Hps.
  symmetry. by eapply Forall2_length.
Qed.

Lemma startGame_sized glClient playerIDs : yields sized (startGame glClient playerIDs).
Proof.
  unfold startGame. apply yields_bind. intros _. apply yields_bind. intros g.
  destruct (assignPlayerIDs _ _ _) as [ps |] eqn:Hps; [| apply yields_panic].
  apply assignPlayerIDs_length in Hps.
  apply yields_bind. intros h. simpl.
  apply yields_bind. intros _. apply yields_bind. intros g0.
  apply yields_bind. intros e. apply yields_bind. intros _.
  destruct e; [unfold abortGame; yields_tac; done |].
  apply yields_ret. simpl.
  rewrite (Permutation_length (sort_Slice_Permutation _ _)).
  by rewrite length_fmap, Hps.
Qed.

Lemma startGame_neverPanics glClient playerIDs w :
  (length (Players (globalState w)) ≤ length playerIDs)%nat →
  (startGame glClient playerIDs w).1 ≠ Panicked.
Proof.
  intros Hlen.
  destruct (assignPlayerIDs_spec (Players (globalState w)) playerIDs 0)
    as (ps & Hassign & _); [lia |].
  unfold startGame. unfold_monad. simpl. rewrite Hassign. simpl.
  unfold sendDoInit, sendMessage, abortGame, Kick, sendMessage, json_Marshal.
  unfold_monad. simpl.
  repeat (case_match; simpl); done.
Qed.

(** X14. No index out of range. When [rand.Perm] gives an identifier for
    each registered Player (it gives exactly that many), no run of the
    coordinator panics: the information array keeps one record per Player
    counted at start, and a DO_TURN_ACK is only accepted with a winner that
    is -1 or indexes that array (the bound checked by
    [readDoTurnAckMessage]), so the log line of the final turn always finds
    its record. *)
Theorem coordinator_never_panics (glClient : GameLogicClient)
    (evs : list Event) (w w' : World) (r : Result Phase) :
  (∀ playerIDs, head evs = Some (RecvStart playerIDs) →
     (length (Players (globalState w)) ≤ length playerIDs)%nat) →
  run glClient WaitStart evs w = Some (r, w') →
  r = Blocked ∨ ∃ ph, r = Ok ph.
Proof.
  intros Hperm Hrun.
  assert (Hsafe : r ≠ Panicked); [| destruct r; eauto; done].
  destruct evs as [| ev evs]; [simpl in Hrun; by simplify_eq |].
  rewrite run_cons in Hrun.
  destruct (step glClient WaitStart ev) as [m |] eqn:Hs; [| done].
  pose proof (step_not_WaitStart _ _ _ _ Hs w) as Hph1.
  assert (Hm : (m w).1 ≠ Panicked ∧ ∀ ph1, (m w).1 = Ok ph1 → sized ph1).
  { clear Hrun Hph1.
    destruct ev; simpl in Hs; repeat case_match; simplify_eq.
    - split; [apply startGame_neverPanics; by apply Hperm |].
      apply startGame_sized.
    - split; [done |]. intros ph1 E. simpl in E. by simplify_eq.
    - split.
      + unfold firstMessage. neverPanics_tac.
      + intros ph1. unfold firstMessage.
        assert (Hy : yields sized (firstMessage glClient msg))
          by (unfold firstMessage; yields_tac; done).
        apply Hy. }
  destruct Hm as (Hsafe1 & Hsz1).
  destruct (m w) as [[ph1 | |] w1]; simpl in *; [| by simplify_eq | done].
  eapply run_neverPanics; [by apply Hph1 | by apply Hsz1 | exact Hrun].
Qed.

Lemma coordinator_never_panics_witness :
  run lobbyGameLogic WaitStart wonSchedule (lobbyWorld false 1)
  = Some (Ok WaitFinition, wonGameWorld)
  ∧ exitCodes (trace wonGameWorld) = [0]
  ∧ (Ok WaitFinition = Blocked ∨ ∃ ph, Ok WaitFinition = Ok ph).
Proof.
  assert (Hrun : run lobbyGameLogic WaitStart wonSchedule (lobbyWorld false 1)
                 = Some (Ok WaitFinition, wonGameWorld))
    by (vm_compute; reflexivity).
  split; [exact Hrun |]. split; [vm_compute; reflexivity |].
  apply (coordinator_never_panics lobbyGameLogic wonSchedule
           (lobbyWorld false 1) wonGameWorld (Ok WaitFinition));
    [| exact Hrun].
  intros playerIDs E. simpl in E. injection E as <-. vm_compute. lia.
Defined.

(** ** Aborted games *)

(** X6. A message of the Game Logic before the start signal (lines 44-57):
    the coordinator kicks it while holding the mutex, with a reason that
    tells a premature message from a read error, empties the Game Logic
    registry, sends 1 on [onexit] and waits in [waitGameLogicFinition].
    The registry being empty again, another Game Logic that logs in
    afterwards, in phase NOT_RUNNING, is accepted. *)
Theorem premature_message_unregisters (glClient : GameLogicClient)
    (msg : ClientMessage) (w : World) :
  state (heap w (gl_client glClient)) ≠ CLIENT_KICKED →
  ∃ w',
    step glClient WaitStart (RecvIncoming msg) = Some (firstMessage glClient msg)
    ∧ firstMessage glClient msg w = (Ok WaitFinition, w')
    ∧ globalState w' = set_GameLogic [] (globalState w)
    ∧ state (heap w' (gl_client glClient)) = CLIENT_KICKED
    ∧ trace w'
      = trace w ++ [MutexLock]
        ++ kickTrace (gl_client glClient)
             (nickname (heap w (gl_client glClient))) (prematureReason msg)
             (connOk (heap w (gl_client glClient)))
        ++ [MutexUnlock; OnExit 1]
    ∧ ∀ (client : ClientPtr) (login : ClientMessage) (n : string),
        client ≠ gl_client glClient →
        err login = None →
        readLoginMessage (content login) = (mkMessageLogin n "game logic", None) →
        state (heap w client) ≠ CLIENT_KICKED →
        connOk (heap w client) = true →
        GameState (globalState w) = GAME_NOT_RUNNING →
        ∃ c1 c2 r,
          handleClient client login w'
          = (Ok (HandleGameLogic (mkGameLogicClient client (Some c1) (Some c2) None)),
             r)
          ∧ GameLogic (globalState r)
            = [mkGameLogicClient client (Some c1) (Some c2) None].
Proof.
  intros Hk.
  assert (E : firstMessage glClient msg w
    = (Ok WaitFinition,
       mkWorld (set_GameLogic [] (globalState w))
         (<[gl_client glClient :=
              set_state CLIENT_KICKED (heap w (gl_client glClient))]> (heap w))
         (nextChan w)
         (trace w ++ [MutexLock]
          ++ kickTrace (gl_client glClient)
               (nickname (heap w (gl_client glClient))) (prematureReason msg)
               (connOk (heap w (gl_client glClient)))
          ++ [MutexUnlock; OnExit 1]))).
  { unfold firstMessage. unfold mbind at 1, M_bind at 1, emit. simpl.
    assert (Hkick : ∀ w0 : World, state (heap w0 (gl_client glClient)) ≠ CLIENT_KICKED →
      match err msg with
      | Some e => Kick (gl_client glClient) ("Game logic error. " +:+ e)
      | None => Kick (gl_client glClient)
                  ("Received a game logic message but "
                   +:+ "the game has not started")
      end w0 = (Ok tt, kickedWorld (gl_client glClient) (prematureReason msg) w0)).
    { intros w0 Hk0. unfold prematureReason.
      destruct (err msg); by rewrite Kick_not_kicked. }
    unfold mbind at 1, M_bind at 1. rewrite Hkick by done.
    unfold_monad. unfold kickedWorld, kickTrace. simpl.
    destruct (connOk _); simpl; rewrite <- !app_assoc; reflexivity. }
  eexists. split; [reflexivity |]. split; [exact E |].
  split; [reflexivity |]. split; [simpl; by rewrite fn_lookup_insert |].
  split; [reflexivity |].
  intros client login n Hne Herr Hparse Hkc Hconn Hphase.
  rewrite (handleClient_valid _ _ _ _ _ Herr Hparse).
  rewrite decide_False by done. rewrite decide_False by done.
  rewrite decide_True by done.
  match goal with |- context [loginGameLogic client ?W] => set (w1 := W) end.
  assert (Hcell : heap w1 client = set_nickname n (heap w client)).
  { unfold w1, loginWorld. simpl. rewrite fn_lookup_insert.
    by rewrite fn_lookup_insert_ne. }
  destruct (loginGameLogic_spec client w1) as (_ & _ & _ & Hacc).
  { by rewrite Hcell. }
  destruct Hacc as (c1 & c2 & r & Hr & Hg & _); [done | simpl; lia | |].
  { by rewrite Hcell. }
  exists c1, c2, r. split; [exact Hr |]. by rewrite Hg.
Qed.

Lemma premature_message_unregisters_witness :
  ∃ w',
    firstMessage lobbyGameLogic doTurnAck (lobbyWorld false 2)
    = (Ok WaitFinition, w')
    ∧ GameLogic (globalState w') = []
    ∧ kickReasons (drop (length (trace (lobbyWorld false 2))) (trace w'))
      = ["Received a game logic message but the game has not started"].
Proof.
  destruct (premature_message_unregisters lobbyGameLogic doTurnAck
              (lobbyWorld false 2))
    as (w' & _ & E & Hg & _ & Ht & _); [vm_compute; discriminate |].
  exists w'. split; [exact E |]. split; [by rewrite Hg |].
  rewrite Ht, drop_app_length. vm_compute. reflexivity.
Defined.

(** X7. DO_INIT cannot be written (lines 86-97): the players have their
    identifiers already, the mutex is released, then the Game Logic is
    kicked with "Cannot send DO_INIT. ..." (no KICK frame: its socket is
    broken), 1 is sent on [onexit] and the coordinator waits in
    [waitGameLogicFinition]. Unlike after a premature message the Game
    Logic stays registered, so a Game Logic that logs in afterwards, in
    phase NOT_RUNNING, is turned down. *)
Theorem doInit_send_failure (glClient : GameLogicClient) (playerIDs : list Z)
    (w : World) :
  connOk (heap w (gl_client glClient)) = false →
  state (heap w (gl_client glClient)) ≠ CLIENT_KICKED →
  (length (Players (globalState w)) ≤ length playerIDs)%nat →
  ∃ w' e,
    startGame glClient playerIDs w = (Ok WaitFinition, w')
    ∧ trace w'
      = trace w ++ [MutexLock; MutexUnlock;
                    LogKicking (gl_client glClient)
                      (nickname (heap w (gl_client glClient)))
                      ("Cannot send DO_INIT. " +:+ e);
                    Sleep (500 * Millisecond); OnExit 1]
    ∧ state (heap w' (gl_client glClient)) = CLIENT_KICKED
    ∧ GameLogic (globalState w') = GameLogic (globalState w)
    ∧ length (Players (globalState w')) = length (Players (globalState w))
    ∧ playerID <$> Players (globalState w')
      = take (length (Players (globalState w))) playerIDs
    ∧ ∀ (client : ClientPtr) (login : ClientMessage) (n : string),
        client ≠ gl_client glClient →
        err login = None →
        readLoginMessage (content login) = (mkMessageLogin n "game logic", None) →
        state (heap w client) ≠ CLIENT_KICKED →
        GameState (globalState w) = GAME_NOT_RUNNING →
        GameLogic (globalState w) ≠ [] →
        ∃ r, handleClient client login w' = (Ok Return, r)
             ∧ kickReasons (drop (length (trace w')) (trace r))
               = ["LOGIN denied: A game logic is already logged in"].
Proof.
  intros Hconn Hk Hlen.
  destruct (assignPlayerIDs_spec (Players (globalState w)) playerIDs 0)
    as (ps & Hassign & Hids & _); [lia |].
  assert (E : startGame glClient playerIDs w
    = (Ok WaitFinition,
       mkWorld
         (set_Players
            ((λ player, set_playerInfo (makePlayerInformation (heap w) player)
                          player) <$> ps) (globalState w))
         (<[gl_client glClient :=
              set_state CLIENT_KICKED (heap w (gl_client glClient))]> (heap w))
         (nextChan w)
         (trace w ++ [MutexLock; MutexUnlock;
                      LogKicking (gl_client glClient)
                        (nickname (heap w (gl_client glClient)))
                        ("Cannot send DO_INIT. " +:+ "write failed");
                      Sleep (500 * Millisecond); OnExit 1]))).
  { unfold startGame. unfold_monad. simpl. rewrite Hassign. simpl.
    unfold sendDoInit, sendMessage, json_Marshal. unfold_monad. simpl.
    rewrite Hconn. simpl. unfold abortGame. unfold mbind at 1, M_bind at 1.
    rewrite Kick_not_kicked by done.
    unfold_monad. unfold kickedWorld, kickTrace. simpl. rewrite Hconn. simpl.
    rewrite <- !app_assoc. reflexivity. }
  eexists _, _. split; [exact E |]. split; [reflexivity |].
  split; [simpl; by rewrite fn_lookup_insert |]. split; [reflexivity |].
  split; [simpl; rewrite length_fmap; by eapply assignPlayerIDs_length |].
  split.
  { rewrite drop_0 in Hids. simpl. rewrite <- list_fmap_compose.
    rewrite <- Hids. by apply list_fmap_ext. }
  intros client login n Hne Herr Hparse Hkc Hphase Hreg.
  rewrite (handleClient_valid _ _ _ _ _ Herr Hparse).
  rewrite decide_False by done. rewrite decide_False by done.
  rewrite decide_True by done.
  match goal with |- context [loginGameLogic client ?W] => set (w1 := W) end.
  assert (Hcell : heap w1 client = set_nickname n (heap w client)).
  { unfold w1, loginWorld. simpl. rewrite fn_lookup_insert.
    by rewrite fn_lookup_insert_ne. }
  destruct (loginGameLogic_spec client w1) as (_ & Hden & _).
  { by rewrite Hcell. }
  destruct Hden as (r & Hr & _ & _ & Ht); [done | |].
  { simpl. destruct (GameLogic (globalState w)); [done | simpl; lia]. }
  exists r. split; [exact Hr |]. rewrite Ht.
  replace (trace w1) with (trace (mkWorld
         (set_Players
            ((λ player, set_playerInfo (makePlayerInformation (heap w) player)
                          player) <$> ps) (globalState w))
         (<[gl_client glClient :=
              set_state CLIENT_KICKED (heap w (gl_client glClient))]> (heap w))
         (nextChan w)
         (trace w ++ [MutexLock; MutexUnlock;
                      LogKicking (gl_client glClient)
                        (nickname (heap w (gl_client glClient)))
                        ("Cannot send DO_INIT. " +:+ "write failed");
                      Sleep (500 * Millisecond); OnExit 1])) ++ [MutexLock])
    by reflexivity.
  rewrite <- app_assoc, drop_app_length.
  unfold kickTrace. simpl.
  match goal with
  | |- context [if connOk ?c then _ else _] => destruct (connOk c)
  end; reflexivity.
Qed.

Lemma doInit_send_failure_witness :
  ∃ w' e,
    startGame lobbyGameLogic [1; 0] brokenWorld = (Ok WaitFinition, w')
    ∧ trace w'
      = trace brokenWorld
        ++ [MutexLock; MutexUnlock;
            LogKicking 7 "gl" ("Cannot send DO_INIT. " +:+ e);
            Sleep (500 * Millisecond); OnExit 1]
    ∧ playerID <$> Players (globalState w') = [1; 0].
Proof.
  destruct (doInit_send_failure lobbyGameLogic [1; 0] brokenWorld)
    as (w' & e & E & Ht & _ & _ & _ & Hids & _);
    [vm_compute; reflexivity | vm_compute; discriminate | vm_compute; lia |].
  exists w', e. split; [exact E |]. split; [exact Ht |]. exact Hids.
Defined.

(** X8. A DO_TURN_ACK that cannot be read or is not valid (lines 219-239):
    whatever the turn, the Game Logic (not kicked before) is kicked with
    "Cannot read DO_TURN_ACK. ..." or "Invalid DO_TURN_ACK message. ...",
    1 is sent on [onexit] and the coordinator waits in
    [waitGameLogicFinition]; the turn number is not advanced and nothing is
    sent to the Players and Visus, neither TURN nor GAME_ENDS. *)
Theorem doTurnAck_failure (glClient : GameLogicClient) (l : TurnLoop)
    (w : World) :
  state (heap w (gl_client glClient)) ≠ CLIENT_KICKED →
  (∀ msg e, err msg = Some e →
     ∃ m, step glClient (InTurnLoop l) (RecvIncoming msg) = Some m
          ∧ m w = (Ok WaitFinition,
                   abortedWorld glClient ("Cannot read DO_TURN_ACK. " +:+ e) w))
  ∧ (∀ msg e, err msg = None →
       (readDoTurnAckMessage (content msg) (initialNbPlayers l)).2 = Some e →
       ∃ m, step glClient (InTurnLoop l) (RecvIncoming msg) = Some m
            ∧ m w = (Ok WaitFinition,
                     abortedWorld glClient
                       ("Invalid DO_TURN_ACK message. " +:+ e) w))
  ∧ ∀ reason, notes (drop (length (trace w))
                       (trace (abortedWorld glClient reason w))) = []
              ∧ exitCodes (drop (length (trace w))
                             (trace (abortedWorld glClient reason w))) = [1].
Proof.
  intros Hk. split; [| split].
  - intros msg e Herr. eexists. split; [reflexivity |].
    unfold gotDoTurnAck. rewrite Herr. by apply abortGame_spec.
  - intros msg e Herr Hparse. eexists. split; [reflexivity |].
    unfold gotDoTurnAck. rewrite Herr.
    destruct (readDoTurnAckMessage _ _) as [ack e']. simpl in Hparse. subst e'.
    by apply abortGame_spec.
  - intros reason. unfold abortedWorld. simpl. rewrite drop_app_length.
    unfold kickTrace. destruct (connOk _); done.
Qed.

Lemma doTurnAck_failure_witness :
  ∃ m, step lobbyGameLogic (InTurnLoop pendingLoop)
         (RecvIncoming (doTurnAckWon 5)) = Some m
       ∧ (m (lobbyWorld false 2)).1 = Ok WaitFinition
       ∧ kickReasons (drop (length (trace (lobbyWorld false 2)))
                        (trace (m (lobbyWorld false 2)).2))
         = ["Invalid DO_TURN_ACK message. invalid DO_TURN_ACK message"].
Proof.
  destruct (doTurnAck_failure lobbyGameLogic pendingLoop (lobbyWorld false 2))
    as (_ & Hinv & _); [vm_compute; discriminate |].
  destruct (Hinv (doTurnAckWon 5) "invalid DO_TURN_ACK message")
    as (m & Hs & Hm); [reflexivity | vm_compute; reflexivity |].
  exists m. split; [exact Hs |]. rewrite Hm. split; [reflexivity |].
  vm_compute. reflexivity.
Defined.

(** X15. Fast mode, a send signal already waiting in [sendDoTurnToGL] (the
    channel holds one value): when a player action then completes the set
    (line 205), the coordinator sends on the full channel, which only
    itself could receive from: it blocks for ever, holding the mutex, and
    sends nothing more. This is reached in a regular game: after a
    DO_TURN_ACK with no action collected the signal is posted (line 263),
    and the player's answer to that TURN may be taken first. *)
Theorem fast_pending_signal_blocks (glClient : GameLogicClient) (l : TurnLoop)
    (action : MessageDoTurnPlayerAction) (w : World) :
  Fast (globalState w) = true →
  sendDoTurnToGL l ≠ 0%nat →
  ready (playerAction glClient) = true →
  length (collectAction action (playerActions l))
  = length (Players (globalState w)) →
  ∃ m, step glClient (InTurnLoop l) (RecvPlayerAction action) = Some m
       ∧ m w = (Blocked, addTrace [MutexLock] w)
       ∧ ∀ evs, run glClient (InTurnLoop l) (RecvPlayerAction action :: evs) w
                = Some (Blocked, addTrace [MutexLock] w).
Proof.
  intros Hfast Hbuf Hready Hlen.
  assert (Hm : (l0 ← checkPlayerCount
                      (mkTurnLoop (initialNbPlayers l) (playersInfo l)
                         (turnNumber l) (collectAction action (playerActions l))
                         (sendDoTurnToGL l) (timers l));
                mret (InTurnLoop l0)) w = (Blocked, addTrace [MutexLock] w)).
  { unfold checkPlayerCount, postSendDoTurn. unfold_monad. simpl.
    rewrite Hfast. simpl. rewrite decide_True by done.
    rewrite decide_False by done. reflexivity. }
  eexists. split; [simpl; rewrite Hready; reflexivity |].
  split; [exact Hm |].
  intros evs. rewrite run_cons. simpl. rewrite Hready. by rewrite Hm.
Qed.

Lemma fast_pending_signal_blocks_witness :
  run soloGameLogic WaitStart pendingSchedule (soloWorld true 3)
  = Some (Ok (InTurnLoop pendingLoop), pendingWorld)
  ∧ answersOnly soloGameLogic (length (trace (soloWorld true 3))) WaitStart
      pendingSchedule (soloWorld true 3)
  ∧ ∃ m, step soloGameLogic (InTurnLoop pendingLoop)
           (RecvPlayerAction (actionOf 0 0)) = Some m
         ∧ m pendingWorld = (Blocked, addTrace [MutexLock] pendingWorld).
Proof.
  split; [vm_compute; reflexivity |]. split; [vm_compute; repeat split |].
  destruct (fast_pending_signal_blocks soloGameLogic pendingLoop
              (actionOf 0 0) pendingWorld)
    as (m & Hs & Hm & _);
    [vm_compute; reflexivity | vm_compute; discriminate | reflexivity
     | vm_compute; reflexivity |].
  exists m. split; [exact Hs | exact Hm].
Defined.

(** ** Registrations *)

Lemma Kick_frame c reason w :
  ∃ r, Kick c reason w = (Ok tt, r) ∧ globalState r = globalState w
       ∧ nextChan r = nextChan w.
Proof.
  destruct (decide (state (heap w c) = CLIENT_KICKED)) as [Hk | Hk].
  - rewrite Kick_already_kicked by done. eauto.
  - rewrite Kick_not_kicked by done. eauto.
Qed.

Lemma reject_registered c reason w0 w :
  globalState w = globalState w0 →
  ∃ r, (emit MutexUnlock ;; Kick c reason ;; mret Return) w = (Ok Return, r)
       ∧ globalState r = globalState w0.
Proof.
  intros Hg. unfold_monad. simpl.
  edestruct Kick_frame as (r & -> & Hr & _).
  exists r. split; [done |]. by rewrite Hr.
Qed.

Lemma sendLoginACK_frame c w :
  ∃ e r, sendLoginACK c w = (Ok e, r) ∧ globalState r = globalState w
         ∧ nextChan r = nextChan w
         ∧ (e = None →
            r = addTrace [Sent c (MessageLoginAck "LOGIN_ACK")] w).
Proof.
  destruct (connOk (heap w c)) eqn:Hc.
  - rewrite sendLoginACK_ok by done. eauto 10.
  - rewrite sendLoginACK_broken by done. eexists _, _. split_and!; done.
Qed.

Ltac reject_tac H :=
  match goal with
  | |- ∃ h r, (emit MutexUnlock ;; Kick ?c ?reason ;; mret Return) ?w = _ ∧ _ =>
      let r := fresh "r" in let E := fresh "E" in let Hr := fresh "Hr" in
      destruct (reject_registered c reason _ w H) as (r & E & Hr);
      exists Return, r; split; [exact E | split; [exact Hr | done]]
  end.

Lemma loginPlayer_registered client w0 w :
  globalState w = globalState w0 → nextChan w = nextChan w0 →
  ∃ h r, loginPlayer client w = (Ok h, r) ∧ registered client w0 h r
         ∧ (h ≠ Return →
            trace r = trace w ++ [Sent client (MessageLoginAck "LOGIN_ACK");
                                  MutexUnlock]
            ∧ heap r = heap w).
Proof.
  intros Hg Hn.
  unfold loginPlayer. unfold mbind at 1, M_bind at 1, getGlobalState.
  destruct (decide _) as [| Hphase]; [reject_tac Hg |].
  apply dec_stable in Hphase.
  destruct (decide _); [reject_tac Hg |].
  unfold mbind at 1, M_bind at 1.
  destruct (sendLoginACK_frame client w) as (e & r & -> & Hr & Hnr & He).
  destruct e; [rewrite <- Hr in Hg; reject_tac Hg |].
  rewrite (He eq_refl). unfold_monad. simpl. eexists _, _.
  split; [reflexivity |]. simpl. rewrite Hn, <- Hg.
  split; [| intros _; by rewrite <- app_assoc].
  split; [done |]. split; [done |]. split; [lia | done].
Qed.

Lemma loginVisualization_registered client w0 w :
  globalState w = globalState w0 → nextChan w = nextChan w0 →
  ∃ h r, loginVisualization client w = (Ok h, r) ∧ registered client w0 h r
         ∧ (h ≠ Return →
            trace r = trace w ++ [Sent client (MessageLoginAck "LOGIN_ACK");
                                  MutexUnlock]
            ∧ heap r = heap w).
Proof.
  intros Hg Hn.
  unfold loginVisualization. unfold mbind at 1, M_bind at 1, getGlobalState.
  destruct (decide _); [reject_tac Hg |].
  unfold mbind at 1, M_bind at 1.
  destruct (sendLoginACK_frame client w) as (e & r & -> & Hr & Hnr & He).
  destruct e; [rewrite <- Hr in Hg; reject_tac Hg |].
  rewrite (He eq_refl). unfold_monad. simpl. eexists _, _.
  split; [reflexivity |]. simpl. rewrite Hn, <- Hg.
  split; [| intros _; by rewrite <- app_assoc].
  split; [done |]. split; [lia | done].
Qed.

Lemma loginGameLogic_registered client w0 w :
  globalState w = globalState w0 → nextChan w = nextChan w0 →
  ∃ h r, loginGameLogic client w = (Ok h, r) ∧ registered client w0 h r
         ∧ (h ≠ Return →
            trace r = trace w ++ [Sent client (MessageLoginAck "LOGIN_ACK");
                                  MutexUnlock]
            ∧ heap r = heap w).
Proof.
  intros Hg Hn.
  unfold loginGameLogic. unfold mbind at 1, M_bind at 1, getGlobalState.
  destruct (decide _) as [| Hphase]; [reject_tac Hg |].
  apply dec_stable in Hphase.
  destruct (decide _) as [| Hroom]; [reject_tac Hg |].
  unfold mbind at 1, M_bind at 1.
  destruct (sendLoginACK_frame client w) as (e & r & -> & Hr & Hnr & He).
  destruct e; [rewrite <- Hr in Hg; reject_tac Hg |].
  rewrite (He eq_refl). unfold_monad. simpl. eexists _, _.
  split; [reflexivity |]. simpl. rewrite Hn, <- Hg.
  split; [| intros _; by rewrite <- app_assoc].
  split; [done |]. split; [done |].
  destruct (GameLogic (globalState w)); simpl in *; [done | lia].
Qed.

(** [handleClient] always returns. What it registers is told by the
    handler it ends in; when it hands over to a handler it has written
    LOGIN_ACK, and nothing else, while holding the mutex. *)
Lemma handleClient_accepts client msg w :
  ∃ h r, handleClient client msg w = (Ok h, r) ∧ registered client w h r
         ∧ (h ≠ Return →
            ∃ lm, readLoginMessage (content msg) = (lm, None)
                  ∧ trace r = trace w ++ [MutexLock;
                                          Sent client (MessageLoginAck "LOGIN_ACK");
                                          MutexUnlock]
                  ∧ heap r = <[client := set_nickname (login_nickname lm)
                                           (heap w client)]> (heap w)).
Proof.
  unfold handleClient.
  destruct (err msg) as [e |].
  { unfold mbind, M_bind.
    destruct (Kick_frame client ("Invalid first message: " +:+ e) w)
      as (r & -> & Hr & _).
    exists Return, r. split; [done |]. split; [simpl; by rewrite Hr | done]. }
  destruct (readLoginMessage (content msg)) as [lm [e |]].
  { unfold mbind, M_bind.
    destruct (Kick_frame client ("Invalid first message: " +:+ e) w)
      as (r & -> & Hr & _).
    exists Return, r. split; [done |]. split; [simpl; by rewrite Hr | done]. }
  unfold mbind at 1, M_bind at 1, modifyClient.
  unfold mbind at 1, M_bind at 1, emit.
  set (v := mkWorld _ _ _ _).
  assert (Hv : ∀ h r,
    (h ≠ Return →
     trace r = trace v ++ [Sent client (MessageLoginAck "LOGIN_ACK"); MutexUnlock]
     ∧ heap r = heap v) →
    h ≠ Return →
    ∃ lm0, (lm, @None string) = (lm0, None)
           ∧ trace r = trace w ++ [MutexLock;
                                   Sent client (MessageLoginAck "LOGIN_ACK");
                                   MutexUnlock]
           ∧ heap r = <[client := set_nickname (login_nickname lm0)
                                    (heap w client)]> (heap w)).
  { intros h r Hacc Hh. destruct (Hacc Hh) as (Ht & Hheap).
    exists lm. split; [done |]. rewrite Ht, Hheap. unfold v. simpl.
    by rewrite <- app_assoc. }
  destruct (decide _).
  { destruct (loginPlayer_registered client w v) as (h & r & -> & Hreg & Hacc);
      [done.. |]. exists h, r. eauto. }
  destruct (decide _).
  { destruct (loginVisualization_registered client w v)
      as (h & r & -> & Hreg & Hacc); [done.. |]. exists h, r. eauto. }
  destruct (decide _).
  { destruct (loginGameLogic_registered client w v)
      as (h & r & -> & Hreg & Hacc); [done.. |]. exists h, r. eauto. }
  exists Return, v. split; [done |]. split; done.
Qed.

Lemma handleClient_registered client msg w :
  ∃ h r, handleClient client msg w = (Ok h, r) ∧ registered client w h r.
Proof.
  destruct (handleClient_accepts client msg w) as (h & r & E & Hreg & _).
  eauto.
Qed.

Lemma startGame_length glClient playerIDs w :
  length (Players (globalState (startGame glClient playerIDs w).2))
  = length (Players (globalState w)).
Proof.
  unfold startGame. unfold_monad. simpl.
  destruct (assignPlayerIDs _ _ _) as [ps |] eqn:Hps; [| done]. simpl.
  apply assignPlayerIDs_fields in Hps. apply Forall2_length in Hps.
  unfold sendDoInit, sendMessage, abortGame, Kick, sendMessage, json_Marshal.
  unfold_monad. simpl.
  repeat (case_match; simpl); simplify_eq; simpl; by rewrite length_fmap.
Qed.

Lemma step_length glClient ph ev m w :
  step glClient ph ev = Some m →
  length (Players (globalState (m w).2)) = length (Players (globalState w)).
Proof.
  intros Hs.
  assert (Hd : ph = WaitStart ∨ ph ≠ WaitStart)
    by (destruct ph; auto; right; discriminate).
  destruct Hd as [-> | Hph].
  - destruct ev; simpl in Hs; repeat case_match; simplify_eq.
    + apply startGame_length.
    + done.
    + unfold firstMessage, Kick, sendMessage. unfold_monad. simpl.
      repeat (case_match; simpl); simplify_eq; done.
  - by rewrite (step_reads _ _ _ _ Hph Hs w).
Qed.

Lemma startGame_seats glClient playerIDs w :
  seat <$> Players (globalState (startGame glClient playerIDs w).2)
  = seat <$> Players (globalState w).
Proof.
  unfold startGame. unfold_monad. simpl.
  destruct (assignPlayerIDs _ _ _) as [ps |] eqn:Hps; [| done]. simpl.
  apply assignPlayerIDs_fields in Hps.
  assert (Hseat : seat <$> ((λ player,
                     set_playerInfo (makePlayerInformation (heap w) player) player)
                    <$> ps)
                  = seat <$> Players (globalState w)).
  { induction Hps as [| p p' l l' (id & ->) _ IH]; [done |].
    rewrite !fmap_cons, IH. done. }
  unfold sendDoInit, sendMessage, abortGame, Kick, sendMessage, json_Marshal.
  unfold_monad. simpl.
  repeat (case_match; simpl); simplify_eq; simpl; exact Hseat.
Qed.

Lemma step_seats glClient ph ev m w :
  step glClient ph ev = Some m →
  seat <$> Players (globalState (m w).2) = seat <$> Players (globalState w).
Proof.
  intros Hs.
  assert (Hd : ph = WaitStart ∨ ph ≠ WaitStart)
    by (destruct ph; auto; right; discriminate).
  destruct Hd as [-> | Hph].
  - destruct ev; simpl in Hs; repeat case_match; simplify_eq.
    + apply startGame_seats.
    + done.
    + unfold firstMessage, Kick, sendMessage. unfold_monad. simpl.
      repeat (case_match; simpl); simplify_eq; done.
  - by rewrite (step_reads _ _ _ _ Hph Hs w).
Qed.

#[global] Instance grown_refl : Reflexive grown.
Proof. intros g. unfold grown. auto 10. Qed.

#[global] Instance grown_trans : Transitive grown.
Proof.
  intros g1 g2 g3 (H1 & H2 & H3 & H4 & H5 & H6 & H7 & H8)
    (K1 & K2 & K3 & K4 & K5 & K6 & K7 & K8).
  unfold grown. split_and!; try congruence; [by etrans | by etrans | auto].
Qed.

Lemma served_grown w w' :
  served w w' → grown (globalState w) (globalState w').
Proof.
  intros [client msg r w0 w0' Hlogin | glClient ph ev m r w0 w0' Hs Hm].
  - destruct (handleClient_registered client msg w0) as (h & r' & E & Hreg).
    rewrite E in Hlogin. simplify_eq.
    destruct h as [| pv | gl]; simpl in Hreg.
    + rewrite Hreg. reflexivity.
    + destruct Hreg as (_ & Hreg). destruct (isPlayer pv).
      * destruct Hreg as (_ & Hroom & ->). unfold grown, withinCaps. simpl.
        rewrite fmap_app, length_app. simpl.
        split_and!; try done; try (by apply prefix_app_r);
          try (intros (? & ? & ?); split_and!; try done; lia).
      * destruct Hreg as (Hroom & ->). unfold grown, withinCaps. simpl.
        rewrite length_app. simpl.
        split_and!; try done; try (by apply prefix_app_r);
          try (intros (? & ? & ?); split_and!; try done; lia).
    + destruct Hreg as (_ & _ & Hnone & ->). unfold grown, withinCaps. simpl.
      split_and!; try done;
        try (intros (? & ? & ?); split_and!; try done; simpl; lia).
  - pose proof (step_coordinated _ _ _ _ Hs w0) as Hco.
    pose proof (step_length _ _ _ _ w0 Hs) as Hlen.
    pose proof (step_seats _ _ _ _ w0 Hs) as Hseats.
    rewrite Hm in Hco, Hlen, Hseats. simpl in Hco, Hlen, Hseats.
    destruct Hco as (C1 & C2 & C3 & C4 & C5 & C6 & C7).
    unfold grown, withinCaps. rewrite C1, C3, C4, C5, C6, C7, Hlen, Hseats.
    split_and!; try done. intros (? & ? & ?). split_and!; try done.
    destruct C2 as [-> | ->]; [done | simpl; lia].
Qed.

(** X4. The registries stay within their caps. Along any sequence of
    LOGINs handled by [handleClient] and of coordinator iterations: the
    phase and the configuration never change; no Player and no Visu ever
    leaves its registry or changes place in it (the later registry starts
    with the earlier one: for the Visus entry by entry, for the Players
    with the same client, role and channels at each place, the start step
    rewriting their identifier and information record); and if the number
    of Players, of Visus and of Game Logics were within nbPlayersMax,
    nbVisusMax and 1, they still are. *)
Theorem registries_within_caps (w w' : World) :
  rtc served w w' →
  GameState (globalState w') = GameState (globalState w)
  ∧ NbPlayersMax (globalState w') = NbPlayersMax (globalState w)
  ∧ NbVisusMax (globalState w') = NbVisusMax (globalState w)
  ∧ NbTurnsMax (globalState w') = NbTurnsMax (globalState w)
  ∧ Fast (globalState w') = Fast (globalState w)
  ∧ (seat <$> Players (globalState w))
    `prefix_of` (seat <$> Players (globalState w'))
  ∧ Visus (globalState w) `prefix_of` Visus (globalState w')
  ∧ (withinCaps (globalState w) → withinCaps (globalState w')).
Proof.
  intros Hrtc. change (grown (globalState w) (globalState w')).
  induction Hrtc as [| w1 w2 w3 Hstep _ IH]; [reflexivity |].
  etrans; [by apply served_grown | exact IH].
Qed.

Lemma served_handleClient client msg w : served w (handleClient client msg w).2.
Proof.
  destruct (handleClient client msg w) as [r w'] eqn:E.
  by eapply served_login.
Qed.

Lemma registries_within_caps_witness :
  withinCaps (globalState (sampleWorld GAME_NOT_RUNNING false 2))
  ∧ length (Players (globalState (lobbyWorld false 2))) = 2%nat
  ∧ withinCaps
      (globalState
         (handleClient 9 (loginOf "p3" "player") (lobbyWorld false 2)).2).
Proof.
  assert (Hcaps : withinCaps (globalState (sampleWorld GAME_NOT_RUNNING false 2)))
    by (vm_compute; split_and!; (discriminate || lia)).
  split; [exact Hcaps |]. split; [vm_compute; reflexivity |].
  refine (proj2 (proj2 (proj2 (proj2 (proj2 (proj2 (proj2
           (registries_within_caps (sampleWorld GAME_NOT_RUNNING false 2)
              (handleClient 9 (loginOf "p3" "player") (lobbyWorld false 2)).2
              _))))))) Hcaps).
  unfold lobbyWorld. cbv zeta.
  do 5 (eapply rtc_r; [| apply served_handleClient]).
  apply rtc_refl.
Defined.

(** ** The first message *)



(** X2. A LOGIN with role "game logic" (lines 148-178), from a client not
    kicked before: it is accepted exactly when the phase is NOT_RUNNING,
    no Game Logic is registered and LOGIN_ACK could be written; LOGIN_ACK
    is then written between the lock and the unlock and the registry holds
    the new client alone, with its two channels just made and
    [playerDisconnected] nil. When LOGIN_ACK cannot be written the client
    is kicked with "LOGIN denied: Could not send LOGIN_ACK" and not
    registered. *)
Theorem gameLogic_login (client : ClientPtr) (msg : ClientMessage) (n : string)
    (w : World) :
  err msg = None →
  readLoginMessage (content msg) = (mkMessageLogin n "game logic", None) →
  state (heap w client) ≠ CLIENT_KICKED →
  (GameState (globalState w) = GAME_NOT_RUNNING →
   GameLogic (globalState w) = [] →
   connOk (heap w client) = true →
   ∃ r, handleClient client msg w
        = (Ok (HandleGameLogic
                 (mkGameLogicClient client (Some (nextChan w))
                    (Some (S (nextChan w))) None)), r)
        ∧ GameLogic (globalState r)
          = [mkGameLogicClient client (Some (nextChan w))
               (Some (S (nextChan w))) None]
        ∧ nickname (heap r client) = n
        ∧ trace r = trace w ++ [MutexLock;
                                Sent client (MessageLoginAck "LOGIN_ACK");
                                MutexUnlock])
  ∧ (GameState (globalState w) = GAME_NOT_RUNNING →
     GameLogic (globalState w) = [] →
     connOk (heap w client) = false →
     ∃ r, handleClient client msg w = (Ok Return, r)
          ∧ loginDenied client n "LOGIN denied: Could not send LOGIN_ACK" w r)
  ∧ (∀ glClient r,
       handleClient client msg w = (Ok (HandleGameLogic glClient), r) →
       GameState (globalState w) = GAME_NOT_RUNNING
       ∧ GameLogic (globalState w) = []
       ∧ connOk (heap w client) = true).
Proof.
  intros Herr Hparse Hk.
  destruct (handleClient_registered client msg w) as (h0 & r0 & E0 & Hreg).
  revert E0.
  rewrite (handleClient_valid _ _ _ _ _ Herr Hparse).
  rewrite decide_False by done. rewrite decide_False by done.
  rewrite decide_True by done. intros E0.
  pose proof (loginWorld_state client n w) as Hs.
  pose proof (loginWorld_connOk client n w) as Hc.
  assert (Hk' : state (heap (loginWorld client n w) client) ≠ CLIENT_KICKED)
    by (by rewrite Hs).
  split; [| split].
  - intros Hphase Hnone Hconn.
    destruct (loginGameLogic_spec client (loginWorld client n w) Hk')
      as (_ & _ & _ & Hacc).
    destruct Hacc as (c1 & c2 & r & Hr & Hg & Hh & Ht);
      [done | simpl; rewrite Hnone; simpl; lia | by rewrite Hc |].
    rewrite Hr in E0. injection E0 as <- <-. simpl in Hreg.
    destruct Hreg as (Hgl & _ & _ & Hg'). injection Hgl as -> ->.
    exists r. split; [exact Hr |]. split; [by rewrite Hg' |].
    split; [rewrite Hh; apply loginWorld_nickname |].
    rewrite Ht. unfold loginWorld. simpl. by rewrite <- app_assoc.
  - intros Hphase Hnone Hconn.
    destruct (loginGameLogic_spec client (loginWorld client n w) Hk')
      as (_ & _ & Hfail & _).
    destruct Hfail as (r & Hr & Hrej); [done | simpl; rewrite Hnone; simpl; lia
                                        | by rewrite Hc |].
    exists r. split; [exact Hr |]. by apply rejected_loginDenied.
  - intros glClient r E.
    destruct (loginGameLogic_spec client (loginWorld client n w) Hk')
      as (H1 & H2 & H3 & _).
    destruct (decide (GameState (globalState w) = GAME_NOT_RUNNING))
      as [Hphase | Hphase];
      [| destruct (H1 Hphase) as (r' & Hr' & _); rewrite Hr' in E; done].
    split; [done |].
    destruct (GameLogic (globalState w)) as [| gl0 gls] eqn:Hgls.
    + split; [done |].
      destruct (connOk (heap w client)) eqn:Hconn; [done |].
      destruct H3 as (r' & Hr' & _);
        [done | simpl; rewrite Hgls; simpl; lia | by rewrite Hc |].
      rewrite Hr' in E. done.
    + destruct H2 as (r' & Hr' & _);
        [done | simpl; rewrite Hgls; simpl; lia |].
      rewrite Hr' in E. done.
Qed.

Lemma gameLogic_login_witness :
  ∃ r, handleClient 7 (loginOf "gl" "game logic")
         (sampleWorld GAME_NOT_RUNNING false 3)
       = (Ok (HandleGameLogic sampleGameLogic), r)
       ∧ GameLogic (globalState r) = [sampleGameLogic]
       ∧ trace r = [MutexLock; Sent 7 (MessageLoginAck "LOGIN_ACK"); MutexUnlock].
Proof.
  destruct (gameLogic_login 7 (loginOf "gl" "game logic") "gl"
              (sampleWorld GAME_NOT_RUNNING false 3))
    as (Hacc & _); [reflexivity | reflexivity | vm_compute; discriminate |].
  destruct Hacc as (r & E & Hg & _ & Ht); [reflexivity.. |].
  exists r. split; [exact E |]. split; [exact Hg | exact Ht].
Defined.

(** ** The footprint of [Kick] and of [handleClient] *)

#[global] Instance others_refl c : Reflexive (others c).
Proof. by intros w p. Qed.

#[global] Instance others_trans c : Transitive (others c).
Proof. intros w1 w2 w3 H1 H2 p Hp. rewrite H2, H1; done. Qed.

Lemma others_trace c w t :
  others c w (mkWorld (globalState w) (heap w) (nextChan w) t).
Proof. by intros p. Qed.

Lemma others_modifyClient c f : keeps (others c) (modifyClient c f).
Proof. intros w p Hp. simpl. by rewrite fn_lookup_insert_ne. Qed.

Lemma others_Kick c reason : keeps (others c) (Kick c reason).
Proof.
  apply keeps_Kick; try apply _; [apply others_trace | apply others_modifyClient].
Qed.

Ltac others_tac c :=
  repeat first
    [ apply (others_Kick c)
    | apply (others_modifyClient c)
    | (intros ? ? ?; reflexivity)
    | keeps_step (others c) (others_trace c)
    | match goal with
      | |- keeps _ (match ?x with _ => _ end) => destruct x
      | |- keeps _ (if ?x then _ else _) => destruct x
      | |- keeps _ (let '(_, _) := ?x in _) => destruct x
      end ].

Lemma handleClient_others client msg :
  keeps (others client) (handleClient client msg).
Proof.
  unfold handleClient, loginPlayer, loginVisualization, loginGameLogic,
    sendLoginACK, json_Marshal.
  others_tac client.
Qed.

Lemma handleClient_onlyTo client msg :
  emitsOnly (onlyTo client) (handleClient client msg).
Proof.
  unfold handleClient, loginPlayer, loginVisualization, loginGameLogic,
    sendLoginACK, json_Marshal.
  emits_tac; done.
Qed.

(** X3. [handleClient] always returns, whatever the message and the state
    of the client. A LOGIN that is turned down leaves the global state as
    it was. A LOGIN that is accepted appends the client it built (player
    identifier -1, channels just made) to the registry of its role and to
    no other, and only where there was room (for a Player or a Game Logic
    only in phase NOT_RUNNING); the client was then written LOGIN_ACK and
    nothing else, between the lock and the unlock, and was not kicked.
    Whatever the outcome, only the record and the socket of this client are
    touched. *)
Theorem handleClient_registers (client : ClientPtr) (msg : ClientMessage)
    (w : World) :
  ∃ h r,
    handleClient client msg w = (Ok h, r)
    ∧ registered client w h r
    ∧ (∀ p, p ≠ client → heap r p = heap w p)
    ∧ ∃ t, trace r = trace w ++ t
           ∧ Forall (onlyTo client) t
           ∧ (∀ p, p ≠ client → sentTo p t = [])
           ∧ (h ≠ Return →
              t = [MutexLock; Sent client (MessageLoginAck "LOGIN_ACK");
                   MutexUnlock]
              ∧ state (heap r client) = state (heap w client)).
Proof.
  destruct (handleClient_accepts client msg w) as (h & r & E & Hreg & Hacc).
  exists h, r. split; [exact E |]. split; [exact Hreg |].
  pose proof (handleClient_others client msg w) as Ho.
  destruct (handleClient_onlyTo client msg w) as (t & Ht & Honly).
  rewrite E in Ho, Ht. simpl in Ho, Ht.
  split; [exact Ho |]. exists t. split; [exact Ht |]. split; [exact Honly |].
  split; [intros p Hp; by eapply sentTo_onlyTo |].
  intros Hh. destruct (Hacc Hh) as (lm & _ & Ht' & Hheap).
  split.
  - rewrite Ht' in Ht. by apply app_inv_head in Ht.
  - rewrite Hheap, fn_lookup_insert. done.
Qed.

(** X5. [Kick] always returns and leaves the client KICKED. It changes
    nothing else: not the global state, not the other fields of the
    client, not any other client, and it makes no channel. It writes at
    most one frame, the KICK with the given reason, on the socket of this
    client only, and exactly then when the client was not KICKED and its
    connection takes the frame; the send is best effort: when it fails the
    client is KICKED all the same and the 500 ms pause is observed. It
    neither takes nor releases the mutex and sends nothing on [onexit]. *)
Theorem Kick_footprint (client : ClientPtr) (reason : string) (w : World) :
  ∃ w' t,
    Kick client reason w = (Ok tt, w')
    ∧ state (heap w' client) = CLIENT_KICKED
    ∧ globalState w' = globalState w
    ∧ footprint client w w'
    ∧ trace w' = trace w ++ t
    ∧ Forall (onlyTo client) t
    ∧ Forall noMutex t
    ∧ exitCodes t = []
    ∧ sentTo client t
      = (if decide (state (heap w client) = CLIENT_KICKED) then []
         else if connOk (heap w client) then [MessageKick "KICK" reason]
              else [])
    ∧ (state (heap w client) ≠ CLIENT_KICKED →
       last t = Some (Sleep (500 * Millisecond))
       ∧ 500 * Millisecond = 500000000 * Nanosecond).
Proof.
  pose proof (Kick_footprint_keeps client reason w) as Hf.
  pose proof (Kick_state client reason w) as Hs.
  destruct (decide (state (heap w client) = CLIENT_KICKED)) as [Hk | Hk].
  - rewrite Kick_already_kicked in * by done.
    exists w, []. rewrite app_nil_r. split_and!; try done.
  - rewrite Kick_not_kicked in * by done.
    eexists (kickedWorld client reason w), _. split; [done |].
    split; [done |]. split; [done |]. split; [done |].
    split; [reflexivity |].
    unfold kickTrace. destruct (connOk (heap w client)); simpl.
    + rewrite decide_True by done.
      split_and!; try done; repeat constructor.
    + split_and!; try done; repeat constructor.
Qed.

(** ** Games of at most one turn *)

Lemma firstTurn_step glClient g t0 l ev w t m ph' w' :
  Fast g = false →
  NbTurnsMax g ≤ 1 →
  started glClient g t0 w t →
  firstTurn (gl_client glClient) g l t →
  answers glClient (length t0) (InTurnLoop l) ev w →
  step glClient (InTurnLoop l) ev = Some m →
  m w = (Ok ph', w') →
  (∃ l', ph' = InTurnLoop l' ∧ started glClient g t0 w' t
         ∧ firstTurn (gl_client glClient) g l' t)
  ∨ (ph' = WaitFinition
     ∧ ∃ t', globalState w' = g ∧ trace w' = t0 ++ t'
             ∧ frameType <$> sentTo (gl_client glClient) t'
               = ["DO_INIT"; "DO_TURN"; "KICK"]
             ∧ kickReasons t' = ["Game is finished"]
             ∧ exitCodes t' = [0]
             ∧ notes t' = (GameStartsOn <$> channels gameStarts g)
                          ++ (GameEndsOn <$> channels gameEnds g)).
Proof.
  intros Hfast HN (Hg & Ht & Hstate & Hconn) Hinv Hans Hstep Hm.
  destruct Hinv as (J1 & J2 & J3 & J4 & J5 & J6 & J7).
  destruct ev as [ids | | msg | d | | action | |]; simpl in Hstep; try done.
  - (* the DO_TURN_ACK *)
    injection Hstep as <-. destruct Hans as (Herr & Hparse & _).
    right. apply gotDoTurnAck_end in Hm as (-> & Hg' & tf & Ht' & Hint & Hn);
      [| done | done | rewrite Hg; lia | done].
    split; [done |]. rewrite Hconn in Ht'.
    set (kt := kickTrace _ _ _ _) in Ht'.
    exists (t ++ tf ++ kt ++ [OnExit 0]). split; [by rewrite Hg' |].
    split; [by rewrite Ht', Ht, <- app_assoc |].
    destruct (internal_quiet (gl_client glClient) tf Hint) as (Hs & Hkr & Hex).
    destruct (kickTrace_read (gl_client glClient)
                (nickname (heap w (gl_client glClient))) "Game is finished")
      as (Ks & Kk & Ke & Kn).
    fold kt in Ks, Kk, Ke, Kn.
    rewrite !sentTo_app, !kickReasons_app, !exitCodes_app, !notes_app.
    rewrite Hs, Hkr, Hex, Ks, Kk, Ke, Kn, J5, J6, J7, Hn, Hg. simpl.
    rewrite fmap_app, J4. simpl. by rewrite app_nil_r.
  - (* the send signal: none is pending *)
    by rewrite decide_True in Hstep.
  - (* a player action *)
    destruct (ready (playerAction glClient)); [| done]. injection Hstep as <-.
    left. revert Hm. unfold checkPlayerCount. unfold_monad. simpl.
    rewrite Hg, Hfast. intros Hm. injection Hm as <- <-.
    eexists. split; [reflexivity |]. split; [done |].
    unfold firstTurn. simpl. done.
  - (* a player disconnection *)
    destruct (ready (playerDisconnected glClient)); [| done].
    injection Hstep as <-.
    left. revert Hm. unfold checkPlayerCount. unfold_monad. simpl.
    rewrite Hg, Hfast. intros Hm. injection Hm as <- <-.
    eexists. split; [reflexivity |]. split; [done |]. done.
  - (* no timer is running *)
    rewrite decide_False in Hstep; [done |]. intros (? & _). done.
Qed.

(** X16. Games of at most one turn. In normal mode with nbTurnsMax at most
    1, also 0 or negative, and a Game Logic that only answers: a game that
    is played to its end has sent the Game Logic DO_INIT, one DO_TURN, then
    KICK "Game is finished", with exit code 0; the Players and Visus
    received GAME_STARTS then GAME_ENDS and never a TURN. So one turn is
    always computed, even when none was asked for. *)
Theorem single_turn_game (glClient : GameLogicClient) (evs : list Event)
    (w w' : World) :
  Fast (globalState w) = false →
  NbTurnsMax (globalState w) ≤ 1 →
  state (heap w (gl_client glClient)) ≠ CLIENT_KICKED →
  connOk (heap w (gl_client glClient)) = true →
  answersOnly glClient (length (trace w)) WaitStart evs w →
  run glClient WaitStart evs w = Some (Ok WaitFinition, w') →
  ∃ t, trace w' = trace w ++ t
       ∧ frameType <$> sentTo (gl_client glClient) t
         = ["DO_INIT"; "DO_TURN"; "KICK"]
       ∧ kickReasons t = ["Game is finished"]
       ∧ exitCodes t = [0]
       ∧ notes t = (GameStartsOn <$> channels gameStarts (globalState w'))
                   ++ (GameEndsOn <$> channels gameEnds (globalState w')).
Proof.
  intros Hfast HN Hstate Hconn Hans Hrun.
  destruct evs as [| ev evs]; [simpl in Hrun; by simplify_eq |].
  rewrite run_cons in Hrun. rewrite answersOnly_cons in Hans.
  destruct Hans as (Hev & Hans).
  destruct (step glClient WaitStart ev) as [m |] eqn:Hstep; [| done].
  destruct ev as [ids | | msg | d | | action | |]; simpl in Hstep, Hev;
    try done.
  destruct (ready (start glClient)); [| done]. injection Hstep as <-.
  destruct (startGame glClient ids w) as [[ph1 | |] w1] eqn:Hstart;
    [| done | done].
  pose proof (startGame_coordinated glClient ids w) as Hco.
  rewrite Hstart in Hco. simpl in Hco.
  destruct Hco as (_ & _ & _ & _ & _ & HN1 & Hfast1).
  destruct (startGame_returns _ _ _ _ _ Hconn Hstart)
    as ((n & info & ->) & Hheap1 & n' & Ht1).
  destruct evs as [| ev evs]; [simpl in Hrun; by simplify_eq |].
  rewrite run_cons in Hrun. rewrite answersOnly_cons in Hans.
  destruct Hans as (Hev2 & Hans).
  destruct (step glClient (WaitDoInitAck n info) ev) as [m |] eqn:Hstep;
    [| done].
  destruct ev as [ids' | | msg | d | | action | |]; simpl in Hstep, Hev2;
    try done.
  destruct Hev2 as (Herr & Hparse). rewrite Herr in Hstep.
  injection Hstep as <-.
  destruct (gotDoInitAck glClient n info msg w1) as [[ph2 | |] w2] eqn:Hinit;
    [| done | done].
  apply gotDoInitAck_returns in Hinit as (-> & tg & d & -> & Hint & Hn);
    [| by rewrite Hfast1 | done | by rewrite Hheap1].
  remember (globalState w1) as g eqn:Eg.
  remember (gl_client glClient) as c eqn:Ec.
  remember ([MutexLock; Sent c (MessageDoInit "DO_INIT" n'
                                  (NbTurnsMax (globalState w)));
             MutexUnlock]
            ++ tg ++ [Sleep d; Sent c (MessageDoTurn "DO_TURN" [])])
    as t eqn:Et.
  destruct (internal_quiet c tg Hint) as (Hs & Hkr & Hex).
  assert (Hsent : sentTo c t = [MessageDoInit "DO_INIT" n'
                                  (NbTurnsMax (globalState w));
                                MessageDoTurn "DO_TURN" []]).
  { rewrite Et, !sentTo_app, Hs. simpl. by rewrite !decide_True. }
  assert (Hquiet : kickReasons t = [] ∧ exitCodes t = []
                   ∧ notes t = GameStartsOn <$> channels gameStarts g).
  { rewrite Et, !kickReasons_app, !exitCodes_app, !notes_app, Hkr, Hex, Hn.
    simpl. by rewrite !app_nil_r. }
  destruct Hquiet as (Hkt & Het & Hnt).
  assert (Hst : started glClient g (trace w)
                  (addTrace (tg ++ [Sleep d; Sent c (MessageDoTurn "DO_TURN" [])])
                     w1) t).
  { unfold started, addTrace. simpl. rewrite <- Ec, Hheap1, Ht1.
    split; [done |]. split; [| done]. rewrite Et. by rewrite <- !app_assoc. }
  assert (Hinv : firstTurn c g (mkTurnLoop n info 0 [] 0 0) t).
  { unfold firstTurn. rewrite Hsent, Hkt, Het, Hnt. simpl. done. }
  assert (HNg : NbTurnsMax g ≤ 1) by (rewrite HN1; done).
  assert (Hfg : Fast g = false) by (rewrite Hfast1; done).
  clear Hstart Ht1 Hsent Hkt Het Hnt Et Hn Hint Hs Hkr Hex Hev Herr Hparse.
  revert Hst Hinv Hans Hrun.
  generalize (addTrace (tg ++ [Sleep d; Sent c (MessageDoTurn "DO_TURN" [])]) w1).
  generalize (mkTurnLoop n info 0 [] 0 0).
  induction evs as [| ev evs IH]; intros l v Hst Hinv Hans Hrun.
  - simpl in Hrun. by simplify_eq.
  - rewrite run_cons in Hrun. rewrite answersOnly_cons in Hans.
    destruct Hans as (Hev & Hrest).
    destruct (step glClient (InTurnLoop l) ev) as [m |] eqn:Hstep; [| done].
    destruct (m v) as [[ph1 | |] v1] eqn:Hm; [| done | done].
    rewrite Ec in Hinv.
    destruct (firstTurn_step _ _ _ _ _ _ _ _ _ _ Hfg HNg Hst Hinv Hev Hstep Hm)
      as [(l' & -> & Hst' & Hinv') | (-> & t' & Hg' & Ht' & Hover)].
    + rewrite <- Ec in Hinv'. by eapply IH.
    + apply drain_world in Hrun as (-> & _).
      exists t'. rewrite Hg', Ec. done.
Qed.

Lemma single_turn_game_witness :
  NbTurnsMax (globalState (lobbyWorld false 0)) = 0
  ∧ ∃ t, trace noTurnGameWorld = trace (lobbyWorld false 0) ++ t
         ∧ frameType <$> sentTo 7 t = ["DO_INIT"; "DO_TURN"; "KICK"]
         ∧ kickReasons t = ["Game is finished"]
         ∧ exitCodes t = [0]
         ∧ notes t = [GameStartsOn 0; GameStartsOn 3; GameStartsOn 6;
                      GameEndsOn 2; GameEndsOn 5; GameEndsOn 8].
Proof.
  split; [reflexivity |].
  destruct (single_turn_game lobbyGameLogic
              [RecvStart [1; 0]; RecvIncoming doInitAck; RecvIncoming doTurnAck]
              (lobbyWorld false 0) noTurnGameWorld)
    as (t & Ht & Hframes & Hkick & Hexit & Hnotes);
    [vm_compute; reflexivity | vm_compute; discriminate
     | vm_compute; discriminate | vm_compute; reflexivity
     | vm_compute; repeat split | vm_compute; reflexivity |].
  exists t. split; [exact Ht |]. split; [exact Hframes |].
  split; [exact Hkick |]. split; [exact Hexit |].
  rewrite Hnotes. vm_compute. reflexivity.
Defined.

(** ** What the handlers are handed *)

Lemma handed_app t1 t2 : handed (t1 ++ t2) = handed t1 ++ handed t2.
Proof. apply filter_app. Qed.

Lemma handed_notHanded t : Forall notHanded t → handed t = [].
Proof.
  induction 1 as [| e t He _ IH]; [done |].
  unfold handed in *. rewrite filter_cons, IH.
  unfold notHanded in He. rewrite decide_False; [done |]. by rewrite He.
Qed.

Lemma handed_all t : Forall (λ e, isHanded e = true) t → handed t = t.
Proof.
  induction 1 as [| e t He _ IH]; [done |].
  unfold handed in *. by rewrite filter_cons, decide_True, IH.
Qed.

Lemma handed_fan {A} (f : A → option Chan) (e : A → Chan → Effect) l :
  (∀ x ch, isHanded (e x ch) = true) → handed (fan f e l) = fan f e l.
Proof.
  intros He. apply handed_all. unfold fan.
  induction l as [| x l IH]; simpl; [constructor |].
  destruct (f x); simpl; [constructor; auto | done].
Qed.

Lemma bind_Ok {A B} (m : M A) (f : A → M B) w b w' :
  (m ≫= f) w = (Ok b, w') → ∃ a w1, m w = (Ok a, w1) ∧ f a w1 = (Ok b, w').
Proof.
  unfold mbind, M_bind. destruct (m w) as [[a | |] w1]; [eauto | done..].
Qed.

Lemma fanOutGameStarts_exact n info ack w w' :
  fanOutGameStarts n info ack w = (Ok tt, w') →
  w' = addTrace
         ([MutexLock]
          ++ fan gameStarts
               (λ p ch, SendGameStarts ch (gameStartsFor (globalState w) n [] ack p))
               (Players (globalState w))
          ++ fan gameStarts
               (λ p ch, SendGameStarts ch (gameStartsFor (globalState w) n info ack p))
               (Visus (globalState w))
          ++ [MutexUnlock]) w.
Proof.
  unfold fanOutGameStarts. unfold_monad. simpl. intros H.
  destruct (forEach (Players (globalState w)) _ _) as [[[] | |] w1] eqn:H1;
    try done.
  apply forEach_chanSend in H1. subst w1.
  destruct (forEach (Visus (globalState w)) _ _) as [[[] | |] w2] eqn:H2;
    try done.
  apply forEach_chanSend in H2. subst w2. simpl in H. injection H as <-.
  unfold addTrace, fan, gameStartsFor. simpl. by rewrite <- !app_assoc.
Qed.

Lemma fanOutGameEnds_exact ack w w' :
  fanOutGameEnds ack w = (Ok tt, w') →
  w' = addTrace
         ([MutexLock]
          ++ fan gameEnds (λ _ ch, SendGameEnds ch (gameEndsFor ack))
               (Players (globalState w) ++ Visus (globalState w))
          ++ [MutexUnlock]) w.
Proof.
  unfold fanOutGameEnds. unfold_monad. simpl. intros H.
  destruct (forEach (Players (globalState w)) _ _) as [[[] | |] w1] eqn:H1;
    try done.
  apply forEach_chanSend in H1. subst w1.
  destruct (forEach (Visus (globalState w)) _ _) as [[[] | |] w2] eqn:H2;
    try done.
  apply forEach_chanSend in H2. subst w2. simpl in H. injection H as <-.
  unfold addTrace, fan, gameEndsFor. simpl.
  by rewrite omap_app, <- !app_assoc.
Qed.

Lemma fanOutTurn_exact l ack w l' w' :
  fanOutTurn l ack w = (Ok l', w') →
  turnNumber l' = turnNumber l
  ∧ w' = addTrace
           ([MutexLock]
            ++ fan newTurn (λ _ ch, SendNewTurn ch (turnFor (turnNumber l - 1) [] ack))
                 (Players (globalState w))
            ++ fan newTurn
                 (λ _ ch, SendNewTurn ch
                            (turnFor (turnNumber l - 1) (playersInfo l) ack))
                 (Visus (globalState w))
            ++ [MutexUnlock]) w.
Proof.
  unfold fanOutTurn. unfold_monad. simpl. intros H.
  destruct (forEach (Players (globalState w)) _ _) as [[[] | |] w1] eqn:H1;
    try done.
  apply forEach_chanSend in H1. subst w1.
  destruct (forEach (Visus (globalState w)) _ _) as [[[] | |] w2] eqn:H2;
    try done.
  apply forEach_chanSend in H2. subst w2. simpl in H.
  destruct (Fast (globalState w) && _); simpl in H.
  - unfold postSendDoTurn in H. case_decide; simpl in H; [| done].
    injection H as <- <-. split; [done |].
    unfold addTrace, fan, turnFor. simpl. by rewrite <- !app_assoc.
  - injection H as <- <-. split; [done |].
    unfold addTrace, fan, turnFor. simpl. by rewrite <- !app_assoc.
Qed.

Lemma emitsOnly_Ok (P : Effect → Prop) {A} (m : M A) w a w' :
  emitsOnly P m → m w = (Ok a, w') → ∃ t, trace w' = trace w ++ t ∧ Forall P t.
Proof. intros Hm E. specialize (Hm w). by rewrite E in Hm. Qed.

Lemma Kick_notHanded c reason : emitsOnly notHanded (Kick c reason).
Proof. apply emitsOnly_Kick; reflexivity. Qed.

(** X17. What the handlers are handed. After a valid DO_INIT_ACK every
    Player, then every Visu, in registration order, is sent GAME_STARTS on
    its own channel, with its own player identifier, the player count
    taken at start, the configured number of turns and delays and the
    initial game state of the Game Logic, verbatim; the Players get an
    empty players_info, the Visus the array built at start. After a valid
    DO_TURN_ACK that does not end the game everyone is sent TURN with the
    number of the turn just computed and its game state, verbatim (empty
    players_info for the Players, the array for the Visus); after the one
    that ends it everyone is sent GAME_ENDS with the winner and the game
    state of that message. Nothing else is handed. *)
Theorem fanOut_payloads (glClient : GameLogicClient) :
  (∀ (n : Z) (info : list PlayerInformation) (msg : ClientMessage)
     (ack : MessageDoInitAck) (w w' : World) (ph : Phase),
     readDoInitAckMessage (content msg) = (ack, None) →
     gotDoInitAck glClient n info msg w = (Ok ph, w') →
     handed (drop (length (trace w)) (trace w'))
     = fan gameStarts
         (λ p ch, SendGameStarts ch (gameStartsFor (globalState w) n [] ack p))
         (Players (globalState w))
       ++ fan gameStarts
            (λ p ch, SendGameStarts ch (gameStartsFor (globalState w) n info ack p))
            (Visus (globalState w)))
  ∧ (∀ (l : TurnLoop) (msg : ClientMessage) (ack : MessageDoTurnAck)
       (w w' : World) (ph : Phase),
       err msg = None →
       readDoTurnAckMessage (content msg) (initialNbPlayers l) = (ack, None) →
       gotDoTurnAck glClient l msg w = (Ok ph, w') →
       handed (drop (length (trace w)) (trace w'))
       = if decide (turnNumber l + 1 < NbTurnsMax (globalState w))
         then fan newTurn
                (λ _ ch, SendNewTurn ch (turnFor (turnNumber l) [] ack))
                (Players (globalState w))
              ++ fan newTurn
                   (λ _ ch, SendNewTurn ch
                              (turnFor (turnNumber l) (playersInfo l) ack))
                   (Visus (globalState w))
         else fan gameEnds (λ _ ch, SendGameEnds ch (gameEndsFor ack))
                (Players (globalState w) ++ Visus (globalState w))).
Proof.
  split.
  - intros n info msg ack w w' ph Hparse. unfold gotDoInitAck.
    rewrite Hparse. intros H.
    apply bind_Ok in H as ([] & w1 & Hfan & Hrest).
    apply fanOutGameStarts_exact in Hfan. subst w1.
    eapply (emitsOnly_Ok notHanded) in Hrest as (t2 & Ht2 & Hq);
      [| unfold_coordinator; emits_tac; reflexivity].
    rewrite Ht2. unfold addTrace. cbn [trace].
    rewrite <- app_assoc, drop_app_length, !handed_app.
    rewrite (handed_notHanded t2 Hq), !handed_fan by done.
    simpl. by rewrite !app_nil_r.
  - intros l msg ack w w' ph Herr Hparse. unfold gotDoTurnAck.
    rewrite Herr, Hparse. intros H.
    apply bind_Ok in H as (g & w0 & Hg & H).
    unfold getGlobalState in Hg. injection Hg as <- <-. simpl in H.
    destruct (decide (turnNumber l + 1 < NbTurnsMax (globalState w))).
    + apply bind_Ok in H as (l' & w1 & Hfan & Hrest).
      apply fanOutTurn_exact in Hfan as (_ & ->). simpl.
      assert (Hw : w' = addTrace
                 ([MutexLock]
                  ++ fan newTurn
                       (λ _ ch, SendNewTurn ch (turnFor (turnNumber l + 1 - 1) [] ack))
                       (Players (globalState w))
                  ++ fan newTurn
                       (λ _ ch, SendNewTurn ch
                                  (turnFor (turnNumber l + 1 - 1) (playersInfo l) ack))
                       (Visus (globalState w))
                  ++ [MutexUnlock]) w).
      { destruct (negb _); unfold mret, M_ret in Hrest; by injection Hrest as _ <-. }
      rewrite Hw. unfold addTrace. cbn [trace].
      rewrite drop_app_length, !handed_app, !handed_fan by done. simpl.
      replace (turnNumber l + 1 - 1) with (turnNumber l) by lia.
      by rewrite app_nil_r.
    + apply bind_Ok in H as ([] & w1 & Hchk & H).
      assert (w1 = w) as ->.
      { revert Hchk. unfold mret, M_ret, panic.
        repeat case_match; intros; by simplify_eq. }
      apply bind_Ok in H as ([] & w2 & Hfan & Hrest).
      apply fanOutGameEnds_exact in Hfan. subst w2.
      eapply (emitsOnly_Ok notHanded) in Hrest as (t2 & Ht2 & Hq).
      2:{ apply emitsOnly_bind; [apply Kick_notHanded |]. intros _.
          emits_tac; reflexivity. }
      rewrite Ht2. unfold addTrace. cbn [trace].
      rewrite <- app_assoc, drop_app_length, !handed_app.
      rewrite (handed_notHanded t2 Hq), handed_fan by done.
      simpl. by rewrite !app_nil_r.
Qed.

(** ** [Cleanup] and its goroutines *)

Lemma kickStep_spec c reason pt w :
  ∃ pt' w' t,
    kickStep c reason pt w = (Ok pt', w')
    ∧ globalState w' = globalState w
    ∧ nextChan w' = nextChan w
    ∧ trace w' = trace w ++ t
    ∧ (∀ p, p ≠ c → heap w' p = heap w p)
    ∧ match pt with
      | AtCheck =>
          pt' = (if decide (state (heap w c) = CLIENT_KICKED)
                 then AtReport else AtMark)
          ∧ heap w' c = heap w c ∧ t = []
      | AtMark =>
          pt' = AtLog ∧ heap w' c = set_state CLIENT_KICKED (heap w c) ∧ t = []
      | AtLog =>
          pt' = AtSend ∧ heap w' c = heap w c
          ∧ t = [LogKicking c (nickname (heap w c)) reason]
      | AtSend =>
          pt' = AtSleep ∧ heap w' c = heap w c
          ∧ t = (if connOk (heap w c)
                 then [Sent c (MessageKick "KICK" reason)] else [])
      | AtSleep =>
          pt' = AtReport ∧ heap w' c = heap w c
          ∧ t = [Sleep (500 * Millisecond)]
      | AtReport | Reported =>
          pt' = Reported ∧ heap w' c = heap w c ∧ t = []
      end.
Proof.
  destruct pt; unfold kickStep, sendMessage, json_Marshal; unfold_monad; simpl.
  - destruct (decide _); eexists _, _, []; rewrite app_nil_r; split_and!; done.
  - eexists _, _, []. rewrite app_nil_r. split_and!; try done.
    + intros p Hp. simpl. by rewrite fn_lookup_insert_ne.
    + simpl. by rewrite fn_lookup_insert.
  - eexists _, _, _. split_and!; done.
  - destruct (connOk _); simpl.
    + eexists _, _, _. split_and!; done.
    + eexists _, _, []. rewrite app_nil_r. split_and!; done.
  - eexists _, _, _. split_and!; done.
  - eexists _, _, []. rewrite app_nil_r. split_and!; done.
  - eexists _, _, []. rewrite app_nil_r. split_and!; done.
Qed.

(** Run without interruption, the steps of a goroutine are [Kick]. *)
Lemma kickStep_Kick c reason w :
  (state (heap w c) = CLIENT_KICKED →
   kickStep c reason AtCheck w = (Ok AtReport, (Kick c reason w).2))
  ∧ (state (heap w c) ≠ CLIENT_KICKED →
     (p1 ← kickStep c reason AtCheck; p2 ← kickStep c reason p1;
      p3 ← kickStep c reason p2; p4 ← kickStep c reason p3;
      kickStep c reason p4) w
     = (Ok AtReport, (Kick c reason w).2)).
Proof.
  split; intros Hk.
  - rewrite Kick_already_kicked by done.
    unfold kickStep. unfold_monad. by rewrite decide_True.
  - rewrite Kick_not_kicked by done.
    unfold mbind at 1, M_bind at 1.
    assert (E1 : kickStep c reason AtCheck w = (Ok AtMark, w)).
    { unfold kickStep. unfold_monad. by rewrite decide_False. }
    rewrite E1. unfold kickedWorld, kickTrace.
    unfold kickStep, sendMessage, json_Marshal. unfold_monad. simpl.
    rewrite !fn_lookup_insert. simpl.
    destruct (connOk (heap w c)); simpl; by rewrite <- ?app_assoc.
Qed.

Lemma pool_insert_clients (pool : list (nat * KickPoint)) i c pt pt' :
  pool !! i = Some (c, pt) → (<[i := (c, pt')]> pool).*1 = pool.*1.
Proof.
  intros Hi. rewrite list_fmap_insert. simpl.
  apply list_insert_id. by rewrite list_lookup_fmap, Hi.
Qed.

Lemma pool_client_elem (pool : list (nat * KickPoint)) i c pt :
  pool !! i = Some (c, pt) → c ∈ pool.*1.
Proof.
  intros Hi. apply list_elem_of_fmap. exists (c, pt). split; [done |].
  by eapply list_elem_of_lookup_2.
Qed.

Lemma pool_other (pool : list (nat * KickPoint)) i j c pt c' pt' :
  NoDup pool.*1 → pool !! i = Some (c, pt) → pool !! j = Some (c', pt') →
  i ≠ j → c' ≠ c.
Proof.
  intros Hnd Hi Hj Hij ->. apply Hij.
  eapply (NoDup_lookup pool.*1); [done | ..];
    rewrite list_lookup_fmap; [rewrite Hi | rewrite Hj]; done.
Qed.

(** A step of one goroutine keeps the invariant: it touches the record
    and the socket of its own client only. *)
Lemma poolStep_inv reason w0 pool w t i m pool' w' :
  NoDup pool.*1 →
  poolInv reason w0 pool w t →
  poolStep reason pool i = Some m →
  m w = (Ok pool', w') →
  pool'.*1 = pool.*1 ∧ ∃ t', poolInv reason w0 pool' w' t'.
Proof.
  intros Hnd (Ig & In & It & Ie & Io & Ic) Hs Hm.
  unfold poolStep in Hs.
  destruct (pool !! i) as [[c pt] |] eqn:Hi; [| done].
  assert (Hlive : pt ≠ Reported) by (intros ->; done).
  assert (m = (pt' ← kickStep c reason pt; mret (<[i := (c, pt')]> pool))) as ->
    by (destruct pt; by simplify_eq).
  clear Hs.
  destruct (kickStep_spec c reason pt w)
    as (pt' & w1 & tk & E & Hg & Hn & Ht & Hothers & Hcase).
  unfold mbind, M_bind in Hm. rewrite E in Hm. unfold mret, M_ret in Hm.
  injection Hm as <- <-.
  pose proof (pool_insert_clients pool i c pt pt' Hi) as Hfst.
  pose proof (pool_client_elem pool i c pt Hi) as Hin.
  destruct (Ic i c pt Hi) as (Hcell & Hfr & Hpath).
  split; [exact Hfst |]. exists (t ++ tk).
  assert (Htk : Forall (kickEffect pool.*1) tk
                ∧ ∀ c', c' ≠ c → sentTo c' tk = []).
  { destruct pt; simpl in Hcase; destruct Hcase as (_ & _ & ->).
    - split; [constructor | done].
    - split; [constructor | done].
    - split; [constructor; [exact Hin | constructor] | done].
    - destruct (connOk _).
      + split; [constructor; [exact Hin | constructor] |].
        intros c' Hc'. simpl. by rewrite decide_False by congruence.
      + split; [constructor | done].
    - split; [constructor; [exact I | constructor] | done].
    - split; [constructor | done].
    - split; [constructor | done]. }
  destruct Htk as (Hk1 & Hk2).
  unfold poolInv. rewrite Hfst.
  split; [congruence |]. split; [congruence |].
  split; [by rewrite Ht, It, app_assoc |].
  split; [by apply Forall_app |].
  split.
  { intros p Hp. rewrite Hothers; [by apply Io |]. intros ->. done. }
  intros j c' pt'' Hj.
  destruct (decide (j = i)) as [-> | Hji].
  - rewrite list_lookup_insert_eq in Hj by (by eapply lookup_lt_Some).
    injection Hj as <- <-.
    rewrite sentTo_app, Hfr.
    revert Hcase Hcell Hpath. unfold cellAt, framesAt, onPath.
    destruct pt; simpl; intros (-> & -> & ->) Hcell Hpath; rewrite Hcell;
      try done.
    + (* the check *)
      destruct (decide (state (heap w0 c) = CLIENT_KICKED)); simpl.
      * rewrite decide_True by done. split_and!; try done; auto.
      * rewrite decide_False by done. split_and!; try done; auto.
    + (* the mark *)
      destruct (decide (state (heap w0 c) = CLIENT_KICKED)) as [Hk | Hk];
        [by destruct (Hpath Hk) as [? | [? | ?]] |].
      simpl. split_and!; try done; auto.
    + (* the log line *)
      destruct (decide (state (heap w0 c) = CLIENT_KICKED)) as [Hk | Hk];
        [by destruct (Hpath Hk) as [? | [? | ?]] |].
      simpl. split_and!; try done; auto.
    + (* the frame *)
      destruct (decide (state (heap w0 c) = CLIENT_KICKED)) as [Hk | Hk];
        [by destruct (Hpath Hk) as [? | [? | ?]] |].
      simpl. destruct (connOk (heap w0 c)); simpl;
        rewrite ?decide_True by done; split_and!; try done; auto.
    + (* the pause *)
      destruct (decide (state (heap w0 c) = CLIENT_KICKED)) as [Hk | Hk];
        [by destruct (Hpath Hk) as [? | [? | ?]] |].
      simpl. rewrite ?app_nil_r. split_and!; try done; auto.
    + (* the report *)
      rewrite app_nil_r. split_and!; try done; auto.
  - rewrite list_lookup_insert_ne in Hj by done.
    pose proof (pool_other pool i j c pt c' pt'' Hnd Hi Hj ltac:(done)) as Hne.
    destruct (Ic j c' pt'' Hj) as (Hcell' & Hfr' & Hpath').
    rewrite Hothers by done. rewrite sentTo_app, Hk2, app_nil_r by done.
    done.
Qed.

Lemma poolRun_inv reason w0 schedule : ∀ pool w t pool' w',
  NoDup pool.*1 →
  poolInv reason w0 pool w t →
  poolRun reason pool schedule w = Some (pool', w') →
  pool'.*1 = pool.*1 ∧ ∃ t', poolInv reason w0 pool' w' t'.
Proof.
  induction schedule as [| i rest IH]; intros pool w t pool' w' Hnd Hinv Hrun.
  - simpl in Hrun. simplify_eq. eauto.
  - simpl in Hrun.
    destruct (poolStep reason pool i) as [m |] eqn:Hs; [| done].
    destruct (m w) as [[pool1 | |] w1] eqn:Hm; [| done..].
    destruct (poolStep_inv _ _ _ _ _ _ _ _ _ Hnd Hinv Hs Hm) as (Hfst & t1 & Hinv1).
    destruct (IH pool1 w1 t1 pool' w') as (Hfst' & t' & Hinv');
      [by rewrite Hfst | done | done |].
    split; [congruence | eauto].
Qed.

Lemma cellAt_AtCheck c0 : cellAt c0 AtCheck = c0.
Proof. unfold cellAt. by destruct (decide _). Qed.

Lemma set_state_same c0 : state c0 = CLIENT_KICKED → set_state CLIENT_KICKED c0 = c0.
Proof. destruct c0. simpl. by intros ->. Qed.

Lemma cellAt_Reported c0 : cellAt c0 Reported = set_state CLIENT_KICKED c0.
Proof.
  unfold cellAt. destruct (decide _); [by rewrite set_state_same | done].
Qed.

Lemma poolInv_start reason w0 cs :
  poolInv reason w0 ((λ c, (c, AtCheck)) <$> cs) w0 [].
Proof.
  unfold poolInv. rewrite app_nil_r. split_and!; try done.
  intros i c pt Hi. apply list_lookup_fmap_Some in Hi as (c' & E & Hc).
  injection E as -> ->. rewrite cellAt_AtCheck. split; [done |].
  unfold framesAt, onPath. simpl. split; [by destruct (decide _) | auto].
Qed.

Lemma start_clients (cs : list nat) : ((λ c, (c, AtCheck)) <$> cs).*1 = cs.
Proof. rewrite <- list_fmap_compose. apply list_fmap_id. Qed.

(** Every goroutine that has not reported can step, and stepping brings
    it nearer to its report: whatever the interleaving was so far, it can
    be continued until all have reported. *)
Lemma allReported_false (pool : list (nat * KickPoint)) :
  allReported pool = false →
  ∃ i c pt, pool !! i = Some (c, pt) ∧ pt ≠ Reported.
Proof.
  induction pool as [| [c pt] pool IH]; simpl; [done |].
  destruct pt; try (intros _; eexists 0%nat, _, _; split; [reflexivity | done]).
  simpl. intros H. destruct (IH H) as (i & c' & pt' & Hi & Hpt).
  by exists (S i), c', pt'.
Qed.

Lemma remaining_insert (pool : list (nat * KickPoint)) i c pt pt' :
  pool !! i = Some (c, pt) → (rank pt < rank pt' ≤ 6)%nat →
  (remaining (<[i := (c, pt')]> pool) < remaining pool)%nat.
Proof.
  unfold remaining. revert i.
  induction pool as [| x pool IH]; intros i Hi Hr; [done |].
  destruct i as [| i]; simpl in *.
  - simplify_eq. simpl. lia.
  - specialize (IH i Hi Hr). apply Nat.add_lt_mono_l. exact IH.
Qed.

Lemma kickStep_rank c reason pt w :
  pt ≠ Reported →
  ∃ pt' w', kickStep c reason pt w = (Ok pt', w')
            ∧ (rank pt < rank pt' ≤ 6)%nat.
Proof.
  intros Hpt.
  destruct (kickStep_spec c reason pt w) as (pt' & w' & t & E & _ & _ & _ & _ & H).
  exists pt', w'. split; [done |].
  destruct pt; try done; destruct H as (-> & _); simpl; try lia.
  destruct (decide _); simpl; lia.
Qed.

Lemma pool_progress reason n : ∀ pool w,
  (remaining pool ≤ n)%nat →
  ∃ schedule pool' w',
    poolRun reason pool schedule w = Some (pool', w')
    ∧ allReported pool' = true.
Proof.
  induction n as [| n IH]; intros pool w Hn.
  - destruct (allReported pool) eqn:Hall; [by exists [], pool, w |].
    apply allReported_false in Hall as (i & c & pt & Hi & Hpt).
    destruct (kickStep_rank c reason pt w Hpt) as (pt' & w' & _ & Hr).
    pose proof (remaining_insert pool i c pt pt' Hi Hr). lia.
  - destruct (allReported pool) eqn:Hall; [by exists [], pool, w |].
    apply allReported_false in Hall as (i & c & pt & Hi & Hpt).
    destruct (kickStep_rank c reason pt w Hpt) as (pt' & w' & E & Hr).
    pose proof (remaining_insert pool i c pt pt' Hi Hr) as Hlt.
    destruct (IH (<[i := (c, pt')]> pool) w') as (sch & pool' & w'' & Hrun & Hall);
      [lia |].
    exists (i :: sch), pool', w''. split; [| done].
    simpl. unfold poolStep. rewrite Hi.
    assert (Hm : (pt0 ← kickStep c reason pt; mret (<[i := (c, pt0)]> pool)) w
                 = (Ok (<[i := (c, pt')]> pool), w')).
    { unfold mbind, M_bind. by rewrite E. }
    destruct pt; try done; by rewrite Hm.
Qed.

(** Closing the sockets (lines 246-251). *)
Lemma close_sockets cs : ∀ w,
  ∃ w', forEach cs (λ c, modifyClient c (set_connOk false)) w = (Ok tt, w')
        ∧ globalState w' = globalState w
        ∧ nextChan w' = nextChan w
        ∧ trace w' = trace w
        ∧ (∀ p, p ∉ cs → heap w' p = heap w p)
        ∧ (∀ c, c ∈ cs → heap w' c = set_connOk false (heap w c)).
Proof.
  induction cs as [| c cs IH]; intros w.
  - exists w. split_and!; try done. intros c Hc. by apply elem_of_nil in Hc.
  - set (w1 := (modifyClient c (set_connOk false) w).2).
    destruct (IH w1) as (w' & E & Hg & Hn & Ht & Ho & Hc).
    assert (E' : forEach (c :: cs) (λ c, modifyClient c (set_connOk false)) w
                 = (Ok tt, w')) by exact E.
    exists w'. split_and!; try done.
    + intros p Hp. apply not_elem_of_cons in Hp as (Hpc & Hp).
      rewrite Ho by done. unfold w1. simpl. by rewrite fn_lookup_insert_ne.
    + intros p Hp. destruct (decide (p ∈ cs)) as [Hin | Hin].
      * rewrite Hc by done. unfold w1. simpl.
        destruct (decide (p = c)) as [-> | Hpc].
        -- rewrite fn_lookup_insert. by destruct (heap w c).
        -- by rewrite fn_lookup_insert_ne.
      * apply elem_of_cons in Hp as [-> | Hp]; [| done].
        rewrite Ho by done. unfold w1. simpl. by rewrite fn_lookup_insert.
Qed.

Lemma allReported_true (pool : list (nat * KickPoint)) i c pt :
  allReported pool = true → pool !! i = Some (c, pt) → pt = Reported.
Proof.
  unfold allReported. rewrite forallb_forall. intros Hall Hi.
  assert (Hin : In (c, pt) pool)
    by (apply list_elem_of_In; by eapply list_elem_of_lookup_2).
  specialize (Hall _ Hin). simpl in Hall. by destruct pt.
Qed.

Lemma clientsOf_length g :
  length (clientsOf g)
  = (length (Players g) + length (Visus g) + length (GameLogic g))%nat.
Proof. unfold clientsOf. by rewrite length_app, !length_fmap, length_app. Qed.

Lemma Cleanup_eq schedule s :
  Cleanup schedule s
  = let w1 := (emit MutexLock (world s)).2 in
    let cs := clientsOf (globalState (world s)) in
    if decide (0 < length cs)%nat then
      match poolRun "netorcai abort" ((λ c, (c, AtCheck)) <$> cs) schedule w1 with
      | Some (pool', w') =>
          if allReported pool' then
            Some (mkServer false
                    (emit MutexUnlock
                       (forEach cs (λ c, modifyClient c (set_connOk false)) w').2).2)
          else None
      | None => None
      end
    else
      match schedule with
      | [] => Some (mkServer false (emit MutexUnlock w1).2)
      | _ => None
      end.
Proof.
  unfold Cleanup. cbv zeta. rewrite clientsOf_length.
  change (globalState (emit MutexLock (world s)).2) with (globalState (world s)).
  reflexivity.
Qed.

(** X18. [Cleanup] (with [Kick] run by its goroutines), for EVERY
    interleaving of the goroutines it starts, one per registered client,
    provided no client is registered twice (the goroutines of one client
    would race on its record). (1) The loop that waits for the goroutines
    always can end: some interleaving lets [Cleanup] return. (2) When it
    returns, whatever the interleaving was: the listening socket is
    closed; the registries and the channels are as before; every
    registered client is marked [CLIENT_KICKED] and its socket is closed;
    no other client is touched; between the lock and the unlock of the
    mutex the only effects are "Kicking client" log lines, frames and
    pauses, all for registered clients (no exit code, nothing on a
    channel); and a registered client was sent exactly one frame,
    KICK "netorcai abort", if it was not kicked already and its socket
    took frames, and nothing otherwise; with no client registered there
    is no effect at all between the lock and the unlock. *)
Theorem Cleanup_kicks_everyone (s : Server) :
  NoDup (clientsOf (globalState (world s))) →
  (∃ schedule s', Cleanup schedule s = Some s')
  ∧ ∀ schedule s', Cleanup schedule s = Some s' →
      listening s' = false
      ∧ globalState (world s') = globalState (world s)
      ∧ nextChan (world s') = nextChan (world s)
      ∧ (∀ c, c ∈ clientsOf (globalState (world s)) →
           heap (world s') c
           = set_connOk false (set_state CLIENT_KICKED (heap (world s) c)))
      ∧ (∀ p, p ∉ clientsOf (globalState (world s)) →
           heap (world s') p = heap (world s) p)
      ∧ ∃ t,
          trace (world s')
          = trace (world s) ++ [MutexLock] ++ t ++ [MutexUnlock]
          ∧ Forall (kickEffect (clientsOf (globalState (world s)))) t
          ∧ (∀ c, c ∈ clientsOf (globalState (world s)) →
               sentTo c t
               = if decide (state (heap (world s) c) = CLIENT_KICKED) then []
                 else if connOk (heap (world s) c)
                      then [MessageKick "KICK" "netorcai abort"] else [])
          ∧ (clientsOf (globalState (world s)) = [] → t = []).
Proof.
  intros Hnd. destruct s as [l w]. simpl in Hnd |- *.
  set (cs := clientsOf (globalState w)) in *.
  set (w1 := (emit MutexLock w).2).
  assert (Hg1 : globalState w1 = globalState w) by done.
  pose proof (clientsOf_length (globalState w)) as Hlen. fold cs in Hlen.
  split.
  - (* the goroutines can always all report *)
    setoid_rewrite Cleanup_eq. cbv zeta. simpl world. fold cs w1.
    destruct (decide (0 < length cs)%nat) as [Hpos | Hzero].
    + destruct (pool_progress "netorcai abort"
                  (remaining ((λ c, (c, AtCheck)) <$> cs))
                  ((λ c, (c, AtCheck)) <$> cs) w1 ltac:(lia))
        as (schedule & pool' & w' & Hrun & Hall).
      exists schedule. rewrite Hrun, Hall. eauto.
    + exists []. eauto.
  - intros schedule s'. rewrite Cleanup_eq. cbv zeta. simpl world.
    fold cs w1.
    destruct (decide (0 < length cs)%nat) as [Hpos | Hzero].
    + destruct (poolRun _ _ schedule w1) as [[pool' w'] |] eqn:Hrun; [| done].
      destruct (allReported pool') eqn:Hall; [| done].
      intros [= <-]. simpl.
      destruct (poolRun_inv "netorcai abort" w1 schedule
                  ((λ c, (c, AtCheck)) <$> cs) w1 [] pool' w')
        as (Hfst & t & Ig & In & It & Ie & Io & Ic);
        [by rewrite start_clients | apply poolInv_start | exact Hrun |].
      rewrite start_clients in Hfst. rewrite Hfst in Ie, Io.
      destruct (close_sockets cs w') as (w2 & -> & Hg & Hn & Ht & Ho & Hc).
      simpl.
      assert (Hdone : ∀ c, c ∈ cs →
                heap w' c = set_state CLIENT_KICKED (heap w c)
                ∧ sentTo c t = framesAt (heap w c) "netorcai abort" Reported).
      { intros c Hin. rewrite <- Hfst in Hin.
        apply list_elem_of_fmap in Hin as ([c' pt] & -> & Hin).
        apply list_elem_of_lookup_1 in Hin as (i & Hi).
        pose proof (allReported_true _ _ _ _ Hall Hi) as ->.
        destruct (Ic i c' Reported Hi) as (Hcell & Hfr & _).
        simpl in Hcell, Hfr. by rewrite cellAt_Reported in Hcell. }
      split_and!; try done.
      * by rewrite Hg, Ig.
      * by rewrite Hn, In.
      * intros c Hin. rewrite Hc by done. by rewrite (proj1 (Hdone c Hin)).
      * intros p Hp. rewrite Ho by done. by apply Io.
      * exists t. split_and!; [| done | |].
        -- rewrite Ht, It. simpl. by rewrite <- !app_assoc.
        -- intros c Hin. rewrite (proj2 (Hdone c Hin)). unfold framesAt.
           simpl. done.
        -- intros Hcs. rewrite Hcs in Hpos. simpl in Hpos. lia.
    + assert (cs = []) as Hcs by (destruct cs; [done | simpl in Hzero; lia]).
      destruct schedule; [| done]. intros [= <-]. simpl.
      split_and!; try done.
      * intros c Hin. rewrite Hcs in Hin. by apply elem_of_nil in Hin.
      * exists []. split_and!.
        -- simpl. by rewrite <- app_assoc.
        -- constructor.
        -- intros c Hin. rewrite Hcs in Hin. by apply elem_of_nil in Hin.
        -- done.
Qed.

Lemma Cleanup_kicks_everyone_witness :
  NoDup (clientsOf (globalState (world lobbyServer)))
  ∧ Cleanup lobbySchedule lobbyServer = Some cleanedServer
  ∧ listening cleanedServer = false
  ∧ (∀ c, c ∈ clientsOf (globalState (world lobbyServer)) →
       heap (world cleanedServer) c
       = set_connOk false (set_state CLIENT_KICKED (heap (world lobbyServer) c))).
Proof.
  assert (Hnd : NoDup (clientsOf (globalState (world lobbyServer))))
    by (apply (bool_decide_unpack _); vm_compute; exact I).
  assert (Hrun : Cleanup lobbySchedule lobbyServer = Some cleanedServer)
    by (vm_compute; reflexivity).
  split; [exact Hnd |]. split; [exact Hrun |].
  pose proof (proj2 (Cleanup_kicks_everyone lobbyServer Hnd)
                lobbySchedule cleanedServer Hrun) as H.
  split; [exact (proj1 H) | exact (proj1 (proj2 (proj2 (proj2 H))))].
Defined.

(** ** The effects produced with the mutex held *)

Lemma heldAfter_app b t1 t2 :
  heldAfter b (t1 ++ t2) = heldAfter (heldAfter b t1) t2.
Proof.
  revert b. induction t1 as [| e t1 IH]; intros b; simpl; [done |].
  destruct e; simpl; auto.
Qed.

Lemma underLock_app b t1 t2 :
  underLock b (t1 ++ t2) = underLock b t1 ++ underLock (heldAfter b t1) t2.
Proof.
  revert b. induction t1 as [| e t1 IH]; intros b; simpl; [done |].
  destruct e, b; simpl; by rewrite ?IH.
Qed.

Lemma heldAfter_noMutex b t : Forall noMutex t → heldAfter b t = b.
Proof.
  induction 1 as [| e t He _ IH]; simpl; [done |].
  destruct e; simpl in He; done.
Qed.

Lemma underLock_free t : Forall noMutex t → underLock false t = [].
Proof.
  induction 1 as [| e t He _ IH]; simpl; [done |].
  destruct e; simpl in He; done.
Qed.

Lemma underLock_held t : Forall noMutex t → underLock true t = t.
Proof.
  induction 1 as [| e t He _ IH]; simpl; [done |].
  destruct e; simpl in He; by rewrite ?IH.
Qed.

Lemma guarded_ret P b {A} (a : A) : guarded P b b (mret a).
Proof. intros w. exists []. rewrite app_nil_r. split_and!; done. Qed.

Lemma guarded_bind P b1 b2 b3 {A B} (m : M A) (f : A → M B) :
  guarded P b1 b2 m → (∀ a, guarded P b2 b3 (f a)) → guarded P b1 b3 (m ≫= f).
Proof.
  intros Hm Hf w. unfold mbind, M_bind.
  destruct (Hm w) as (t1 & Ht1 & HP1 & H1).
  destruct (m w) as [[a | |] w1]; simpl in Ht1, H1;
    [| exists t1; split_and!; done..].
  destruct (Hf a w1) as (t2 & Ht2 & HP2 & H2).
  exists (t1 ++ t2). rewrite Ht2, Ht1, app_assoc.
  rewrite underLock_app, heldAfter_app, (H1 a eq_refl).
  split_and!; [done | by apply Forall_app | done].
Qed.

Lemma guarded_lock P b : guarded P b true (emit MutexLock).
Proof. intros w. exists [MutexLock]. split_and!; done. Qed.

Lemma guarded_unlock P b : guarded P b false (emit MutexUnlock).
Proof. intros w. exists [MutexUnlock]. split_and!; done. Qed.

Lemma guarded_free P {A} (m : M A) :
  emitsOnly noMutex m → guarded P false false m.
Proof.
  intros Hm w. destruct (Hm w) as (t & Ht & Hno). exists t.
  rewrite underLock_free, heldAfter_noMutex by done. split_and!; done.
Qed.

Lemma guarded_held (P : Effect → Prop) {A} (m : M A) :
  emitsOnly (λ e, noMutex e ∧ P e) m → guarded P true true m.
Proof.
  intros Hm w. destruct (Hm w) as (t & Ht & Hno). exists t.
  assert (Forall noMutex t) by (eapply Forall_impl; [exact Hno | simpl; by intros ? (? & ?)]).
  assert (Forall P t) by (eapply Forall_impl; [exact Hno | simpl; by intros ? (? & ?)]).
  rewrite underLock_held, heldAfter_noMutex by done. split_and!; done.
Qed.

Lemma guarded_silent P b {A} (m : M A) :
  (∀ w, trace (m w).2 = trace w) → guarded P b b m.
Proof. intros Hm w. exists []. rewrite app_nil_r. split_and!; done. Qed.

Lemma guarded_stuck P b b' {A} (m : M A) :
  (∀ w, (m w) = (Blocked, w) ∨ (m w) = (Panicked, w)) → guarded P b b' m.
Proof.
  intros Hm w. exists []. rewrite app_nil_r.
  destruct (Hm w) as [-> | ->]; split_and!; done.
Qed.

Lemma guarded_Kick_free P c reason : guarded P false false (Kick c reason).
Proof. apply guarded_free. by apply emitsOnly_Kick. Qed.

Ltac guarded_leaf :=
  emits_tac; cbv beta;
  try match goal with
      | |- _ ∧ _ => split; [exact I | first [reflexivity | simpl; auto]]
      | |- noMutex _ => exact I
      end.

Ltac guarded_step :=
  first
    [ apply guarded_lock
    | apply guarded_unlock
    | apply guarded_ret
    | apply guarded_Kick_free
    | apply guarded_stuck; intros ?; ((by left) || (by right))
    | apply guarded_silent; intros ?; reflexivity
    | eapply guarded_bind; [| intros ?]
    | apply guarded_held; guarded_leaf; fail
    | apply guarded_free; guarded_leaf; fail ].

Ltac guarded_tac :=
  repeat first
    [ guarded_step
    | match goal with
      | |- guarded _ _ _ (match ?x with _ => _ end) => destruct x
      | |- guarded _ _ _ (if ?x then _ else _) => destruct x
      | |- guarded _ _ _ (let '(_, _) := ?x in _) => destruct x
      end ].

(** A LOGIN that [readLoginMessage] lets through has one of the three
    roles of the [switch] of line 77. *)
Lemma readLoginMessage_role c lm :
  readLoginMessage c = (lm, None) →
  role lm = "player" ∨ role lm = "visualization" ∨ role lm = "game logic".
Proof.
  unfold readLoginMessage. intros H.
  repeat case_match; simplify_eq. simpl.
  repeat match goal with
         | H : _ && _ = true |- _ => apply andb_prop in H as [? ?]
         end.
  unfold role_valid in *.
  repeat match goal with
         | H : _ || _ = true |- _ => apply orb_prop in H as [? | ?]
         end;
    match goal with
    | H : bool_decide _ = true |- _ => apply bool_decide_eq_true in H
    end; auto.
Qed.

Lemma handleClient_guarded client msg :
  guarded (heldByHandleClient client) false false (handleClient client msg).
Proof.
  unfold handleClient.
  destruct (err msg); [guarded_tac |].
  destruct (readLoginMessage (content msg)) as [lm [e |]] eqn:Hread;
    [guarded_tac |].
  pose proof (readLoginMessage_role _ _ Hread) as Hrole.
  unfold loginPlayer, loginVisualization, loginGameLogic, sendLoginACK,
    json_Marshal.
  eapply guarded_bind; [guarded_tac | intros _].
  eapply guarded_bind; [guarded_tac | intros _].
  repeat (destruct (decide (role lm = _)); [guarded_tac |]).
  by destruct Hrole as [? | [? | ?]].
Qed.

Lemma heldByCoordinator_mono gl b e :
  heldByCoordinator gl b e → heldByCoordinator gl true e.
Proof. destruct e as [| | p [] | | | | | |]; simpl; tauto. Qed.

Lemma step_guarded glClient ph ev m :
  step glClient ph ev = Some m →
  guarded (heldByCoordinator (gl_client glClient) (atStart ph)) false false m.
Proof.
  intros Hs. destruct ph, ev; simpl in Hs; repeat case_match; simplify_eq.
  all: unfold_coordinator; guarded_tac.
Qed.

(** X19. The effects produced with the mutex held. The effects are what
    the code does to the outside: the frames written on sockets, the
    "Kicking client" log lines, the pauses, the messages handed to the
    handlers and the exit codes. Where the registries are written, the
    channels made and [sendDoTurnToGL] posted is not an effect, and no
    part of this statement. (1) [handleClient] always returns with the
    mutex released, whatever the message, and the only effect it produces
    while holding it is the LOGIN_ACK frame to its client: every [Kick] of
    a refused LOGIN, with its frame and its 500 ms pause, comes after the
    unlock. That the mutex is released at all rests on [readLoginMessage]
    letting through the three roles of the [switch] only, which has no
    default case. (2) Along any run of the coordinator, the only effects
    produced with the mutex held are messages handed to the Player and
    Visu handlers and the DO_INIT frame to the Game Logic; only a
    coordinator still at its first [select] may also kick the Game Logic
    (log line, KICK frame and 500 ms pause) under the mutex, which it does
    for a message that comes before the start. No exit code and no
    DO_TURN frame is produced with the mutex held. *)
Theorem mutex_held_effects :
  (∀ (client : ClientPtr) (msg : ClientMessage) (w : World),
     ∃ t, trace (handleClient client msg w).2 = trace w ++ t
          ∧ heldAfter false t = false
          ∧ Forall (heldByHandleClient client) (underLock false t))
  ∧ (∀ (glClient : GameLogicClient) (ph : Phase) (evs : list Event)
       (w w' : World) (r : Result Phase),
       run glClient ph evs w = Some (r, w') →
       ∃ t, trace w' = trace w ++ t
            ∧ Forall (heldByCoordinator (gl_client glClient) (atStart ph))
                (underLock false t)).
Proof.
  split.
  - intros client msg w.
    destruct (handleClient_guarded client msg w) as (t & Ht & HP & Hheld).
    exists t. split_and!; [done | | done].
    destruct (handleClient_registered client msg w) as (h & r & Hh & _).
    apply (Hheld h). by rewrite Hh.
  - intros glClient ph evs. revert ph.
    induction evs as [| ev evs IH]; intros ph w w' r Hrun.
    + simpl in Hrun. simplify_eq. exists []. rewrite app_nil_r.
      split; [done | constructor].
    + rewrite run_cons in Hrun.
      destruct (step glClient ph ev) as [m |] eqn:Hstep; [| done].
      destruct (step_guarded _ _ _ _ Hstep w) as (t1 & Ht1 & HP1 & H1).
      pose proof (step_not_WaitStart _ _ _ _ Hstep w) as Hph1.
      destruct (m w) as [[ph1 | |] w1]; simpl in Ht1, H1, Hph1;
        [| simplify_eq; by exists t1..].
      destruct (IH _ _ _ _ Hrun) as (t2 & Ht2 & HP2).
      exists (t1 ++ t2). rewrite Ht2, Ht1, app_assoc. split; [done |].
      rewrite underLock_app, (H1 ph1 eq_refl). apply Forall_app. split; [done |].
      eapply Forall_impl; [exact HP2 |]. intros e He.
      assert (atStart ph1 = false) as Hat
        by (specialize (Hph1 ph1 eq_refl); by destruct ph1).
      rewrite Hat in He. destruct (atStart ph); [| done].
      by eapply heldByCoordinator_mono.
Qed.

Lemma mutex_held_effects_witness :
  ∃ t, trace normalGameWorld = trace (lobbyWorld false 2) ++ t
       ∧ Forall (heldByCoordinator (gl_client lobbyGameLogic) (atStart WaitStart))
           (underLock false t).
Proof.
  apply (proj2 mutex_held_effects lobbyGameLogic WaitStart normalSchedule
           (lobbyWorld false 2) normalGameWorld (Ok WaitFinition)).
  vm_compute. reflexivity.
Defined.
